(** * reindex_concurrently: the index rebuild engine

    A shallow embedding of [src/reindex_concurrently.py] (version 1.1.0):
    the statement executor [dbquery], the per-index engine [process_index]
    with its retry loop and its two swap protocols, the table expander
    [process_table] and the driver loops, together with the splitting
    of the comma-separated lists of the command line and the message
    that closes the run.

    The script talks to three outside parties: the wall clock
    ([time.time], [time.sleep]), the database cursor ([cur.execute],
    [cur.fetchall]) and standard output ([_print]).  The clock and the
    cursor are kept abstract: every definition of the engine is
    parametric in a [World] and in the four functions that tell how the
    world answers.  Each call made to the outside is recorded as an
    [event], so that a run yields the list of its interactions, the
    final state and either a value or the exception that ended it.

    Times are doubles, as [time.time()] returns them: the deadline is
    compared and subtracted in the arithmetic of the machine.  Of
    [index_bloat_stats] and of [humanfriendly.format_size], whose text
    only reaches [verbose_print], the exceptions are kept; the library
    function is a parameter like the clock and the cursor.

    Not modelled: the rest of argument parsing, the log file,
    connection set-up and tear-down, the interrupt handler, and the
    lines written by [verbose_print] and [debug_print] (they only reach
    standard output, and only under --verbose and --debug). *)

From Stdlib Require Import List String Ascii ZArith QArith Bool Lia.
From Stdlib Require Import DecimalString Qround Floats.
Import ListNotations.

Open Scope string_scope.
Open Scope Z_scope.

(** A decimal numeral stands for the double nearest to it, as it does
    in Python. *)
Set Warnings "-inexact-float".

(** ** Python values read from the cursor *)

(** A cell of a result row as psycopg2 hands it over: text, an integer,
    a boolean, or [None] for SQL NULL. *)
Inductive value : Type :=
| VStr (s : string)
| VInt (z : Z)
| VBool (b : bool)
| VNone.

Definition row : Type := list value.

(** [str(z)] for an integer. *)
Definition string_of_Z (z : Z) : string :=
  NilZero.string_of_int (Z.to_int z).

(** ["%s" % v]. *)
Definition py_str (v : value) : string :=
  match v with
  | VStr s => s
  | VInt z => string_of_Z z
  | VBool true => "True"
  | VBool false => "False"
  | VNone => "None"
  end.

(** Truth value of [v] in [if v:]. *)
Definition py_truthy (v : value) : bool :=
  match v with
  | VStr s => negb (String.eqb s "")
  | VInt z => negb (Z.eqb z 0)
  | VBool b => b
  | VNone => false
  end.

(** [total + v] for an integer [total]; [None] stands for [TypeError]. *)
Definition py_add_int (total : Z) (v : value) : option Z :=
  match v with
  | VInt z => Some (total + z)
  | VBool b => Some (total + (if b then 1 else 0))
  | VStr _ | VNone => None
  end.

(** The integer that [v] is in arithmetic and comparisons: booleans
    are the integers 0 and 1. *)
Definition as_int (v : value) : option Z :=
  match v with
  | VInt z => Some z
  | VBool b => Some (if b then 1 else 0)
  | VStr _ | VNone => None
  end.

(** [float(z)] raises [OverflowError] when the double nearest to [z]
    would be beyond the largest one, [2^1024 - 2^971]: from half a unit
    in the last place above it. *)
Definition float_overflows (z : Z) : bool :=
  2 ^ 1024 - 2 ^ 970 <=? Z.abs z.

(** [v + "_new"]; only text can be concatenated with text. *)
Definition py_concat (v : value) (suffix : string) : option string :=
  match v with
  | VStr s => Some (s ++ suffix)
  | _ => None
  end.

(** [v in l] for a list [l] of strings. *)
Definition py_in (v : value) (l : list string) : bool :=
  match v with
  | VStr s => existsb (String.eqb s) l
  | _ => false
  end.

(** [range(lo, hi)]. *)
Definition py_range (lo hi : Z) : list Z :=
  List.map (fun i => lo + Z.of_nat i) (seq 0 (Z.to_nat (hi - lo))).

(** ** Statements *)

(** One constructor per statement template of the script; [sql] gives
    the text that is handed to [cur.execute]. *)
Inductive stmt : Type :=
| SetStatementTimeout (timeout_secs : Z)
| IdxInfoQuery (idx_name : string)
| IdxCreateNewQuery (idx_name : string)
| DropIndexIfExists (idx_name_new : string)
| CreateNew (idx_create_new : string)
| IdxValidQuery (idx_name_new : string)
| IdxSizeBeforeQuery (idx_name : string)
| IdxSizeAfterQuery (idx_name_new : string)
| Analyse (table : string)
| Begin
| DropConstraint (table idx_name : string)
| RenameIndex (idx_name_new idx_name : string)
| AddPrimaryKey (table idx_name : string)
| Commit
| DropIndex (name : string)
| IdxNamesQuery (table : string).

Definition sql (q : stmt) : string :=
  match q with
  | SetStatementTimeout n =>
      "SET statement_timeout = '" ++ string_of_Z n ++ "s'"
  | IdxInfoQuery n => "
        SELECT i.tablename, ix.indisprimary
        FROM pg_class c
        INNER JOIN pg_indexes i ON c.relname = i.indexname
        INNER JOIN pg_index ix ON c.oid = ix.indexrelid
        WHERE c.relname = '" ++ n ++ "'
    "
  | IdxCreateNewQuery n => "
        SELECT " ++ "
          indexdef, " ++ "
          regexp_replace(indexdef, '(.*)INDEX (.*) ON(.*)', '\1INDEX CONCURRENTLY \2_new ON\3') AS indexdef_new
        FROM pg_indexes WHERE indexname = '" ++ n ++ "'
    "
  | DropIndexIfExists n => "DROP INDEX CONCURRENTLY IF EXISTS " ++ n
  | CreateNew text => text
  | IdxValidQuery n => "
            SELECT relname, indisvalid
            FROM pg_class INNER JOIN pg_index ON pg_index.indexrelid = pg_class.oid
            WHERE relname='" ++ n ++ "'
        "
  | IdxSizeBeforeQuery n => "SELECT pg_relation_size('" ++ n ++ "')"
  | IdxSizeAfterQuery n => "SELECT pg_relation_size('" ++ n ++ "')"
  | Analyse t => "ANALYSE " ++ t
  | Begin => "BEGIN"
  | DropConstraint t n => "ALTER TABLE " ++ t ++ " DROP CONSTRAINT " ++ n
  | RenameIndex n' n => "ALTER INDEX " ++ n' ++ " RENAME TO " ++ n
  | AddPrimaryKey t n =>
      "ALTER TABLE " ++ t ++ " ADD PRIMARY KEY USING INDEX " ++ n
  | Commit => "COMMIT"
  | DropIndex n => "DROP INDEX CONCURRENTLY " ++ n
  | IdxNamesQuery t =>
      "SELECT indexname FROM pg_indexes WHERE tablename = '" ++ t
        ++ "' ORDER BY indexname"
  end.

Arguments sql : simpl never.

(** The statements that [dbquery] is asked to run also in dry-run mode
    (its callers pass [ondryrun=True]): the catalog lookups. *)
Definition is_lookup (q : stmt) : bool :=
  match q with
  | IdxInfoQuery _ | IdxCreateNewQuery _ | IdxValidQuery _
  | IdxSizeBeforeQuery _ | IdxNamesQuery _ => true
  | _ => false
  end.

(** The statements that change the database or the session. *)
Definition is_mutation (q : stmt) : bool :=
  match q with
  | SetStatementTimeout _ | DropIndexIfExists _ | CreateNew _ | Analyse _
  | Begin | DropConstraint _ _ | RenameIndex _ _ | AddPrimaryKey _ _
  | Commit | DropIndex _ => true
  | _ => false
  end.

(** ** What the outside answers *)

(** How [cur.execute] ends, by the [except] clause of [dbquery] that
    would catch it. *)
Inductive exec_outcome : Type :=
| ExecOk
| QueryCanceledError
| DatabaseError (err : string)
| OtherError (exc : string).

(** How [cur.fetchall] ends: the rows of the last result, or an
    exception of its own (psycopg2 raises when there is no result). *)
Inductive fetch_outcome : Type :=
| FetchRows (rows : list row)
| FetchRaises.

(** Exceptions that leave the engine. *)
Inductive exn : Type :=
| Reraised (exc : string)   (* the bare [raise] of [dbquery] *)
| FetchallError             (* raised by [cur.fetchall] *)
| IndexError                (* [l[i]] out of range *)
| TypeError                 (* [+] on operands of the wrong type *)
| ValueError                (* [int] of a double that is not a number *)
| OverflowError.            (* [int] of an infinite double, [float] of an
                               integer beyond the doubles *)

(** [int(x)] for a double: truncation toward zero; a double that is
    not a number, or is infinite, has no integer. *)
Definition py_int (x : float) : Z + exn :=
  match Prim2SF x with
  | S754_zero _ => inl 0
  | S754_finite s m e =>
      let a := Z.shiftl (Z.pos m) e in
      inl (if s then - a else a)
  | S754_infinity _ => inr OverflowError
  | S754_nan => inr ValueError
  end.

(** [float(z)] where an integer meets a double in arithmetic: the
    double nearest to [z], the even one of two that are as near. *)
Definition float_of_int (z : Z) : float + exn :=
  if float_overflows z then inr OverflowError
  else inl (SF2Prim (binary_normalize prec emax z 0 false)).

(** Line 154: [halt_time = start_time + (args.run_min * 60)], a product
    of integers added to a double. *)
Definition compute_halt_time (start_time : float) (run_min : Z)
  : float + exn :=
  match float_of_int (run_min * 60) with
  | inl secs => inl (start_time + secs)%float
  | inr e => inr e
  end.


Inductive event : Type :=
| EvClock (now : float)             (* [time.time()] returned [now] *)
| EvExec (q : stmt)                 (* [cur.execute(sql q)] *)
| EvFetch (r : fetch_outcome)       (* [cur.fetchall()] *)
| EvSleep (secs : Z)                (* [time.sleep(secs)] *)
| EvPrint (mode msg : string)       (* [_print(msg, mode)] *)
| EvDryRun (q : stmt).              (* [_print("SQL: " + sql q, "DRY-RUN")] *)

(** The statement handed to [dbquery], whether it was run or printed. *)
Definition issued (e : event) : option stmt :=
  match e with
  | EvExec q | EvDryRun q => Some q
  | _ => None
  end.

Fixpoint stmts (evs : list event) : list stmt :=
  match evs with
  | [] => []
  | e :: evs' =>
      match issued e with
      | Some q => q :: stmts evs'
      | None => stmts evs'
      end
  end.

(** ** Configuration and run state *)

(** The parsed arguments that the engine reads, the ignore list and the
    deadline [halt_time], the double that line 154 has computed from the
    start time and the minutes to run. *)
Record Config : Type := MkConfig {
  dryrun : bool;
  enforcetime : bool;
  retries : Z;
  pause_time : Z;
  run_min : Z;
  ignorelist : list string;
  halt_time : float
}.

(** The module-level counters. *)
Record Globals : Type := MkGlobals {
  time_exit : bool;
  tabcount : Z;
  idxcount : Z;
  idxcount_success : Z;
  idxcount_ignored : Z;
  idxcount_retries : Z;
  idxcount_notfound : Z;
  total_idx_size_before : Z;
  total_idx_size_after : Z
}.

Definition globals0 : Globals := MkGlobals false 0 0 0 0 0 0 0 0.

(** [s.split(',')]: the pieces of [s] between its commas; text without
    a comma, the empty text included, is one piece. *)
Fixpoint split_comma (s : string) : list string :=
  match s with
  | EmptyString => [EmptyString]
  | String c s' =>
      if Ascii.eqb c "," then EmptyString :: split_comma s'
      else
        match split_comma s' with
        | piece :: pieces => String c piece :: pieces
        | [] => [String c EmptyString]
        end
  end.

(** Lines 175, 178 and 181: [arg.split(',') if arg is not None else []],
    which gives [tablelist], [indexlist] and [ignorelist]. *)
Definition csv_to_array (arg : option string) : list string :=
  match arg with
  | Some s => split_comma s
  | None => []
  end.

(** Text without a comma. *)
Fixpoint comma_free (s : string) : bool :=
  match s with
  | EmptyString => true
  | String c s' => negb (Ascii.eqb c ",") && comma_free s'
  end.

(** Lines 393-398: the line that tells how the run ended. *)
Definition completion_message (cfg : Config) (g : Globals) : string :=
  if Z.eqb (idxcount g) 0 then "No indexes were found to reindex"
  else if time_exit g then
    "Reindexing interrupted early (configured timeout "
      ++ string_of_Z (run_min cfg) ++ "min)"
  else "All indexes/tables reindexed".

Record St (World : Type) : Type := MkSt {
  world : World;
  globals : Globals
}.
Arguments MkSt {World}.
Arguments world {World}.
Arguments globals {World}.

(** The outcome of running a piece of the script from a state. *)
Record Run (World A : Type) : Type := MkRun {
  events : list event;
  final : St World;
  result : A + exn
}.
Arguments MkRun {World A}.
Arguments events {World A}.
Arguments final {World A}.
Arguments result {World A}.

(** How one pass through the retry loop ended: [break] after a swap,
    [continue] after a clean-up, [break] at the deadline. *)
Inductive AttemptOutcome : Type := Valid | Invalid | TimedOut.

(** What [process_index] has resolved by the time it enters its loop. *)
Record TargetIndex : Type := MkTarget {
  idx_name : value;
  table : value;
  is_pk : value;
  idx_name_new : string;
  idx_create_new : value
}.

(** ** A small database to run the engine against

    One table [t] with one index [idx], and room for the replacement
    [idx_new].  The clock is a script of readings; builds end valid or
    invalid as scripted; chosen statements can be made to fail. *)

Module MiniPg.

Record pg : Type := MkPg {
  clock : list float;                    (* the next readings of the clock *)
  primary : bool;                        (* does [idx] back the primary key *)
  replacement : option bool;             (* [idx_new], with its validity flag *)
  builds : list bool;                    (* validity of the next builds *)
  faults : list (string * exec_outcome); (* statements that fail, and how *)
  cursor : fetch_outcome                 (* what [fetchall] would return *)
}.

Definition indexdef : string :=
  "CREATE INDEX idx ON public.t USING btree (c)".
Definition indexdef_new : string :=
  "CREATE INDEX CONCURRENTLY idx_new ON public.t USING btree (c)".

Definition with_cursor (c : fetch_outcome) (w : pg) : pg :=
  MkPg (clock w) (primary w) (replacement w) (builds w) (faults w) c.

Definition with_replacement (r : option bool) (w : pg) : pg :=
  MkPg (clock w) (primary w) r (builds w) (faults w) FetchRaises.

Definition build (w : pg) : pg :=
  match builds w with
  | [] => MkPg (clock w) (primary w) (Some true) [] (faults w) FetchRaises
  | v :: vs => MkPg (clock w) (primary w) (Some v) vs (faults w) FetchRaises
  end.

Fixpoint fault_of (q : string) (l : list (string * exec_outcome))
  : option exec_outcome :=
  match l with
  | [] => None
  | (q', o) :: l' => if String.eqb q q' then Some o else fault_of q l'
  end.

(** The lookups of the script start with SELECT, some of them after a
    line break and indentation. *)
Definition is_select (q : string) : bool :=
  String.prefix "SELECT" q
  || String.prefix "
        SELECT" q
  || String.prefix "
            SELECT" q.

(** A lookup about anything but [t], [idx] and [idx_new] finds no row;
    a statement that is not one of the script's is refused. *)
Definition answer (q : string) (w : pg) : exec_outcome * pg :=
  if String.eqb q (sql (IdxInfoQuery "idx")) then
    (ExecOk, with_cursor (FetchRows [[VStr "t"; VBool (primary w)]]) w)
  else if String.eqb q (sql (IdxCreateNewQuery "idx")) then
    (ExecOk, with_cursor (FetchRows [[VStr indexdef; VStr indexdef_new]]) w)
  else if String.eqb q (sql (IdxNamesQuery "t")) then
    (ExecOk, with_cursor (FetchRows [[VStr "idx"]]) w)
  else if String.eqb q (sql (IdxValidQuery "idx_new")) then
    (ExecOk,
     with_cursor
       (FetchRows match replacement w with
                  | Some v => [[VStr "idx_new"; VBool v]]
                  | None => []
                  end) w)
  else if String.eqb q (sql (IdxSizeBeforeQuery "idx")) then
    (ExecOk, with_cursor (FetchRows [[VInt 8192]]) w)
  else if String.eqb q (sql (IdxSizeAfterQuery "idx_new")) then
    (ExecOk, with_cursor (FetchRows [[VInt 4096]]) w)
  else if String.eqb q indexdef_new then
    (ExecOk, build w)
  else if String.eqb q (sql (DropIndexIfExists "idx_new"))
       || String.eqb q (sql (DropIndex "idx_new"))
       || String.eqb q (sql (RenameIndex "idx_new" "idx")) then
    (ExecOk, with_replacement None w)
  else if String.eqb q (sql (Analyse "t"))
       || String.eqb q (sql Begin)
       || String.eqb q (sql Commit)
       || String.eqb q (sql (DropConstraint "t" "idx"))
       || String.eqb q (sql (AddPrimaryKey "t" "idx"))
       || String.eqb q (sql (DropIndex "idx"))
       || String.prefix "SET statement_timeout = '" q then
    (ExecOk, with_cursor FetchRaises w)
  else if is_select q then
    (ExecOk, with_cursor (FetchRows []) w)
  else
    (DatabaseError "syntax error", with_cursor FetchRaises w).

Definition execute (q : string) (w : pg) : exec_outcome * pg :=
  match fault_of q (faults w) with
  | Some o => (o, with_cursor FetchRaises w)
  | None => answer q w
  end.

(** The invalid replacements present in the catalog. *)
Definition stale_replacements (w : pg) : nat :=
  match replacement w with
  | Some false => 1
  | _ => 0
  end.

(** A result is handed out once; asking again yields no rows. *)
Definition fetchall (w : pg) : fetch_outcome * pg :=
  match cursor w with
  | FetchRows rows => (FetchRows rows, with_cursor (FetchRows []) w)
  | FetchRaises => (FetchRaises, w)
  end.

Definition time (w : pg) : float * pg :=
  match clock w with
  | [] => (0%float, w)
  | now :: later =>
      (now, MkPg later (primary w) (replacement w) (builds w) (faults w)
              (cursor w))
  end.

Definition sleep (secs : Z) (w : pg) : pg := w.

(** The sizes of the small database are formatted without ado. *)
Definition formats (n : Z) : option exn := None.

(** The database before a run: no replacement, nothing fetched. *)
Definition db (clock : list float) (primary : bool) (builds : list bool)
  (faults : list (string * exec_outcome)) : St pg :=
  MkSt (MkPg clock primary None builds faults FetchRaises) globals0.

(** The defaults of the script: two retries, a pause of five seconds,
    two hours of run time; the run started at time 0. *)
Definition defaults : Config := MkConfig false false 2 5 120 [] 7200%float.


Definition with_dryrun (c : Config) : Config :=
  MkConfig true (enforcetime c) (retries c) (pause_time c) (run_min c)
    (ignorelist c) (halt_time c).



(** The index [idx] of table [t] as [process_index] resolves it. *)
Definition idx_target (primary : bool) : TargetIndex :=
  MkTarget (VStr "idx") (VStr "t") (VBool primary) "idx_new"
    (VStr indexdef_new).

End MiniPg.

(** ** The engine *)

Section Engine.

(** The outside world: the clock, the cursor, and how they answer. *)
Variable World : Type.
Variable env_time : World -> float * World.
Variable env_execute : string -> World -> exec_outcome * World.
Variable env_fetchall : World -> fetch_outcome * World.
Variable env_sleep : Z -> World -> World.

(** [humanfriendly.format_size(n, True)] is the library's: of its
    answer only the exception it may raise matters here. *)
Variable env_format_size : Z -> option exn.

Variable cfg : Config.

(** *** State, exceptions and the record of events *)

(** A piece of the script: from a state to the run it makes. *)
Definition M (A : Type) : Type := St World -> Run World A.

Definition ret {A : Type} (a : A) : M A :=
  fun s => MkRun [] s (inl a).

Definition raise {A : Type} (e : exn) : M A :=
  fun s => MkRun [] s (inr e).

(** [m] and then [f]; an exception raised by [m] ends the run there. *)
Definition bind {A B : Type} (m : M A) (f : A -> M B) : M B :=
  fun s =>
    let r := m s in
    match result r with
    | inl a =>
        let r' := f a (final r) in
        MkRun (events r ++ events r') (final r') (result r')
    | inr e => MkRun (events r) (final r) (inr e)
    end.

Notation "x <- m ;; k" := (bind m (fun x => k))
  (at level 61, m at next level, right associativity).
Notation "m ;; k" := (bind m (fun _ => k))
  (at level 61, right associativity).

(** [time.time()]. *)
Definition time_time : M float :=
  fun s =>
    let a := env_time (world s) in
    MkRun [EvClock (fst a)] (MkSt (snd a) (globals s)) (inl (fst a)).

(** [time.sleep(secs)]. *)
Definition time_sleep (secs : Z) : M unit :=
  fun s =>
    MkRun [EvSleep secs] (MkSt (env_sleep secs (world s)) (globals s)) (inl tt).

(** [cur.execute(sql q)], with the way it ended as its value. *)
Definition cur_execute (q : stmt) : M exec_outcome :=
  fun s =>
    let a := env_execute (sql q) (world s) in
    MkRun [EvExec q] (MkSt (snd a) (globals s)) (inl (fst a)).

(** [cur.fetchall()]. *)
Definition cur_fetchall : M (list row) :=
  fun s =>
    let a := env_fetchall (world s) in
    MkRun [EvFetch (fst a)] (MkSt (snd a) (globals s))
      (match fst a with
       | FetchRows rows => inl rows
       | FetchRaises => inr FetchallError
       end).

(** [_print(msg, mode)]: a line on standard output. *)
Definition _print (msg mode : string) : M unit :=
  fun s => MkRun [EvPrint mode msg] s (inl tt).

(** [_print("SQL: " + sql q, "DRY-RUN")]: the line that stands for a
    statement in dry-run mode. *)
Definition _print_dryrun (q : stmt) : M unit :=
  fun s => MkRun [EvDryRun q] s (inl tt).

(** An assignment to the globals. *)
Definition update (f : Globals -> Globals) : M unit :=
  fun s => MkRun [] (MkSt (world s) (f (globals s))) (inl tt).

(** [l[i]]. *)
Definition getitem {A : Type} (l : list A) (i : nat) : M A :=
  match nth_error l i with
  | Some x => ret x
  | None => raise IndexError
  end.

(** [cur.fetchall()[0][i]], as written at lines 259, 282, 290 and 295:
    the first row is taken without a look at how many rows came back. *)
Definition first_row (i : nat) : M value :=
  rows <- cur_fetchall ;;
  r <- getitem rows 0 ;;
  getitem r i.

(** The assignments to the globals. *)
Definition set_time_exit (g : Globals) : Globals :=
  MkGlobals true (tabcount g) (idxcount g) (idxcount_success g)
    (idxcount_ignored g) (idxcount_retries g) (idxcount_notfound g)
    (total_idx_size_before g) (total_idx_size_after g).

Definition incr_tabcount (g : Globals) : Globals :=
  MkGlobals (time_exit g) (tabcount g + 1) (idxcount g) (idxcount_success g)
    (idxcount_ignored g) (idxcount_retries g) (idxcount_notfound g)
    (total_idx_size_before g) (total_idx_size_after g).

Definition incr_idxcount (g : Globals) : Globals :=
  MkGlobals (time_exit g) (tabcount g) (idxcount g + 1) (idxcount_success g)
    (idxcount_ignored g) (idxcount_retries g) (idxcount_notfound g)
    (total_idx_size_before g) (total_idx_size_after g).

Definition incr_success (g : Globals) : Globals :=
  MkGlobals (time_exit g) (tabcount g) (idxcount g) (idxcount_success g + 1)
    (idxcount_ignored g) (idxcount_retries g) (idxcount_notfound g)
    (total_idx_size_before g) (total_idx_size_after g).

Definition incr_ignored (g : Globals) : Globals :=
  MkGlobals (time_exit g) (tabcount g) (idxcount g) (idxcount_success g)
    (idxcount_ignored g + 1) (idxcount_retries g) (idxcount_notfound g)
    (total_idx_size_before g) (total_idx_size_after g).

Definition incr_retries (g : Globals) : Globals :=
  MkGlobals (time_exit g) (tabcount g) (idxcount g) (idxcount_success g)
    (idxcount_ignored g) (idxcount_retries g + 1) (idxcount_notfound g)
    (total_idx_size_before g) (total_idx_size_after g).

Definition incr_notfound (g : Globals) : Globals :=
  MkGlobals (time_exit g) (tabcount g) (idxcount g) (idxcount_success g)
    (idxcount_ignored g) (idxcount_retries g) (idxcount_notfound g + 1)
    (total_idx_size_before g) (total_idx_size_after g).

Definition set_size_before (n : Z) (g : Globals) : Globals :=
  MkGlobals (time_exit g) (tabcount g) (idxcount g) (idxcount_success g)
    (idxcount_ignored g) (idxcount_retries g) (idxcount_notfound g)
    n (total_idx_size_after g).

Definition set_size_after (n : Z) (g : Globals) : Globals :=
  MkGlobals (time_exit g) (tabcount g) (idxcount g) (idxcount_success g)
    (idxcount_ignored g) (idxcount_retries g) (idxcount_notfound g)
    (total_idx_size_before g) n.

(** [total_idx_size_before += v]. *)
Definition add_size_before (v : value) : M unit :=
  fun s =>
    match py_add_int (total_idx_size_before (globals s)) v with
    | Some n => update (set_size_before n) s
    | None => raise TypeError s
    end.

(** [total_idx_size_after += v]. *)
Definition add_size_after (v : value) : M unit :=
  fun s =>
    match py_add_int (total_idx_size_after (globals s)) v with
    | Some n => update (set_size_after n) s
    | None => raise TypeError s
    end.

(** *** The statement executor (lines 128-141) *)

Definition dbquery (q : stmt) (ondryrun : bool) : M unit :=
  if negb (dryrun cfg) || ondryrun then
    o <- cur_execute q ;;
    match o with
    | ExecOk => ret tt
    | QueryCanceledError =>
        _print "Query cancelled due to enforced timeout" "NOTE   "
    | DatabaseError err =>
        _print ("DB query error: " ++ err) "ERROR  "
    | OtherError exc =>
        _print ("Unexpected error executing query: " ++ exc) "INFO   " ;;
        raise (Reraised exc)
    end
  else
    _print_dryrun q.

Arguments dbquery : simpl never.

(** *** The deadline check (lines 208-211, 263-266 and 341-344)

    [if time.time() >= halt_time: time_exit = True]; the caller returns
    or breaks when the answer is [true]. *)
Definition deadline_reached : M bool :=
  now <- time_time ;;
  if PrimFloat.leb (halt_time cfg) now then
    update set_time_exit ;; ret true
  else
    ret false.

(** *** One index *)

(** [if (args.pause_time > 0): time.sleep(args.pause_time)]. *)
Definition pause : M unit :=
  if 0 <? pause_time cfg then time_sleep (pause_time cfg) else ret tt.

(** Lines 300-314: the swap, by primary-key membership, and the final
    statistics refresh. *)
Definition swap (t : TargetIndex) : M unit :=
  (if py_truthy (is_pk t) then
     dbquery (Analyse (py_str (table t))) false ;;
     dbquery Begin false ;;
     dbquery (DropConstraint (py_str (table t)) (py_str (idx_name t))) false ;;
     dbquery (RenameIndex (idx_name_new t) (py_str (idx_name t))) false ;;
     dbquery (AddPrimaryKey (py_str (table t)) (py_str (idx_name t))) false ;;
     dbquery Commit false
   else
     dbquery (Analyse (py_str (table t))) false ;;
     dbquery (DropIndex (py_str (idx_name t))) false ;;
     dbquery (RenameIndex (idx_name_new t) (py_str (idx_name t))) false) ;;
  dbquery (Analyse (py_str (table t))) false.

(** Lines 270-282: the defensive drop, the build, and the validity
    check.  [dbquery] concatenates its argument to a string before
    anything else, which fails unless the build text is a string. *)
Definition build_and_validate (t : TargetIndex) : M value :=
  dbquery (DropIndexIfExists (idx_name_new t)) false ;;
  match idx_create_new t with
  | VStr text => dbquery (CreateNew text) false
  | _ => raise TypeError
  end ;;
  dbquery (IdxValidQuery (idx_name_new t)) true ;;
  if dryrun cfg then ret (VBool true) else first_row 1.

(** Lines 287-296: the sizes before and after, added to the totals. *)
Definition record_sizes (t : TargetIndex) : M (value * value) :=
  dbquery (IdxSizeBeforeQuery (py_str (idx_name t))) true ;;
  idx_size_before <- first_row 0 ;;
  add_size_before idx_size_before ;;
  dbquery (IdxSizeAfterQuery (idx_name_new t)) false ;;
  idx_size_after <-
    (if negb (dryrun cfg) then first_row 0 else ret idx_size_before) ;;
  add_size_after idx_size_after ;;
  ret (idx_size_before, idx_size_after).

(** [humanfriendly.format_size(n, True)], for the exception. *)
Definition format_size (n : Z) : M unit :=
  match env_format_size n with
  | Some e => raise e
  | None => ret tt
  end.

(** [float(z)], for the exception. *)
Definition py_float (z : Z) : M unit :=
  if float_overflows z then raise OverflowError else ret tt.

(** Lines 84-91, called at line 298 whatever [--verbose] says.  The
    text it builds only reaches [verbose_print]; what the engine can
    see of the call is the exception that ends it, if any.  The five
    values to format are computed from left to right: the quotients
    only for a divisor that is not 0, so that no division fails, and
    an overflow of a quotient or of a product of doubles is no error.
    The sizes have gone through [+=] before, so they are integers or
    booleans. *)
Definition index_bloat_stats (size_before size_after : value) : M unit :=
  match as_int size_before, as_int size_after with
  | Some before, Some after =>
      format_size before ;;
      format_size after ;;
      (if after =? 0 then ret tt
       else py_float before ;; py_float after) ;;
      format_size (before - after) ;;
      (if before =? 0 then ret tt
       else py_float after ;; py_float before)
  | _, _ => raise TypeError
  end.

(** Lines 284-321: the branch taken when the replacement is valid. *)
Definition on_valid (t : TargetIndex) : M unit :=
  sizes <- record_sizes t ;;
  index_bloat_stats (fst sizes) (snd sizes) ;;
  swap t ;;
  pause ;;
  update incr_success.

(** Lines 322-334: the branch taken when the replacement is invalid. *)
Definition on_invalid (t : TargetIndex) : M unit :=
  dbquery (DropIndex (idx_name_new t)) false ;;
  pause ;;
  update incr_retries.

(** Lines 263-334: the body of the retry loop. *)
Definition attempt_body (t : TargetIndex) (attempt : Z) : M AttemptOutcome :=
  expired <- deadline_reached ;;
  if expired then ret TimedOut
  else
    idx_valid <- build_and_validate t ;;
    if py_truthy idx_valid then
      on_valid t ;; ret Valid
    else
      on_invalid t ;; ret Invalid.

(** Line 261: [for attempt in range(1, args.retries + 1)], leaving the
    loop at the first pass that ends in [break].  The outcomes of the
    passes made are returned for the record. *)
Fixpoint retry_loop (t : TargetIndex) (attempts : list Z)
  : M (list AttemptOutcome) :=
  match attempts with
  | [] => ret []
  | attempt :: rest =>
      o <- attempt_body t attempt ;;
      match o with
      | Invalid => os <- retry_loop t rest ;; ret (o :: os)
      | Valid | TimedOut => ret [o]
      end
  end.

(** Lines 223-259: the statement timeout, the resolution of the index
    and the fetch of its definition.  [None] is the early [return] for
    an index that is not found. *)
Definition resolve (name : value) : M (option TargetIndex) :=
  (if enforcetime cfg then
     now <- time_time ;;
     match py_int (halt_time cfg - now)%float with
     | inl secs => dbquery (SetStatementTimeout (secs + 30)) false
     | inr e => raise e
     end
   else ret tt) ;;
  dbquery (IdxInfoQuery (py_str name)) true ;;
  idx_info <- cur_fetchall ;;
  if negb (Nat.eqb (List.length idx_info) 1) then
    _print "Index does not exist, omit" "WARN   " ;;
    update incr_notfound ;;
    ret None
  else
    r <- getitem idx_info 0 ;;
    tbl <- getitem r 0 ;;
    r' <- getitem idx_info 0 ;;
    pk <- getitem r' 1 ;;
    new <- match py_concat name "_new" with
           | Some n => ret n
           | None => raise TypeError
           end ;;
    dbquery (IdxCreateNewQuery (py_str name)) true ;;
    def <- first_row 1 ;;
    ret (Some (MkTarget name tbl pk new def)).

(** Lines 198-334.  The script's function returns nothing; here it
    returns the outcomes of the passes its loop made, none when it
    returned before the loop. *)
Definition process_index (name : value) : M (list AttemptOutcome) :=
  expired <- deadline_reached ;;
  if expired then ret []
  else
    _print ("Working on index " ++ py_str name) "INFO   " ;;
    update incr_idxcount ;;
    if py_in name (ignorelist cfg) then
      _print "Skipping (index in 'ignore-indexes' list)" "INFO   " ;;
      update incr_ignored ;;
      ret []
    else
      t <- resolve name ;;
      match t with
      | None => ret []
      | Some t => retry_loop t (py_range 1 (retries cfg + 1))
      end.

(** Lines 356-357 and 375-376: [for idx in ...: process_index(...)]. *)
Fixpoint for_each {A : Type} (body : A -> M unit) (l : list A) : M unit :=
  match l with
  | [] => ret tt
  | x :: l' => body x ;; for_each body l'
  end.

(** Lines 337-357. *)
Definition process_table (tbl : string) : M unit :=
  expired <- deadline_reached ;;
  if expired then ret tt
  else
    _print ("Working on table " ++ tbl) "INFO   " ;;
    update incr_tabcount ;;
    dbquery (IdxNamesQuery tbl) true ;;
    idx_names <- cur_fetchall ;;
    for_each (fun idx => name <- getitem idx 0 ;; process_index name ;; ret tt)
             idx_names.

(** Lines 374-380: the explicit indexes, then the tables. *)
Definition run_all (indexlist tablelist : list string) : M unit :=
  for_each (fun idx => process_index (VStr idx) ;; ret tt) indexlist ;;
  for_each process_table tablelist.

(** *** The statements and counters the properties speak of *)

Local Open Scope list_scope.

(** The statements handed to [cur.execute]. *)
Fixpoint executed (evs : list event) : list stmt :=
  match evs with
  | [] => []
  | EvExec q :: evs' => q :: executed evs'
  | _ :: evs' => executed evs'
  end.

(** The statements printed in place of being run. *)
Fixpoint printed (evs : list event) : list stmt :=
  match evs with
  | [] => []
  | EvDryRun q :: evs' => q :: printed evs'
  | _ :: evs' => printed evs'
  end.

(** The statements of lines 270, 272 and 281. *)
Definition build_statements (t : TargetIndex) : list stmt :=
  [DropIndexIfExists (idx_name_new t);
   CreateNew (py_str (idx_create_new t));
   IdxValidQuery (idx_name_new t)].

(** The statements of lines 289 and 294. *)
Definition size_statements (t : TargetIndex) : list stmt :=
  [IdxSizeBeforeQuery (py_str (idx_name t));
   IdxSizeAfterQuery (idx_name_new t)].

(** The swap of a primary-key index: the statistics refresh, the
    transaction with its three steps, the final statistics refresh. *)
Definition pk_swap_statements (t : TargetIndex) : list stmt :=
  [Analyse (py_str (table t));
   Begin;
   DropConstraint (py_str (table t)) (py_str (idx_name t));
   RenameIndex (idx_name_new t) (py_str (idx_name t));
   AddPrimaryKey (py_str (table t)) (py_str (idx_name t));
   Commit;
   Analyse (py_str (table t))].

(** The swap of any other index. *)
Definition plain_swap_statements (t : TargetIndex) : list stmt :=
  [Analyse (py_str (table t));
   DropIndex (py_str (idx_name t));
   RenameIndex (idx_name_new t) (py_str (idx_name t));
   Analyse (py_str (table t))].

Definition swap_statements (t : TargetIndex) : list stmt :=
  if py_truthy (is_pk t) then pk_swap_statements t
  else plain_swap_statements t.

(** What a pass that ends with a valid replacement issues. *)
Definition valid_attempt_statements (t : TargetIndex) : list stmt :=
  build_statements t ++ size_statements t ++ swap_statements t.

(** What a pass that ends with an invalid replacement issues. *)
Definition invalid_attempt_statements (t : TargetIndex) : list stmt :=
  build_statements t ++ [DropIndex (idx_name_new t)].

Definition is_build (q : stmt) : bool :=
  match q with CreateNew _ => true | _ => false end.

Definition is_rename (q : stmt) : bool :=
  match q with RenameIndex _ _ => true | _ => false end.

(** The statements of the two swap protocols for the target [t]. *)
Definition is_swap_statement (t : TargetIndex) (q : stmt) : bool :=
  match q with
  | Analyse _ | Begin | DropConstraint _ _ | RenameIndex _ _
  | AddPrimaryKey _ _ | Commit => true
  | DropIndex n => String.eqb n (py_str (idx_name t))
  | _ => false
  end.

Definition is_clock (e : event) : bool :=
  match e with EvClock _ => true | _ => false end.

(** The statements of one pass, by the way it ended. *)
Definition attempt_statements (t : TargetIndex) (o : AttemptOutcome)
  : list stmt :=
  match o with
  | Valid => valid_attempt_statements t
  | Invalid => invalid_attempt_statements t
  | TimedOut => []
  end.

Definition successes (outs : list AttemptOutcome) : Z :=
  fold_right (fun o n => match o with Valid => 1 + n | _ => n end) 0 outs.

Definition failures (outs : list AttemptOutcome) : Z :=
  fold_right (fun o n => match o with Invalid => 1 + n | _ => n end) 0 outs.

(** The outcomes a loop over [n] attempt numbers can yield: clean-ups
    only, all [n] of them, or fewer clean-ups and then the pass that
    left the loop. *)
Definition loop_outcomes (n : nat) (outs : list AttemptOutcome) : Prop :=
  outs = repeat Invalid n \/
  exists j o, outs = repeat Invalid j ++ [o] /\ o <> Invalid /\ (j < n)%nat.

(** The statement that sets the timeout, when time enforcement is on;
    the timeout is computed from the clock as read in world [w]. *)
Definition timeout_statements (w : World) : list stmt :=
  if enforcetime cfg then
    match py_int (halt_time cfg - fst (env_time w))%float with
    | inl secs => [SetStatementTimeout (secs + 30)]
    | inr _ => []
    end
  else [].

(** The lines printed in place of a statement in dry-run mode. *)
Definition is_dry_print (e : event) : bool :=
  match e with EvDryRun _ => true | _ => false end.

(** How many statements of [l] satisfy [p]. *)
Definition count (p : stmt -> bool) (l : list stmt) : nat :=
  List.length (filter p l).

(** The non-blocking drop of the index named [n]. *)
Definition is_drop_of (n : string) (q : stmt) : bool :=
  match q with
  | DropIndex m => String.eqb m n
  | _ => false
  end.

(** In dry-run mode a statement that reaches the database is a lookup,
    and a statement that is printed is not. *)
Definition dry_event_ok (e : event) : Prop :=
  match e with
  | EvExec q => is_lookup q = true
  | EvDryRun q => is_lookup q = false
  | _ => True
  end.

(** In dry-run mode no retry is counted, and the two size totals grow
    by the same amount. *)
Definition dry_globals_rel (g g' : Globals) : Prop :=
  idxcount_retries g' = idxcount_retries g /\
  total_idx_size_after g' - total_idx_size_after g
  = total_idx_size_before g' - total_idx_size_before g.

(** [issues m l ds dr]: whenever [m] returns normally, the statements
    it issued are [l], and it has added [ds] to the success counter and
    [dr] to the retry counter. *)
Definition issues {A : Type} (m : M A) (l : list stmt) (ds dr : Z) : Prop :=
  forall s a,
    result (m s) = inl a ->
    stmts (events (m s)) = l /\
    idxcount_success (globals (final (m s)))
    = idxcount_success (globals s) + ds /\
    idxcount_retries (globals (final (m s)))
    = idxcount_retries (globals s) + dr.

(** [sat P R m] says that every event of [m] satisfies [P] and that the
    globals before and after [m] are related by [R], whether [m]
    returns or raises. *)
Definition sat (P : event -> Prop) (R : Globals -> Globals -> Prop)
  {A : Type} (m : M A) : Prop :=
  forall s,
    Forall P (events (m s)) /\ R (globals s) (globals (final (m s))).

(** Nothing is taken back: a flag that is set stays set and no counter
    goes down. *)
Definition counters_grow (g g' : Globals) : Prop :=
  (time_exit g = true -> time_exit g' = true) /\
  tabcount g <= tabcount g' /\
  idxcount g <= idxcount g' /\
  idxcount_success g <= idxcount_success g' /\
  idxcount_ignored g <= idxcount_ignored g' /\
  idxcount_retries g <= idxcount_retries g' /\
  idxcount_notfound g <= idxcount_notfound g'.




(** [tracks b Q m] relates the events of every run of [m] to the
    globals before and after it by [Q]; with [b] set, only the runs
    that return are spoken of. *)
Definition tracks (b : bool)
  (Q : list event -> Globals -> Globals -> Prop)
  {A : Type} (m : M A) : Prop :=
  forall s,
    (b = true -> exists a, result (m s) = inl a) ->
    Q (events (m s)) (globals s) (globals (final (m s))).

(** The statements of the build part of a pass satisfy [A]. *)
Definition build_allowed (A : stmt -> Prop) (t : TargetIndex) : Prop :=
  forall q, In q (build_statements t) -> A q.

(** The statements of the rest of a pass satisfy [A]. *)
Definition rest_allowed (A : stmt -> Prop) (t : TargetIndex) : Prop :=
  forall q,
    In q (size_statements t ++ pk_swap_statements t
          ++ plain_swap_statements t ++ [DropIndex (idx_name_new t)]) ->
    A q.


(** A reading of the clock that has reached the deadline. *)
Definition is_late (e : event) : bool :=
  match e with
  | EvClock now => PrimFloat.leb (halt_time cfg) now
  | _ => false
  end.

(** The time-exit flag keeps its value, unless the clock was read late
    and the flag is set. *)
Definition exit_only_when_late (l : list event) (g g' : Globals) : Prop :=
  time_exit g' = time_exit g \/
  (existsb is_late l = true /\ time_exit g' = true).


(** The defensive drop of line 270. *)
Definition is_defensive_drop (q : stmt) : bool :=
  match q with DropIndexIfExists _ => true | _ => false end.

(** Every build of [l] comes directly after a defensive drop;
    [after_drop] says whether [l] itself comes directly after one. *)
Fixpoint builds_guarded (after_drop : bool) (l : list stmt) : bool :=
  match l with
  | [] => true
  | q :: l' =>
      (negb (is_build q) || after_drop)
      && builds_guarded (is_defensive_drop q) l'
  end.


(** The indexes whose work has been accounted for: rebuilt, ignored or
    not found. *)
Definition accounted (g : Globals) : Z :=
  idxcount_success g + idxcount_ignored g + idxcount_notfound g.

(** Neither the count of tables, nor the count of indexes, nor any of
    the counts of those accounted for has changed. *)
Definition steady (g g' : Globals) : Prop :=
  tabcount g' = tabcount g /\
  idxcount g' = idxcount g /\
  idxcount_success g' = idxcount_success g /\
  idxcount_ignored g' = idxcount_ignored g /\
  idxcount_notfound g' = idxcount_notfound g.

(** [ends m F]: the globals before a run of [m], the way the run ended
    and the globals after it are related by [F]. *)
Definition ends {X : Type} (m : M X)
  (F : Globals -> X + exn -> Globals -> Prop) : Prop :=
  forall s, F (globals s) (result (m s)) (globals (final (m s))).

(** The count of indexes is unchanged and at most one more index is
    accounted for. *)
Definition at_most_one (g g' : Globals) : Prop :=
  idxcount g' = idxcount g /\
  accounted g <= accounted g' <= accounted g + 1.


(** The count of indexes is unchanged, and [n x] more indexes are
    accounted for when the run returns [x], none when it raises. *)
Definition adds {X : Type} (n : X -> Z)
  : Globals -> X + exn -> Globals -> Prop :=
  fun g r g' =>
    idxcount g' = idxcount g /\
    accounted g' = accounted g + match r with inl x => n x | inr _ => 0 end.

(** No more indexes have been accounted for than have been counted. *)
Definition within_count (g g' : Globals) : Prop :=
  accounted g' - accounted g <= idxcount g' - idxcount g.


(** The statement of line 226. *)
Definition is_timeout (q : stmt) : bool :=
  match q with SetStatementTimeout _ => true | _ => false end.

(** The statements that the script can build for an index named [nm]
    of a table named [tbl] whose replacement is built by [def]: one
    instance of each template of lines 229-327, with [nm] and
    [nm ++ "_new"] in the places of the index and of its replacement
    (the replacement is dropped under two different templates). *)
Definition index_statements (nm tbl def : string) : list stmt :=
  [IdxInfoQuery nm; IdxCreateNewQuery nm;
   DropIndexIfExists (nm ++ "_new"); CreateNew def;
   IdxValidQuery (nm ++ "_new");
   IdxSizeBeforeQuery nm; IdxSizeAfterQuery (nm ++ "_new");
   Analyse tbl; Begin; DropConstraint tbl nm;
   RenameIndex (nm ++ "_new") nm; AddPrimaryKey tbl nm; Commit;
   DropIndex nm; DropIndex (nm ++ "_new")].

(** A statement of the work on the index [nm]: the setting of the
    statement timeout, or one of [index_statements]. *)
Definition own_statement (nm tbl def : string) (q : stmt) : Prop :=
  is_timeout q = true \/ In q (index_statements nm tbl def).


(** The calls of [time.sleep]. *)
Definition is_sleep (e : event) : bool :=
  match e with EvSleep _ => true | _ => false end.

(** A call of [time.sleep] is for the configured pause, which is
    positive. *)
Definition sleep_is_pause (e : event) : Prop :=
  match e with
  | EvSleep secs => secs = pause_time cfg /\ 0 < secs
  | _ => True
  end.

(** The passes of the retry loop that went all the way: those counted
    as a success and those counted as a retry. *)
Definition finished_passes (g : Globals) : Z :=
  idxcount_success g + idxcount_retries g.


(** *** The Python helpers on small inputs *)

Example sql_statement_timeout :
  sql (SetStatementTimeout 3629) = "SET statement_timeout = '3629s'"%string.
Proof. reflexivity. Qed.

Example py_int_truncates_toward_zero :
  py_int 3.5 = inl 3 /\ py_int (-3.5) = inl (-3) /\ py_int (-0.5) = inl 0 /\
  py_int 3599.5 = inl 3599 /\
  py_int nan = inr ValueError /\ py_int infinity = inr OverflowError.
Proof. repeat split. Qed.

Example compute_halt_time_of_defaults :
  compute_halt_time 0 120 = inl 7200%float /\
  compute_halt_time 0.3 1 = inl 60.3%float /\
  compute_halt_time 0 (2 ^ 1024) = inr OverflowError.
Proof. repeat split. Qed.

Example py_range_of_retries :
  py_range 1 (2 + 1) = [1; 2] /\ py_range 1 (0 + 1) = [].
Proof. split; reflexivity. Qed.

Example py_str_of_values :
  py_str (VInt (-42)) = "-42"%string /\ py_str VNone = "None"%string.
Proof. split; reflexivity. Qed.


(** *** Reasoning about runs *)

Lemma stmts_app (l1 l2 : list event) :
  stmts (l1 ++ l2) = stmts l1 ++ stmts l2.
Proof.
  induction l1 as [|e l1 IH]; simpl; [reflexivity|].
  destruct (issued e); simpl; now rewrite IH.
Qed.

Lemma bind_unfold {A B : Type} (m : M A) (f : A -> M B) (s : St World) :
  bind m f s =
  match result (m s) with
  | inl a =>
      MkRun (events (m s) ++ events (f a (final (m s))))
            (final (f a (final (m s)))) (result (f a (final (m s))))
  | inr e => MkRun (events (m s)) (final (m s)) (inr e)
  end.
Proof. reflexivity. Qed.

(** A sequence returns only if its first part does, and then it is the
    first part followed by the rest. *)
Lemma bind_inl {A B : Type} (m : M A) (f : A -> M B) (s : St World) (b : B) :
  result (bind m f s) = inl b ->
  exists a,
    result (m s) = inl a /\
    result (f a (final (m s))) = inl b /\
    events (bind m f s) = events (m s) ++ events (f a (final (m s))) /\
    final (bind m f s) = final (f a (final (m s))).
Proof.
  rewrite bind_unfold. destruct (result (m s)) as [a|e]; simpl.
  - intros H. exists a. auto.
  - discriminate.
Qed.

(** *** What the pieces do to the state and to the record *)

Lemma dbquery_sent (q : stmt) (ondryrun : bool) (s : St World) :
  negb (dryrun cfg) || ondryrun = true ->
  let a := env_execute (sql q) (world s) in
  let s' := MkSt (snd a) (globals s) in
  dbquery q ondryrun s =
  match fst a with
  | ExecOk => MkRun [EvExec q] s' (inl tt)
  | QueryCanceledError =>
      MkRun [EvExec q;
             EvPrint "NOTE   " "Query cancelled due to enforced timeout"]
            s' (inl tt)
  | DatabaseError err =>
      MkRun [EvExec q; EvPrint "ERROR  " ("DB query error: " ++ err)%string]
            s' (inl tt)
  | OtherError exc =>
      MkRun [EvExec q;
             EvPrint "INFO   "
               ("Unexpected error executing query: " ++ exc)%string]
            s' (inr (Reraised exc))
  end.
Proof.
  intros H a s'. subst a s'. unfold dbquery. rewrite H. rewrite bind_unfold.
  unfold cur_execute; simpl.
  destruct (fst (env_execute (sql q) (world s))); reflexivity.
Qed.

Lemma dbquery_printed (q : stmt) (ondryrun : bool) (s : St World) :
  negb (dryrun cfg) || ondryrun = false ->
  dbquery q ondryrun s = MkRun [EvDryRun q] s (inl tt).
Proof. intros H. unfold dbquery. now rewrite H. Qed.

(** [dbquery] is handed exactly one statement, however it ends. *)
Lemma dbquery_stmts (q : stmt) (ondryrun : bool) (s : St World) :
  stmts (events (dbquery q ondryrun s)) = [q].
Proof.
  destruct (negb (dryrun cfg) || ondryrun) eqn:E.
  - rewrite (dbquery_sent _ _ _ E). simpl.
    destruct (fst (env_execute (sql q) (world s))); reflexivity.
  - now rewrite (dbquery_printed _ _ _ E).
Qed.

Lemma dbquery_globals (q : stmt) (ondryrun : bool) (s : St World) :
  globals (final (dbquery q ondryrun s)) = globals s.
Proof.
  destruct (negb (dryrun cfg) || ondryrun) eqn:E.
  - rewrite (dbquery_sent _ _ _ E). simpl.
    destruct (fst (env_execute (sql q) (world s))); reflexivity.
  - now rewrite (dbquery_printed _ _ _ E).
Qed.

Lemma deadline_reached_true (s : St World) :
  PrimFloat.leb (halt_time cfg) (fst (env_time (world s))) = true ->
  deadline_reached s =
  MkRun [EvClock (fst (env_time (world s)))]
        (MkSt (snd (env_time (world s))) (set_time_exit (globals s)))
        (inl true).
Proof.
  intros H. unfold deadline_reached. rewrite bind_unfold.
  unfold time_time; simpl. rewrite H. reflexivity.
Qed.

Lemma deadline_reached_false (s : St World) :
  PrimFloat.leb (halt_time cfg) (fst (env_time (world s))) = false ->
  deadline_reached s =
  MkRun [EvClock (fst (env_time (world s)))]
        (MkSt (snd (env_time (world s))) (globals s))
        (inl false).
Proof.
  intros H. unfold deadline_reached. rewrite bind_unfold.
  unfold time_time; simpl. rewrite H. reflexivity.
Qed.

(** The call of [index_bloat_stats] talks to nobody and changes
    nothing: it returns or raises. *)
Lemma index_bloat_stats_quiet (size_before size_after : value) (s : St World) :
  events (index_bloat_stats size_before size_after s) = [] /\
  final (index_bloat_stats size_before size_after s) = s.
Proof.
  assert (Hb : forall (X Y : Type) (m : M X) (f : X -> M Y),
             (forall s0, events (m s0) = [] /\ final (m s0) = s0) ->
             (forall x s0, events (f x s0) = [] /\ final (f x s0) = s0) ->
             forall s0, events (bind m f s0) = [] /\ final (bind m f s0) = s0).
  { intros X Y m f Hm Hf s0. rewrite bind_unfold.
    destruct (Hm s0) as (Em & Fm).
    destruct (result (m s0)) as [x|e]; cbn [events final]; [|auto].
    destruct (Hf x (final (m s0))) as (Ef & Ff).
    rewrite Em, Ef, Ff, Fm. auto. }
  assert (Hf : forall n s0,
             events (format_size n s0) = [] /\ final (format_size n s0) = s0).
  { intros n s0. unfold format_size.
    destruct (env_format_size n); simpl; auto. }
  assert (Hp : forall z s0,
             events (py_float z s0) = [] /\ final (py_float z s0) = s0).
  { intros z s0. unfold py_float.
    destruct (float_overflows z); simpl; auto. }
  unfold index_bloat_stats.
  destruct (as_int size_before) as [before|];
    [destruct (as_int size_after) as [after|]|]; try (simpl; auto).
  revert s.
  repeat (apply Hb; [|intros _]); try apply Hf;
    match goal with
    | |- forall s0, events ((if ?c then _ else _) s0) = [] /\ _ =>
        destruct c; [intros s0; simpl; auto|];
        apply Hb; [apply Hp | intros _; apply Hp]
    end.
Qed.

(** *** Properties kept along a whole run

    The assumptions on [P] and [R] are those of the outside calls and
    of the assignments that the script makes. *)

Section Invariants.

Variable P : event -> Prop.
Variable R : Globals -> Globals -> Prop.

Hypothesis R_refl : forall g, R g g.
Hypothesis R_trans : forall g1 g2 g3, R g1 g2 -> R g2 g3 -> R g1 g3.

Hypothesis P_clock : forall now, P (EvClock now).
Hypothesis P_fetch : forall r, P (EvFetch r).
Hypothesis P_sleep : forall secs, P (EvSleep secs).
Hypothesis P_print : forall mode msg, P (EvPrint mode msg).
Hypothesis P_query :
  forall q,
    if negb (dryrun cfg) || is_lookup q then P (EvExec q) else P (EvDryRun q).

Hypothesis R_time_exit : forall g, R g (set_time_exit g).
Hypothesis R_tabcount : forall g, R g (incr_tabcount g).
Hypothesis R_idxcount : forall g, R g (incr_idxcount g).
Hypothesis R_success : forall g, R g (incr_success g).
Hypothesis R_ignored : forall g, R g (incr_ignored g).
Hypothesis R_retries : forall g, R g (incr_retries g).
Hypothesis R_notfound : forall g, R g (incr_notfound g).
Hypothesis R_size_before : forall n g, R g (set_size_before n g).
Hypothesis R_size_after : forall n g, R g (set_size_after n g).

Lemma sat_ret {A : Type} (a : A) : sat P R (ret a).
Proof. intros s. simpl. auto. Qed.

Lemma sat_raise {A : Type} (e : exn) : sat P R (@raise A e).
Proof. intros s. simpl. auto. Qed.

Lemma sat_bind {A B : Type} (m : M A) (f : A -> M B) :
  sat P R m -> (forall a, sat P R (f a)) -> sat P R (bind m f).
Proof.
  intros Hm Hf s. rewrite bind_unfold.
  destruct (Hm s) as [E1 G1].
  destruct (result (m s)) as [a|e]; simpl; [|auto].
  destruct (Hf a (final (m s))) as [E2 G2].
  split; [apply Forall_app; auto | eauto].
Qed.

Lemma sat_update (f : Globals -> Globals) :
  (forall g, R g (f g)) -> sat P R (update f).
Proof. intros H s. simpl. auto. Qed.

Lemma sat_print (msg mode : string) : sat P R (_print msg mode).
Proof. intros s. simpl. auto. Qed.

Lemma sat_time_time : sat P R time_time.
Proof. intros s. simpl. auto. Qed.

Lemma sat_time_sleep (secs : Z) : sat P R (time_sleep secs).
Proof. intros s. simpl. auto. Qed.

Lemma sat_cur_fetchall : sat P R cur_fetchall.
Proof. intros s. simpl. auto. Qed.

Lemma sat_getitem {A : Type} (l : list A) (i : nat) : sat P R (getitem l i).
Proof.
  unfold getitem. destruct (nth_error l i); [apply sat_ret | apply sat_raise].
Qed.

Lemma sat_dbquery (q : stmt) : sat P R (dbquery q (is_lookup q)).
Proof.
  intros s. specialize (P_query q).
  destruct (negb (dryrun cfg) || is_lookup q) eqn:E.
  - rewrite (dbquery_sent _ _ _ E). simpl.
    destruct (fst (env_execute (sql q) (world s))); simpl; auto.
  - rewrite (dbquery_printed _ _ _ E). simpl. auto.
Qed.

Ltac sat_step :=
  match goal with
  | |- sat P R (bind _ _) => apply sat_bind; [ | intros ? ]
  | |- sat P R (ret _) => apply sat_ret
  | |- sat P R (raise _) => apply sat_raise
  | |- sat P R (update _) => apply sat_update; assumption
  | |- sat P R (_print _ _) => apply sat_print
  | |- sat P R (getitem _ _) => apply sat_getitem
  | |- sat P R cur_fetchall => apply sat_cur_fetchall
  | |- sat P R (time_sleep _) => apply sat_time_sleep
  | |- sat P R (dbquery ?q _) => apply (sat_dbquery q)
  | |- sat P R (if ?b then _ else _) => destruct b
  | |- sat P R (match ?x with _ => _ end) => destruct x
  | H : _ |- _ => solve [apply H]
  end.

Lemma sat_first_row (i : nat) : sat P R (first_row i).
Proof. unfold first_row. repeat sat_step. Qed.

Lemma sat_pause : sat P R pause.
Proof. unfold pause. repeat sat_step. Qed.

Lemma sat_deadline_reached : sat P R deadline_reached.
Proof.
  unfold deadline_reached. apply sat_bind; [apply sat_time_time|].
  intros now. repeat sat_step.
Qed.

Lemma sat_swap (t : TargetIndex) : sat P R (swap t).
Proof. unfold swap. repeat sat_step. Qed.

Lemma sat_build_and_validate (t : TargetIndex) : sat P R (build_and_validate t).
Proof.
  unfold build_and_validate.
  repeat (apply sat_first_row || sat_step).
Qed.

Lemma sat_add_size_before (v : value) : sat P R (add_size_before v).
Proof.
  intros s. unfold add_size_before.
  destruct (py_add_int _ v); simpl; auto.
Qed.

Lemma sat_add_size_after (v : value) : sat P R (add_size_after v).
Proof.
  intros s. unfold add_size_after.
  destruct (py_add_int _ v); simpl; auto.
Qed.

Lemma sat_record_sizes (t : TargetIndex) : sat P R (record_sizes t).
Proof.
  unfold record_sizes.
  repeat (apply sat_first_row || apply sat_add_size_before
          || apply sat_add_size_after || sat_step).
Qed.

Lemma sat_index_bloat_stats (size_before size_after : value) :
  sat P R (index_bloat_stats size_before size_after).
Proof.
  intros s.
  destruct (index_bloat_stats_quiet size_before size_after s) as (-> & ->).
  auto.
Qed.

Lemma sat_on_valid (t : TargetIndex) : sat P R (on_valid t).
Proof.
  unfold on_valid.
  repeat (apply sat_record_sizes || apply sat_index_bloat_stats
          || apply sat_swap || apply sat_pause || sat_step).
Qed.

Lemma sat_on_invalid (t : TargetIndex) : sat P R (on_invalid t).
Proof. unfold on_invalid. repeat (apply sat_pause || sat_step). Qed.

Lemma sat_attempt_body (t : TargetIndex) (attempt : Z) :
  sat P R (attempt_body t attempt).
Proof.
  unfold attempt_body.
  repeat (apply sat_deadline_reached || apply sat_build_and_validate
          || apply sat_on_valid || apply sat_on_invalid || sat_step).
Qed.

(** From here on the passes of the loop are taken as given, so that a
    mode in which a pass keeps more than it does in general can be
    carried through the callers. *)
Hypothesis sat_attempt : forall t attempt, sat P R (attempt_body t attempt).

Lemma sat_retry_loop (t : TargetIndex) (attempts : list Z) :
  sat P R (retry_loop t attempts).
Proof.
  induction attempts as [|a rest IH]; simpl.
  - apply sat_ret.
  - apply sat_bind; [apply sat_attempt|].
    intros o. destruct o; repeat (apply IH || sat_step).
Qed.

Lemma sat_resolve (name : value) : sat P R (resolve name).
Proof.
  unfold resolve.
  repeat (apply sat_time_time || apply sat_first_row || sat_step).
Qed.

Lemma sat_process_index (name : value) : sat P R (process_index name).
Proof.
  unfold process_index.
  repeat (apply sat_deadline_reached || apply sat_resolve
          || apply sat_retry_loop || sat_step).
Qed.

Lemma sat_for_each {A : Type} (body : A -> M unit) (l : list A) :
  (forall x, sat P R (body x)) -> sat P R (for_each body l).
Proof.
  intros H. induction l as [|x l IH]; simpl.
  - apply sat_ret.
  - apply sat_bind; [apply H | intros _; apply IH].
Qed.

Lemma sat_process_table (tbl : string) : sat P R (process_table tbl).
Proof.
  unfold process_table.
  repeat (apply sat_deadline_reached || sat_step).
  apply sat_for_each. intros idx.
  repeat (apply sat_process_index || sat_step).
Qed.

Lemma sat_run_all (indexlist tablelist : list string) :
  sat P R (run_all indexlist tablelist).
Proof.
  unfold run_all. apply sat_bind.
  - apply sat_for_each. intros idx.
    repeat (apply sat_process_index || sat_step).
  - intros _. apply sat_for_each. apply sat_process_table.
Qed.

End Invariants.

(** *** Properties of the engine *)

(** C8.  A statement that is sent to the database ends in one of four
    ways.  A cancelled statement and a database error are reported and
    absorbed: [dbquery] returns normally, and only the world moves on as
    the database says.  Any other failure is reported and raised again,
    so it leaves [dbquery] as an exception. *)
Theorem dbquery_absorbs_cancel_and_database_error
  (q : stmt) (ondryrun : bool) (s : St World) :
  negb (dryrun cfg) || ondryrun = true ->
  let a := env_execute (sql q) (world s) in
  let s' := MkSt (snd a) (globals s) in
  (fst a = ExecOk ->
   dbquery q ondryrun s = MkRun [EvExec q] s' (inl tt)) /\
  (fst a = QueryCanceledError ->
   dbquery q ondryrun s =
   MkRun [EvExec q;
          EvPrint "NOTE   " "Query cancelled due to enforced timeout"]
         s' (inl tt)) /\
  (forall err, fst a = DatabaseError err ->
   dbquery q ondryrun s =
   MkRun [EvExec q; EvPrint "ERROR  " ("DB query error: " ++ err)%string]
         s' (inl tt)) /\
  (forall exc, fst a = OtherError exc ->
   dbquery q ondryrun s =
   MkRun [EvExec q;
          EvPrint "INFO   "
            ("Unexpected error executing query: " ++ exc)%string]
         s' (inr (Reraised exc))).
Proof.
  intros Hsent a s'. pose proof (dbquery_sent q ondryrun s Hsent) as H.
  cbv zeta in H. fold a in H. fold s' in H.
  repeat split; intros; rewrite H;
    match goal with E : fst a = _ |- _ => rewrite E end; reflexivity.
Qed.

(** Once every reading of the clock shows the deadline reached, the
    driver loops start nothing: each call returns at its deadline
    check. *)
Lemma run_all_past_deadline (indexlist tablelist : list string) (s : St World) :
  (forall w, PrimFloat.leb (halt_time cfg) (fst (env_time w)) = true) ->
  stmts (events (run_all indexlist tablelist s)) = [] /\
  result (run_all indexlist tablelist s) = inl tt /\
  (globals (final (run_all indexlist tablelist s)) = globals s \/
   globals (final (run_all indexlist tablelist s))
   = set_time_exit (globals s)).
Proof.
  intros Hpast.
  assert (Hloop : forall (A : Type) (body : A -> M unit),
             (forall x s',
                 exists w,
                   body x s'
                   = MkRun [EvClock (fst (env_time (world s')))]
                       (MkSt w (set_time_exit (globals s'))) (inl tt)) ->
             forall l s',
               stmts (events (for_each body l s')) = [] /\
               result (for_each body l s') = inl tt /\
               (globals (final (for_each body l s')) = globals s' \/
                globals (final (for_each body l s'))
                = set_time_exit (globals s'))).
  { intros A body Hbody l. induction l as [|x l IH]; intros s'.
    - simpl. auto.
    - simpl for_each. rewrite bind_unfold.
      destruct (Hbody x s') as (w & ->). cbn [result events final].
      destruct (IH (MkSt w (set_time_exit (globals s')))) as (E & Hr & G).
      rewrite stmts_app, E, Hr. cbn [globals] in G.
      split; [reflexivity | split; [reflexivity|]].
      right. destruct G as [-> | ->]; reflexivity. }
  unfold run_all. rewrite bind_unfold.
  match goal with
  | |- context [for_each ?b indexlist s] =>
      destruct (Hloop _ b) with (l := indexlist) (s' := s) as (E1 & R1 & G1)
  end.
  { intros x s'. eexists. rewrite bind_unfold. unfold process_index.
    rewrite bind_unfold, (deadline_reached_true s' (Hpast _)). reflexivity. }
  rewrite R1. cbn [result events final].
  match goal with
  | |- context [for_each process_table tablelist ?s1] =>
      destruct (Hloop _ process_table) with (l := tablelist) (s' := s1)
        as (E2 & R2 & G2)
  end.
  { intros x s'. eexists. unfold process_table.
    rewrite bind_unfold, (deadline_reached_true s' (Hpast _)). reflexivity. }
  rewrite stmts_app, E1, E2, R2.
  split; [reflexivity | split; [reflexivity|]].
  destruct G1 as [G1 | G1], G2 as [G2 | G2]; rewrite G2, G1; auto.
Qed.


(** After its deadline check, a pass of the retry loop never reads the
    clock again. *)
Lemma attempt_reads_clock_once (t : TargetIndex) (attempt : Z) (s : St World) :
  exists evs,
    events (attempt_body t attempt s)
    = EvClock (fst (env_time (world s))) :: evs /\
    Forall (fun e => is_clock e = false) evs.
Proof.
  assert (Hrest : forall k : value -> M AttemptOutcome,
             (forall v, sat (fun e => is_clock e = false) (fun _ _ => True)
                            (k v)) ->
             sat (fun e => is_clock e = false) (fun _ _ => True)
                 (bind (build_and_validate t) k)).
  { intros k Hk. apply sat_bind; auto.
    apply sat_build_and_validate; auto.
    intros q. destruct (negb (dryrun cfg) || is_lookup q); reflexivity. }
  unfold attempt_body. rewrite bind_unfold.
  destruct (PrimFloat.leb (halt_time cfg) (fst (env_time (world s)))) eqn:E.
  - rewrite (deadline_reached_true s E). simpl. eauto.
  - rewrite (deadline_reached_false s E). simpl.
    eexists; split; [reflexivity|].
    apply Hrest. intros v.
    assert (Hq : forall q, if negb (dryrun cfg) || is_lookup q
                           then is_clock (EvExec q) = false
                           else is_clock (EvDryRun q) = false).
    { intros q. destruct (negb (dryrun cfg) || is_lookup q); reflexivity. }
    destruct (py_truthy v);
      (apply sat_bind; [auto | | intros; apply sat_ret; auto]).
    + apply sat_on_valid; auto.
    + apply sat_on_invalid; auto.
Qed.

Lemma for_each_past_deadline {A : Type} (body : A -> M unit) :
  (forall x s',
      exists w,
        body x s'
        = MkRun [EvClock (fst (env_time (world s')))]
            (MkSt w (set_time_exit (globals s'))) (inl tt)) ->
  forall l s',
    globals (final (for_each body l s'))
    = match l with
      | [] => globals s'
      | _ :: _ => set_time_exit (globals s')
      end.
Proof.
  intros Hbody l. induction l as [|x l IH]; intros s'; [reflexivity|].
  simpl for_each. rewrite bind_unfold.
  destruct (Hbody x s') as (w & ->). cbn [result events final].
  rewrite IH. destruct l; reflexivity.
Qed.

(** With the clock past the deadline at every look, the driver loops
    set the flag as soon as there is a unit to start, and change
    nothing else. *)
Lemma run_all_late_globals (indexlist tablelist : list string) (s : St World) :
  (forall w, PrimFloat.leb (halt_time cfg) (fst (env_time w)) = true) ->
  globals (final (run_all indexlist tablelist s))
  = match indexlist, tablelist with
    | [], [] => globals s
    | _, _ => set_time_exit (globals s)
    end.
Proof.
  intros Hpast. unfold run_all.
  set (body := fun idx : string => process_index (VStr idx) ;; ret tt).
  rewrite bind_unfold.
  assert (Hi : forall x s',
             exists w,
               body x s'
               = MkRun [EvClock (fst (env_time (world s')))]
                   (MkSt w (set_time_exit (globals s'))) (inl tt)).
  { intros x s'. eexists. unfold body. rewrite bind_unfold.
    unfold process_index.
    rewrite bind_unfold, (deadline_reached_true s' (Hpast _)). reflexivity. }
  assert (Ht : forall x s',
             exists w,
               process_table x s'
               = MkRun [EvClock (fst (env_time (world s')))]
                   (MkSt w (set_time_exit (globals s'))) (inl tt)).
  { intros x s'. eexists. unfold process_table.
    rewrite bind_unfold, (deadline_reached_true s' (Hpast _)). reflexivity. }
  pose proof (for_each_past_deadline body Hi indexlist s) as G1.
  assert (R1 : exists u, result (for_each body indexlist s) = inl u).
  { clear -Hi. revert s. induction indexlist as [|x l IH]; intros s.
    - simpl. eauto.
    - simpl for_each. rewrite bind_unfold. destruct (Hi x s) as (w & ->).
      cbn [result events final]. apply IH. }
  destruct R1 as ([] & R1). rewrite R1. cbn [final].
  rewrite (for_each_past_deadline process_table Ht), G1.
  destruct indexlist, tablelist; reflexivity.
Qed.

(** C4.  When the clock read at the start of a unit of work shows the
    deadline reached, [process_index] and [process_table] set
    [time_exit] to true and return at once: the clock reading is their
    only event, the flag is the only global that changes, no counter
    moves and nothing is asked of the database.  The retry loop makes
    the same check at the top of every pass and leaves the loop there;
    past that check a pass does not read the clock again, so it is
    carried out whatever the time.  Once every reading of the clock
    shows the deadline reached, the driver loops issue no statement and
    count no index and no table, and the flag is set as soon as there
    is a unit to start. *)
Theorem deadline_checked_at_start_of_each_unit
  (name : value) (tbl : string) (t : TargetIndex) (attempt : Z)
  (s : St World) :
  PrimFloat.leb (halt_time cfg) (fst (env_time (world s))) = true ->
  let now := fst (env_time (world s)) in
  let g := globals s in
  let stopped :=
    MkSt (snd (env_time (world s)))
      (MkGlobals true (tabcount g) (idxcount g) (idxcount_success g)
         (idxcount_ignored g) (idxcount_retries g) (idxcount_notfound g)
         (total_idx_size_before g) (total_idx_size_after g)) in
  process_index name s = MkRun [EvClock now] stopped (inl []) /\
  process_table tbl s = MkRun [EvClock now] stopped (inl tt) /\
  attempt_body t attempt s = MkRun [EvClock now] stopped (inl TimedOut) /\
  time_exit (globals stopped) = true /\
  (forall s' : St World,
      exists evs,
        events (attempt_body t attempt s')
        = EvClock (fst (env_time (world s'))) :: evs /\
        Forall (fun e => is_clock e = false) evs) /\
  ((forall w, PrimFloat.leb (halt_time cfg) (fst (env_time w)) = true) ->
   forall (indexlist tablelist : list string) (s' : St World),
     let r := run_all indexlist tablelist s' in
     stmts (events r) = [] /\
     idxcount (globals (final r)) = idxcount (globals s') /\
     tabcount (globals (final r)) = tabcount (globals s') /\
     (indexlist <> [] \/ tablelist <> [] ->
      time_exit (globals (final r)) = true)).
Proof.
  intros E now g stopped.
  split; [|split; [|split; [|split; [|split]]]].
  - unfold process_index. rewrite bind_unfold.
    rewrite (deadline_reached_true s E). reflexivity.
  - unfold process_table. rewrite bind_unfold.
    rewrite (deadline_reached_true s E). reflexivity.
  - unfold attempt_body. rewrite bind_unfold.
    rewrite (deadline_reached_true s E). reflexivity.
  - reflexivity.
  - intros s'. apply attempt_reads_clock_once.
  - intros Hpast indexlist tablelist s' r. subst r.
    destruct (run_all_past_deadline indexlist tablelist s' Hpast)
      as (Hs & _ & Hg).
    split; [exact Hs|].
    split; [destruct Hg as [-> | ->]; reflexivity|].
    split; [destruct Hg as [-> | ->]; reflexivity|].
    intros Hgiven.
    rewrite (run_all_late_globals indexlist tablelist s' Hpast).
    destruct indexlist, tablelist; try reflexivity.
    destruct Hgiven; contradiction.
Qed.



Lemma stmts_bind {A B : Type} (m : M A) (f : A -> M B) (s : St World) :
  stmts (events (bind m f s))
  = stmts (events (m s))
    ++ match result (m s) with
       | inl a => stmts (events (f a (final (m s))))
       | inr _ => []
       end.
Proof.
  rewrite bind_unfold. destruct (result (m s)); simpl.
  - apply stmts_app.
  - now rewrite app_nil_r.
Qed.





(** C10.  A table whose listing comes back with no row, which is also
    what a table that does not exist yields, is counted as processed
    and nothing else happens: [process_table] returns normally, the
    listing is the only statement, no index is counted as seen or as
    not found, and no warning is printed. *)
Theorem table_without_index_rows_is_counted (tbl : string) (s : St World) :
  let now := fst (env_time (world s)) in
  let listing := env_execute (sql (IdxNamesQuery tbl)) (snd (env_time (world s))) in
  PrimFloat.leb (halt_time cfg) now = false ->
  (forall exc, fst listing <> OtherError exc) ->
  fst (env_fetchall (snd listing)) = FetchRows [] ->
  let r := process_table tbl s in
  result r = inl tt /\
  globals (final r) = incr_tabcount (globals s) /\
  tabcount (globals (final r)) = tabcount (globals s) + 1 /\
  idxcount (globals (final r)) = idxcount (globals s) /\
  idxcount_notfound (globals (final r)) = idxcount_notfound (globals s) /\
  stmts (events r) = [IdxNamesQuery tbl] /\
  (forall msg, ~ In (EvPrint "WARN   " msg) (events r)).
Proof.
  intros now listing E Hexec Hrows r. subst r now.
  assert (Hsent : negb (dryrun cfg) || true = true) by apply orb_true_r.
  unfold process_table. rewrite bind_unfold.
  rewrite (deadline_reached_false s E). cbv zeta.
  simpl result. cbv iota. simpl final. simpl events.
  rewrite bind_unfold.
  rewrite (dbquery_sent _ _ _ Hsent). cbv zeta. simpl world. simpl globals.
  fold listing. clearbody listing.
  destruct (fst listing) eqn:Hl;
    try (exfalso; eapply Hexec; reflexivity);
    simpl result; cbv iota; simpl final; simpl events;
    rewrite bind_unfold; unfold cur_fetchall; simpl world; cbv zeta;
    rewrite Hrows; simpl.
  all: repeat (split; [reflexivity|]).
  all: intros msg H; simpl in H.
  all: repeat (destruct H as [H|H]; [discriminate|]).
  all: try contradiction.
Qed.

(** *** Dry-run mode *)

Lemma first_row_globals (i : nat) (s : St World) :
  globals (final (first_row i s)) = globals s.
Proof.
  unfold first_row. rewrite bind_unfold. unfold cur_fetchall at 1 2 3 4.
  cbv zeta. simpl result. simpl final. simpl events.
  destruct (fst (env_fetchall (world s))) as [rows|]; [|reflexivity].
  rewrite bind_unfold. unfold getitem.
  destruct (nth_error rows 0) as [r|]; [|reflexivity].
  simpl. destruct (nth_error r i); reflexivity.
Qed.

Lemma sat_bind_post (P : event -> Prop) (R : Globals -> Globals -> Prop)
  (R_trans : forall g1 g2 g3, R g1 g2 -> R g2 g3 -> R g1 g3)
  {A B : Type} (m : M A) (f : A -> M B) (Q : A -> Prop) :
  sat P R m ->
  (forall s a, result (m s) = inl a -> Q a) ->
  (forall a, Q a -> sat P R (f a)) ->
  sat P R (bind m f).
Proof.
  intros Hm HQ Hf s. rewrite bind_unfold.
  destruct (Hm s) as [E1 G1].
  destruct (result (m s)) as [a|e] eqn:Er; simpl; [|auto].
  destruct (Hf a (HQ s a Er) (final (m s))) as [E2 G2].
  split; [apply Forall_app; auto | eauto].
Qed.

Section DryRun.

Hypothesis Hdry : dryrun cfg = true.

Lemma dry_rel_refl (g : Globals) : dry_globals_rel g g.
Proof. unfold dry_globals_rel. lia. Qed.

Lemma dry_rel_trans (g1 g2 g3 : Globals) :
  dry_globals_rel g1 g2 -> dry_globals_rel g2 g3 -> dry_globals_rel g1 g3.
Proof. unfold dry_globals_rel. lia. Qed.

Lemma dry_query_ok (q : stmt) :
  if negb (dryrun cfg) || is_lookup q
  then dry_event_ok (EvExec q) else dry_event_ok (EvDryRun q).
Proof. rewrite Hdry. simpl. destruct (is_lookup q); reflexivity. Qed.

(** The validity check still runs its query, fetches nothing and
    answers [True]. *)
Lemma dry_validity_true (t : TargetIndex) (s : St World) (v : value) :
  result (build_and_validate t s) = inl v ->
  v = VBool true /\
  In (EvExec (IdxValidQuery (idx_name_new t)))
     (events (build_and_validate t s)) /\
  (forall r, ~ In (EvFetch r) (events (build_and_validate t s))).
Proof.
  unfold build_and_validate. rewrite Hdry. intros H.
  apply bind_inl in H. destruct H as (u1 & H1 & H & Ev1 & _).
  apply bind_inl in H. destruct H as (u2 & H2 & H & Ev2 & _).
  apply bind_inl in H. destruct H as (u3 & H3 & H & Ev3 & _).
  simpl in H. injection H as <-.
  rewrite Ev1, Ev2, Ev3.
  assert (Hp : forall q s', dbquery q false s' = MkRun [EvDryRun q] s' (inl tt)).
  { intros q s'. apply dbquery_printed. now rewrite Hdry. }
  assert (Hs : negb (dryrun cfg) || true = true) by apply orb_true_r.
  rewrite Hp. rewrite (dbquery_sent _ _ _ Hs).
  split; [reflexivity|]. split.
  - apply in_or_app. right. apply in_or_app. right. apply in_or_app. left.
    cbv zeta. destruct (fst (env_execute _ _)); simpl; auto.
  - intros r Hin.
    destruct (idx_create_new t); simpl in H2; try discriminate.
    rewrite Hp in Hin. cbv zeta in Hin.
    destruct (fst (env_execute _ _)); simpl in Hin;
      repeat (destruct Hin as [Hin|Hin]; [discriminate|]); contradiction.
Qed.

Lemma dry_sat_record_sizes (t : TargetIndex) :
  sat dry_event_ok dry_globals_rel (record_sizes t).
Proof.
  intros s. split.
  - apply (sat_record_sizes dry_event_ok (fun _ _ => True)); simpl; auto.
    apply dry_query_ok.
  - unfold record_sizes. rewrite Hdry. simpl negb. cbv iota.
    rewrite bind_unfold.
    pose proof (dbquery_globals (IdxSizeBeforeQuery (py_str (idx_name t))) true s) as G1.
    destruct (result (dbquery _ true s)) as [[]|e]; simpl final;
      [|rewrite G1; apply dry_rel_refl].
    set (s1 := final (dbquery _ true s)) in *.
    rewrite bind_unfold.
    pose proof (first_row_globals 0 s1) as G2.
    destruct (result (first_row 0 s1)) as [v|e]; simpl final;
      [|rewrite G2, G1; apply dry_rel_refl].
    set (s2 := final (first_row 0 s1)) in *.
    rewrite bind_unfold. unfold add_size_before. rewrite G2, G1.
    destruct (py_add_int (total_idx_size_before (globals s)) v) as [n|] eqn:En;
      [|simpl; rewrite G2, G1; apply dry_rel_refl].
    simpl result. cbv iota. simpl final.
    rewrite bind_unfold. rewrite dbquery_printed by (now rewrite Hdry).
    simpl result. cbv iota. simpl final.
    unfold add_size_after. simpl globals. simpl total_idx_size_after.
    rewrite G2, G1.
    destruct v as [x|z|b|]; simpl in En; try discriminate;
      injection En as <-; simpl; unfold dry_globals_rel; simpl; split; lia.
Qed.

Ltac dry_side :=
  first
    [ exact dry_rel_refl
    | exact dry_rel_trans
    | exact dry_query_ok
    | (intros; exact I)
    | (intros; unfold dry_globals_rel; simpl; lia) ].

Lemma dry_sat_on_valid (t : TargetIndex) :
  sat dry_event_ok dry_globals_rel (on_valid t).
Proof.
  unfold on_valid.
  apply sat_bind; [dry_side | apply dry_sat_record_sizes | intros sizes].
  apply sat_bind;
    [dry_side | apply sat_index_bloat_stats; dry_side | intros _].
  apply sat_bind; [dry_side | apply sat_swap; dry_side | intros _].
  apply sat_bind; [dry_side | apply sat_pause; dry_side | intros _].
  apply sat_update; dry_side.
Qed.

Lemma dry_sat_attempt_body (t : TargetIndex) (attempt : Z) :
  sat dry_event_ok dry_globals_rel (attempt_body t attempt).
Proof.
  unfold attempt_body.
  apply sat_bind; [dry_side | apply sat_deadline_reached; dry_side |].
  intros expired. destruct expired; [apply sat_ret; dry_side|].
  apply sat_bind_post with (Q := fun v => v = VBool true).
  - dry_side.
  - apply sat_build_and_validate; dry_side.
  - intros s v H. apply (dry_validity_true t s v H).
  - intros v ->. simpl.
    apply sat_bind; [dry_side | apply dry_sat_on_valid | intros _].
    apply sat_ret; dry_side.
Qed.

Lemma dry_sat_process_index (name : value) :
  sat dry_event_ok dry_globals_rel (process_index name).
Proof.
  apply sat_process_index; try dry_side. apply dry_sat_attempt_body.
Qed.

Lemma dry_sat_run_all (indexlist tablelist : list string) :
  sat dry_event_ok dry_globals_rel (run_all indexlist tablelist).
Proof.
  apply sat_run_all; try dry_side. apply dry_sat_attempt_body.
Qed.

End DryRun.

Lemma mutation_is_no_lookup (q : stmt) :
  is_mutation q = true -> is_lookup q = false.
Proof. destruct q; simpl; congruence. Qed.

(** *** What a piece issues when it returns *)

Lemma issues_ret {A : Type} (a : A) : issues (ret a) [] 0 0.
Proof. intros s b _. simpl. repeat split; lia. Qed.

Lemma issues_bind {A B : Type} (m : M A) (f : A -> M B)
  (l l1 l2 : list stmt) (ds ds1 ds2 dr dr1 dr2 : Z) :
  issues m l1 ds1 dr1 ->
  (forall a, issues (f a) l2 ds2 dr2) ->
  l = l1 ++ l2 -> ds = ds1 + ds2 -> dr = dr1 + dr2 ->
  issues (bind m f) l ds dr.
Proof.
  intros Hm Hf -> -> -> s b H.
  apply bind_inl in H. destruct H as (a & H1 & H2 & Ev & Fi).
  destruct (Hm s a H1) as (E1 & S1 & R1).
  destruct (Hf a (final (m s)) b H2) as (E2 & S2 & R2).
  rewrite Ev, Fi, stmts_app, E1, E2, S2, R2, S1, R1.
  repeat split; lia.
Qed.

Lemma issues_dbquery (q : stmt) (ondryrun : bool) :
  issues (dbquery q ondryrun) [q] 0 0.
Proof.
  intros s a _. rewrite dbquery_stmts, dbquery_globals.
  repeat split; lia.
Qed.

Lemma issues_first_row (i : nat) : issues (first_row i) [] 0 0.
Proof.
  intros s a H. rewrite first_row_globals.
  split; [|split; lia].
  unfold first_row in *. rewrite stmts_bind.
  unfold cur_fetchall at 1 2 3. cbv zeta. simpl events. simpl result.
  simpl final.
  destruct (fst (env_fetchall (world s))) as [rows|]; [|reflexivity].
  simpl. rewrite stmts_bind. unfold getitem.
  destruct (nth_error rows 0) as [r|]; [|reflexivity].
  simpl. destruct (nth_error r i); reflexivity.
Qed.

Lemma issues_pause : issues pause [] 0 0.
Proof.
  intros s a _. unfold pause.
  destruct (0 <? pause_time cfg); simpl; repeat split; lia.
Qed.

Lemma issues_add_size_before (v : value) : issues (add_size_before v) [] 0 0.
Proof.
  intros s a H. unfold add_size_before in *.
  destruct (py_add_int _ v); [|discriminate].
  simpl. repeat split; lia.
Qed.

Lemma issues_add_size_after (v : value) : issues (add_size_after v) [] 0 0.
Proof.
  intros s a H. unfold add_size_after in *.
  destruct (py_add_int _ v); [|discriminate].
  simpl. repeat split; lia.
Qed.

Lemma issues_incr_success : issues (update incr_success) [] 1 0.
Proof. intros s a _. simpl. repeat split; lia. Qed.

Lemma issues_incr_retries : issues (update incr_retries) [] 0 1.
Proof. intros s a _. simpl. repeat split; lia. Qed.

Ltac issues_step :=
  first
    [ apply issues_ret
    | apply issues_dbquery
    | apply issues_first_row
    | apply issues_pause
    | apply issues_add_size_before
    | apply issues_add_size_after
    | apply issues_incr_success
    | apply issues_incr_retries
    | (eapply issues_bind; [ | intros ? | | | ]) ].

Ltac issues_auto := repeat issues_step; try reflexivity.

Lemma issues_swap (t : TargetIndex) : issues (swap t) (swap_statements t) 0 0.
Proof.
  unfold swap, swap_statements, pk_swap_statements, plain_swap_statements.
  destruct (py_truthy (is_pk t)); issues_auto.
Qed.

Lemma issues_build_and_validate (t : TargetIndex) :
  issues (build_and_validate t) (build_statements t) 0 0.
Proof.
  unfold build_and_validate, build_statements.
  destruct (idx_create_new t) as [text| | |];
    try (intros s a H;
         apply bind_inl in H; destruct H as (u1 & _ & H & _);
         apply bind_inl in H; destruct H as (u2 & H & _); discriminate).
  simpl py_str. destruct (dryrun cfg); issues_auto.
Qed.

Lemma issues_record_sizes (t : TargetIndex) :
  issues (record_sizes t) (size_statements t) 0 0.
Proof.
  unfold record_sizes, size_statements.
  destruct (dryrun cfg); simpl negb; cbv iota; issues_auto.
Qed.

Lemma issues_index_bloat_stats (size_before size_after : value) :
  issues (index_bloat_stats size_before size_after) [] 0 0.
Proof.
  intros s a _.
  destruct (index_bloat_stats_quiet size_before size_after s) as (-> & ->).
  simpl. repeat split; lia.
Qed.

Lemma issues_on_valid (t : TargetIndex) :
  issues (on_valid t) (size_statements t ++ swap_statements t) 1 0.
Proof.
  unfold on_valid.
  eapply issues_bind;
    [apply issues_record_sizes | intros sizes | reflexivity | | ].
  eapply issues_bind;
    [apply issues_index_bloat_stats | intros _ | reflexivity | | ].
  eapply issues_bind; [apply issues_swap | intros _ | | | ].
  issues_auto. all: try reflexivity. now rewrite app_nil_r.
Qed.

Lemma issues_on_invalid (t : TargetIndex) :
  issues (on_invalid t) [DropIndex (idx_name_new t)] 0 1.
Proof. unfold on_invalid. issues_auto. Qed.

Lemma attempt_body_issues (t : TargetIndex) (attempt : Z) (s : St World)
  (o : AttemptOutcome) :
  result (attempt_body t attempt s) = inl o ->
  stmts (events (attempt_body t attempt s)) = attempt_statements t o /\
  idxcount_success (globals (final (attempt_body t attempt s)))
  = idxcount_success (globals s) + successes [o] /\
  idxcount_retries (globals (final (attempt_body t attempt s)))
  = idxcount_retries (globals s) + failures [o].
Proof.
  intros H. unfold attempt_body in *.
  apply bind_inl in H. destruct H as (expired & H1 & H & Ev & Fi).
  rewrite Ev, Fi. clear Ev Fi.
  destruct (PrimFloat.leb (halt_time cfg) (fst (env_time (world s)))) eqn:E.
  - rewrite (deadline_reached_true s E) in *. simpl in H1.
    injection H1 as <-. simpl in H. injection H as <-.
    simpl. repeat split; lia.
  - rewrite (deadline_reached_false s E) in *. simpl in H1.
    injection H1 as <-. cbv iota in *. simpl final in *. simpl events.
    set (s1 := MkSt (snd (env_time (world s))) (globals s)) in *.
    apply bind_inl in H. destruct H as (v & Hv & H & Ev & Fi).
    rewrite Ev, Fi. clear Ev Fi.
    destruct (issues_build_and_validate t s1 v Hv) as (Eb & Sb & Rb).
    set (s2 := final (build_and_validate t s1)) in *.
    destruct (py_truthy v).
    + apply bind_inl in H. destruct H as (u & Hu & H & Ev & Fi).
      rewrite Ev, Fi. clear Ev Fi. simpl in H. injection H as <-.
      destruct (issues_on_valid t s2 u Hu) as (Eo & So & Ro).
      rewrite !stmts_app, Eb, Eo. simpl final.
      rewrite So, Ro, Sb, Rb.
      split; [|simpl; split; lia].
      unfold attempt_statements, valid_attempt_statements.
      cbn [stmts issued events]. now rewrite app_nil_r.
    + apply bind_inl in H. destruct H as (u & Hu & H & Ev & Fi).
      rewrite Ev, Fi. clear Ev Fi. simpl in H. injection H as <-.
      destruct (issues_on_invalid t s2 u Hu) as (Eo & So & Ro).
      rewrite !stmts_app, Eb, Eo. simpl final.
      rewrite So, Ro, Sb, Rb.
      split; [|simpl; split; lia].
      unfold attempt_statements, invalid_attempt_statements.
      cbn [stmts issued events]. now rewrite app_nil_r.
Qed.

Lemma successes_cons (o : AttemptOutcome) (os : list AttemptOutcome) :
  successes (o :: os)
  = match o with Valid => 1 | _ => 0 end + successes os.
Proof. destruct o; reflexivity. Qed.

Lemma failures_cons (o : AttemptOutcome) (os : list AttemptOutcome) :
  failures (o :: os)
  = match o with Invalid => 1 | _ => 0 end + failures os.
Proof. destruct o; reflexivity. Qed.

Lemma retry_loop_issues (t : TargetIndex) (attempts : list Z) :
  forall (s : St World) (outs : list AttemptOutcome),
    result (retry_loop t attempts s) = inl outs ->
    stmts (events (retry_loop t attempts s))
    = flat_map (attempt_statements t) outs /\
    idxcount_success (globals (final (retry_loop t attempts s)))
    = idxcount_success (globals s) + successes outs /\
    idxcount_retries (globals (final (retry_loop t attempts s)))
    = idxcount_retries (globals s) + failures outs /\
    loop_outcomes (List.length attempts) outs.
Proof.
  induction attempts as [|a rest IH]; intros s outs H.
  - simpl in H. injection H as <-. simpl.
    repeat split; try lia. left. reflexivity.
  - simpl retry_loop in *.
    apply bind_inl in H. destruct H as (o & Ho & H & Ev & Fi).
    rewrite Ev, Fi. clear Ev Fi.
    destruct (attempt_body_issues t a s o Ho) as (Ea & Sa & Ra).
    set (s1 := final (attempt_body t a s)) in *.
    destruct o; cbn [successes failures fold_right] in Sa, Ra.
    + simpl in H. injection H as <-. simpl events. rewrite app_nil_r, Ea.
      simpl final. rewrite Sa, Ra.
      rewrite successes_cons, failures_cons. cbn [flat_map].
      change (successes []) with 0. change (failures []) with 0.
      split; [now rewrite ?app_nil_r | split; [lia | split; [lia|]]].
      right. exists 0%nat, Valid.
      split; [reflexivity | split; [discriminate | simpl; lia]].
    + apply bind_inl in H. destruct H as (os & Hos & H & Ev & Fi).
      rewrite Ev, Fi. clear Ev Fi. simpl in H. injection H as <-.
      destruct (IH s1 os Hos) as (El & Sl & Rl & Shape).
      simpl events. rewrite app_nil_r, stmts_app, Ea, El.
      simpl final. rewrite Sl, Rl, Sa, Ra.
      rewrite successes_cons, failures_cons. cbn [flat_map].
      change (successes []) with 0. change (failures []) with 0.
      split; [now rewrite ?app_nil_r | split; [lia | split; [lia|]]].
      destruct Shape as [-> | (j & o & -> & Hne & Hlt)].
      * left. reflexivity.
      * right. exists (S j), o.
        split; [reflexivity | split; [assumption | simpl; lia]].
    + simpl in H. injection H as <-. simpl events. rewrite app_nil_r, Ea.
      simpl final. rewrite Sa, Ra.
      rewrite successes_cons, failures_cons. cbn [flat_map].
      change (successes []) with 0. change (failures []) with 0.
      split; [now rewrite ?app_nil_r | split; [lia | split; [lia|]]].
      right. exists 0%nat, TimedOut.
      split; [reflexivity | split; [discriminate | simpl; lia]].
Qed.

Lemma getitem_pure {A : Type} (l : list A) (i : nat) (s : St World) :
  events (getitem l i s) = [] /\ final (getitem l i s) = s.
Proof. unfold getitem. destruct (nth_error l i); simpl; auto. Qed.

Lemma cur_fetchall_quiet (s : St World) :
  stmts (events (cur_fetchall s)) = [] /\
  globals (final (cur_fetchall s)) = globals s.
Proof. unfold cur_fetchall. simpl. auto. Qed.

Ltac bind_inv H a :=
  let Ha := fresh "H" a in
  let Ev := fresh "Ev" in
  let Fi := fresh "Fi" in
  apply bind_inl in H; destruct H as (a & Ha & H & Ev & Fi);
  rewrite ?Ev, ?Fi; clear Ev Fi.

Ltac getitem_step L :=
  let Eg := fresh "Eg" in
  let Fg := fresh "Fg" in
  destruct L as (Eg & Fg); rewrite ?Eg, ?Fg in *; clear Eg Fg.

Lemma resolve_issues (name : value) (s : St World) (t : TargetIndex) :
  result (resolve name s) = inl (Some t) ->
  idx_name t = name /\
  py_concat name "_new" = Some (idx_name_new t) /\
  stmts (events (resolve name s))
  = timeout_statements (world s)
    ++ [IdxInfoQuery (py_str name); IdxCreateNewQuery (py_str name)] /\
  globals (final (resolve name s)) = globals s.
Proof.
  intros H. unfold resolve in *.
  bind_inv H u0.
  match goal with
  | _ : result (?m s) = inl u0 |- _ => set (part := m) in *
  end.
  assert (Hpart : stmts (events (part s)) = timeout_statements (world s) /\
                  globals (final (part s)) = globals s).
  { subst part. unfold timeout_statements.
    destruct (enforcetime cfg); [|simpl; auto].
    rewrite stmts_bind, bind_unfold.
    simpl (result (time_time s)). cbv iota. simpl (final (time_time s)).
    simpl (events (time_time s)).
    destruct (py_int (halt_time cfg - fst (env_time (world s)))%float);
      cbn [events final result];
      rewrite ?dbquery_stmts, ?dbquery_globals; simpl; auto. }
  destruct Hpart as (E0 & G0).
  set (s1 := final (part s)) in *.
  bind_inv H u1.
  pose proof (dbquery_stmts (IdxInfoQuery (py_str name)) true s1) as E1.
  pose proof (dbquery_globals (IdxInfoQuery (py_str name)) true s1) as G1.
  set (s2 := final (dbquery (IdxInfoQuery (py_str name)) true s1)) in *.
  bind_inv H idx_info.
  destruct (cur_fetchall_quiet s2) as (E2 & G2).
  set (s3 := final (cur_fetchall s2)) in *.
  destruct (negb (List.length idx_info =? 1)%nat); [discriminate|].
  bind_inv H r.
  getitem_step (getitem_pure idx_info 0 s3).
  bind_inv H tbl.
  getitem_step (getitem_pure r 0 s3).
  bind_inv H r'.
  getitem_step (getitem_pure idx_info 0 s3).
  bind_inv H pk.
  getitem_step (getitem_pure r' 1 s3).
  bind_inv H new.
  destruct (py_concat name "_new") as [n|] eqn:Hcat; [|discriminate].
  simpl in Hnew. injection Hnew as ->. cbn [ret events final] in *.
  bind_inv H u2.
  pose proof (dbquery_stmts (IdxCreateNewQuery (py_str name)) true s3) as E3.
  pose proof (dbquery_globals (IdxCreateNewQuery (py_str name)) true s3) as G3.
  set (s4 := final (dbquery (IdxCreateNewQuery (py_str name)) true s3)) in *.
  bind_inv H def.
  destruct (issues_first_row 1 s4 def Hdef) as (E4 & _).
  pose proof (first_row_globals 1 s4) as G4.
  cbn [ret events final result] in *. injection H as <-.
  split; [reflexivity | split; [reflexivity|]].
  split.
  - rewrite !stmts_app, E0, E1, E2, E3, E4. simpl. reflexivity.
  - rewrite G4, G3, G2, G1, G0. reflexivity.
Qed.

Lemma length_py_range (lo hi : Z) :
  List.length (py_range lo hi) = Z.to_nat (hi - lo).
Proof. unfold py_range. now rewrite length_map, length_seq. Qed.

Lemma process_index_issues (name : value) (s : St World)
  (outs : list AttemptOutcome) :
  result (process_index name s) = inl outs ->
  outs <> [] ->
  exists t,
    idx_name t = name /\
    py_concat name "_new" = Some (idx_name_new t) /\
    stmts (events (process_index name s))
    = timeout_statements (snd (env_time (world s)))
      ++ [IdxInfoQuery (py_str name); IdxCreateNewQuery (py_str name)]
      ++ flat_map (attempt_statements t) outs /\
    idxcount_success (globals (final (process_index name s)))
    = idxcount_success (globals s) + successes outs /\
    idxcount_retries (globals (final (process_index name s)))
    = idxcount_retries (globals s) + failures outs /\
    loop_outcomes (Z.to_nat (retries cfg)) outs.
Proof.
  intros H Hne. unfold process_index in *.
  bind_inv H expired.
  destruct (PrimFloat.leb (halt_time cfg) (fst (env_time (world s)))) eqn:E.
  - rewrite (deadline_reached_true s E) in *. simpl in Hexpired.
    injection Hexpired as <-. simpl in H. injection H as <-. contradiction.
  - rewrite (deadline_reached_false s E) in *. simpl in Hexpired.
    injection Hexpired as <-. cbv iota in *. cbn [events final] in *.
    set (s1 := MkSt (snd (env_time (world s))) (globals s)) in *.
    bind_inv H u1. cbn [_print events final] in *.
    bind_inv H u2. cbn [update events final] in *.
    set (s2 := MkSt (world s1) (incr_idxcount (globals s1))) in *.
    destruct (py_in name (ignorelist cfg)).
    + simpl in H. injection H as <-. contradiction.
    + bind_inv H ot.
      destruct ot as [t|];
        [|simpl in H; injection H as <-; contradiction].
      destruct (resolve_issues name s2 t Hot) as (Hn & Hc & Er & Gr).
      destruct (retry_loop_issues t _ _ outs H) as (El & Sl & Rl & Shape).
      exists t. split; [exact Hn|]. split; [exact Hc|].
      rewrite !stmts_app, Er, El, Sl, Rl, Gr.
      rewrite length_py_range in Shape.
      replace (retries cfg + 1 - 1) with (retries cfg) in Shape by lia.
      split; [|split; [reflexivity | split; [reflexivity | exact Shape]]].
      cbn [stmts issued app]. now rewrite <- app_assoc.
Qed.

Lemma executed_all (evs : list event) :
  Forall (fun e => is_dry_print e = false) evs -> executed evs = stmts evs.
Proof.
  induction 1 as [|e evs He _ IH]; [reflexivity|].
  destruct e; simpl in *; try discriminate; now rewrite ?IH.
Qed.

(** Outside dry-run mode nothing is printed in place of being run. *)
Lemma attempt_body_executes (t : TargetIndex) (attempt : Z) (s : St World) :
  dryrun cfg = false ->
  executed (events (attempt_body t attempt s))
  = stmts (events (attempt_body t attempt s)).
Proof.
  intros Hd. apply executed_all.
  apply (sat_attempt_body (fun e => is_dry_print e = false) (fun _ _ => True));
    auto.
  intros q. rewrite Hd. reflexivity.
Qed.

(** C1.  A pass of the retry loop that finds the replacement valid
    issues, after the build, the validity check and the two size
    lookups: for an index that backs the primary key, a statistics
    refresh, then BEGIN, the drop of the constraint, the rename of the
    replacement to the original name, the addition of the primary key
    using that index, and COMMIT; for any other index, a statistics
    refresh, the non-blocking drop of the original and the rename, with
    no BEGIN or COMMIT; in both cases a final statistics refresh closes
    the list.  Outside dry-run mode every one of them is run. *)
Theorem valid_replacement_swapped_by_primary_key
  (t : TargetIndex) (attempt : Z) (s : St World) :
  result (attempt_body t attempt s) = inl Valid ->
  let issued_all := stmts (events (attempt_body t attempt s)) in
  let tbl := py_str (table t) in
  let name := py_str (idx_name t) in
  let new := idx_name_new t in
  (py_truthy (is_pk t) = true ->
   issued_all
   = build_statements t ++ size_statements t
     ++ [Analyse tbl; Begin; DropConstraint tbl name; RenameIndex new name;
         AddPrimaryKey tbl name; Commit; Analyse tbl]) /\
  (py_truthy (is_pk t) = false ->
   issued_all
   = build_statements t ++ size_statements t
     ++ [Analyse tbl; DropIndex name; RenameIndex new name; Analyse tbl]) /\
  (dryrun cfg = false ->
   executed (events (attempt_body t attempt s)) = issued_all).
Proof.
  intros H issued_all tbl name new.
  destruct (attempt_body_issues t attempt s Valid H) as (E & _ & _).
  subst issued_all. rewrite E.
  unfold attempt_statements, valid_attempt_statements, swap_statements.
  split; [|split].
  - intros ->. reflexivity.
  - intros ->. reflexivity.
  - intros Hd. rewrite (attempt_body_executes t attempt s Hd). exact E.
Qed.

(** *** Counting statements *)

Lemma count_app (p : stmt -> bool) (l1 l2 : list stmt) :
  count p (l1 ++ l2) = (count p l1 + count p l2)%nat.
Proof. unfold count. now rewrite filter_app, length_app. Qed.

Lemma count_invalid_attempts (p : stmt -> bool) (t : TargetIndex) (j : nat) :
  count p (flat_map (attempt_statements t) (repeat Invalid j))
  = (j * count p (invalid_attempt_statements t))%nat.
Proof.
  induction j as [|j IH]; [reflexivity|].
  cbn [repeat flat_map attempt_statements]. rewrite count_app, IH. lia.
Qed.

Lemma count_timeout_statements (p : stmt -> bool) (w : World) :
  (forall n, p (SetStatementTimeout n) = false) ->
  count p (timeout_statements w) = 0%nat.
Proof.
  intros H. unfold timeout_statements, count.
  destruct (enforcetime cfg); [|reflexivity].
  destruct (py_int _); simpl; [now rewrite H | reflexivity].
Qed.

Lemma flat_map_invalid_attempts (t : TargetIndex) (j : nat) :
  flat_map (attempt_statements t) (repeat Invalid j)
  = List.concat (repeat (invalid_attempt_statements t) j).
Proof.
  induction j as [|j IH]; [reflexivity|].
  cbn [repeat flat_map List.concat attempt_statements]. now rewrite IH.
Qed.

Lemma valid_at_position (n i : nat) (outs : list AttemptOutcome) :
  loop_outcomes n outs ->
  nth_error outs i = Some Valid ->
  outs = repeat Invalid i ++ [Valid] /\ (i < n)%nat.
Proof.
  intros [-> | (j & o & -> & Hne & Hlt)] Hnth.
  - apply nth_error_In, repeat_spec in Hnth. discriminate.
  - destruct (Nat.lt_trichotomy i j) as [Hij | [-> | Hij]].
    + rewrite nth_error_app1 in Hnth by (rewrite repeat_length; lia).
      apply nth_error_In, repeat_spec in Hnth. discriminate.
    + rewrite nth_error_app2 in Hnth by (rewrite repeat_length; lia).
      rewrite repeat_length, Nat.sub_diag in Hnth. simpl in Hnth.
      injection Hnth as ->. auto.
    + rewrite nth_error_app2 in Hnth by (rewrite repeat_length; lia).
      rewrite repeat_length in Hnth.
      destruct (i - j)%nat as [|d] eqn:Ed; [lia|].
      simpl in Hnth. destruct d; discriminate.
Qed.

(** C2.  If [process_index] returns and its pass number [k] found the
    replacement valid, then the passes before [k] all ended in a
    clean-up and pass [k] was the last one: the statements issued for
    the index are the resolution, [k - 1] failed attempts and one valid
    attempt, among them exactly [k] builds and exactly one rename, and
    the success counter has grown by exactly one. *)
Theorem valid_attempt_swaps_once_and_stops
  (name : value) (s : St World) (k : Z) (outs : list AttemptOutcome) :
  1 <= k <= retries cfg ->
  result (process_index name s) = inl outs ->
  nth_error outs (Z.to_nat (k - 1)) = Some Valid ->
  let r := process_index name s in
  outs = repeat Invalid (Z.to_nat (k - 1)) ++ [Valid] /\
  idxcount_success (globals (final r)) = idxcount_success (globals s) + 1 /\
  count is_build (stmts (events r)) = Z.to_nat k /\
  count is_rename (stmts (events r)) = 1%nat /\
  exists t,
    idx_name t = name /\
    stmts (events r)
    = timeout_statements (snd (env_time (world s)))
      ++ [IdxInfoQuery (py_str name); IdxCreateNewQuery (py_str name)]
      ++ List.concat (repeat (invalid_attempt_statements t) (Z.to_nat (k - 1)))
      ++ valid_attempt_statements t.
Proof.
  intros Hk H Hnth r. subst r.
  assert (Hne : outs <> []).
  { intros ->. destruct (Z.to_nat (k - 1)); discriminate. }
  destruct (process_index_issues name s outs H Hne)
    as (t & Hn & _ & E & S & _ & Shape).
  destruct (valid_at_position _ _ _ Shape Hnth) as (-> & Hlt).
  set (j := Z.to_nat (k - 1)) in *.
  rewrite flat_map_app in E. cbn [flat_map attempt_statements] in E.
  rewrite app_nil_r in E.
  assert (Hsucc : successes (repeat Invalid j ++ [Valid]) = 1).
  { clear. induction j as [|j IH]; [reflexivity|].
    cbn [repeat app]. rewrite successes_cons, IH. reflexivity. }
  split; [reflexivity|]. split; [rewrite S, Hsucc; reflexivity|].
  rewrite E. split; [|split].
  - rewrite !count_app, count_invalid_attempts.
    rewrite count_timeout_statements by reflexivity.
    unfold valid_attempt_statements, swap_statements.
    rewrite !count_app.
    replace (count is_build (if py_truthy (is_pk t)
                             then pk_swap_statements t
                             else plain_swap_statements t)) with 0%nat
      by (destruct (py_truthy (is_pk t)); reflexivity).
    cbn. subst j. lia.
  - rewrite !count_app, count_invalid_attempts.
    rewrite count_timeout_statements by reflexivity.
    unfold valid_attempt_statements, swap_statements.
    rewrite !count_app.
    replace (count is_rename (if py_truthy (is_pk t)
                              then pk_swap_statements t
                              else plain_swap_statements t)) with 1%nat
      by (destruct (py_truthy (is_pk t)); reflexivity).
    cbn. lia.
  - exists t. split; [exact Hn|].
    now rewrite flat_map_invalid_attempts.
Qed.

Lemma length_append (a b : string) :
  String.length (a ++ b)%string = (String.length a + String.length b)%nat.
Proof. induction a as [|c a IH]; simpl; [reflexivity | now rewrite IH]. Qed.

(** The replacement never carries the name of the original. *)
Lemma suffixed_name_differs (nm : string) :
  String.eqb (nm ++ "_new")%string nm = false.
Proof.
  apply String.eqb_neq. intros H.
  apply (f_equal String.length) in H. rewrite length_append in H.
  simpl in H. lia.
Qed.

Lemma Forall_concat_repeat {A : Type} (P : A -> Prop) (l : list A) (n : nat) :
  Forall P l -> Forall P (List.concat (repeat l n)).
Proof.
  intros H. induction n as [|n IH]; simpl; [constructor|].
  apply Forall_app. auto.
Qed.

Lemma failures_repeat_invalid (n : nat) :
  failures (repeat Invalid n) = Z.of_nat n.
Proof.
  induction n as [|n IH]; [reflexivity|].
  cbn [repeat]. rewrite failures_cons, IH. lia.
Qed.

Lemma successes_repeat_invalid (n : nat) :
  successes (repeat Invalid n) = 0.
Proof.
  induction n as [|n IH]; [reflexivity|].
  cbn [repeat]. rewrite successes_cons, IH. reflexivity.
Qed.

(** Where every event is as dry-run mode wants it, the statements run
    are the lookups among the statements issued, in their order, and
    the statements printed are the others. *)
Lemma dry_events_split (evs : list event) :
  Forall dry_event_ok evs ->
  executed evs = filter is_lookup (stmts evs) /\
  printed evs = filter (fun q => negb (is_lookup q)) (stmts evs).
Proof.
  induction 1 as [|e evs He _ (IHx & IHp)]; [split; reflexivity|].
  destruct e; simpl in *; auto.
  - rewrite He. simpl. rewrite IHx. auto.
  - rewrite He. simpl. rewrite IHp. auto.
Qed.

Lemma no_lookup_in_swap (t : TargetIndex) :
  filter is_lookup (swap_statements t) = [] /\
  filter (fun q => negb (is_lookup q)) (swap_statements t)
  = swap_statements t.
Proof.
  unfold swap_statements. destruct (py_truthy (is_pk t)); split; reflexivity.
Qed.

Lemma no_lookup_in_timeout (w : World) :
  filter is_lookup (timeout_statements w) = [] /\
  filter (fun q => negb (is_lookup q)) (timeout_statements w)
  = timeout_statements w.
Proof.
  unfold timeout_statements.
  destruct (enforcetime cfg); [destruct (py_int _)|]; split; reflexivity.
Qed.

(** The driver hands the first index named to [process_index]. *)
Lemma run_all_starts_with_first_index
  (idx : string) (indexlist tablelist : list string) (s : St World) :
  exists more,
    events (run_all (idx :: indexlist) tablelist s)
    = events (process_index (VStr idx) s) ++ more.
Proof.
  unfold run_all. cbn [for_each].
  rewrite (bind_unfold (bind _ _) _ s).
  rewrite (bind_unfold (bind (process_index (VStr idx)) _) _ s).
  rewrite (bind_unfold (process_index (VStr idx)) _ s).
  destruct (result (process_index (VStr idx) s)) as [outs|e];
    cbn [result events final ret].
  - rewrite app_nil_r.
    destruct (result (for_each _ indexlist _));
      cbn [events]; rewrite <- ?app_assoc; eauto.
  - exists []. now rewrite app_nil_r.
Qed.

(** C7.  In dry-run mode, over a whole run: a statement reaches the
    database only if it is one of the lookups (resolution, definition
    fetch, validity check, before-size, table listing), and a statement
    is printed only if it is not one of them, so no mutating statement
    is executed; the validity check still runs its query but answers
    true without reading the result, so no retry is ever counted; and
    the after-size total grows exactly as the before-size total does.
    The driver hands each index to [process_index], and when that
    returns after a pass of its loop was carried out, the pass was the
    first and found the replacement valid; the statements run are then
    exactly the resolution, the definition fetch, the validity check
    and the before-size, in this order, and the statements printed are
    exactly the others: the statement timeout if enforced, the
    defensive drop, the build, the after-size and the swap. *)
Theorem dry_run_prints_mutations_and_runs_lookups
  (indexlist tablelist : list string) (s : St World) :
  dryrun cfg = true ->
  let r := run_all indexlist tablelist s in
  (forall q, In (EvExec q) (events r) -> is_lookup q = true) /\
  (forall q, In (EvDryRun q) (events r) -> is_lookup q = false) /\
  (forall q, is_mutation q = true -> ~ In (EvExec q) (events r)) /\
  (forall t s' v,
      result (build_and_validate t s') = inl v ->
      v = VBool true /\
      In (EvExec (IdxValidQuery (idx_name_new t)))
         (events (build_and_validate t s')) /\
      (forall rows, ~ In (EvFetch rows) (events (build_and_validate t s')))) /\
  idxcount_retries (globals (final r)) = idxcount_retries (globals s) /\
  total_idx_size_after (globals (final r)) - total_idx_size_after (globals s)
  = total_idx_size_before (globals (final r))
    - total_idx_size_before (globals s) /\
  (forall idx rest,
      indexlist = idx :: rest ->
      exists more, events r = events (process_index (VStr idx) s) ++ more) /\
  (forall name s' outs,
      result (process_index name s') = inl outs ->
      (exists o, In o outs /\ o <> TimedOut) ->
      let r' := process_index name s' in
      exists t,
        idx_name t = name /\
        py_concat name "_new" = Some (idx_name_new t) /\
        outs = [Valid] /\
        executed (events r')
        = [IdxInfoQuery (py_str name); IdxCreateNewQuery (py_str name);
           IdxValidQuery (idx_name_new t);
           IdxSizeBeforeQuery (py_str name)] /\
        printed (events r')
        = timeout_statements (snd (env_time (world s')))
          ++ [DropIndexIfExists (idx_name_new t);
              CreateNew (py_str (idx_create_new t));
              IdxSizeAfterQuery (idx_name_new t)]
          ++ swap_statements t /\
        idxcount_success (globals (final r'))
        = idxcount_success (globals s') + 1).
Proof.
  intros Hdry r.
  destruct (dry_sat_run_all Hdry indexlist tablelist s) as [Hev [Hret Hsize]].
  fold r in Hev, Hret, Hsize.
  rewrite Forall_forall in Hev.
  assert (Hexec : forall q, In (EvExec q) (events r) -> is_lookup q = true).
  { intros q Hin. exact (Hev _ Hin). }
  split; [exact Hexec|].
  split; [intros q Hin; exact (Hev _ Hin)|].
  split.
  { intros q Hmut Hin. apply mutation_is_no_lookup in Hmut.
    rewrite (Hexec q Hin) in Hmut. discriminate. }
  split; [intros t s' v H; now apply dry_validity_true|].
  split; [exact Hret|]. split; [exact Hsize|]. split.
  { intros idx rest ->. apply run_all_starts_with_first_index. }
  intros name s' outs Hres (o & Ho & Hnt) r'. subst r'.
  assert (Hne : outs <> []) by (intros ->; contradiction).
  destruct (process_index_issues name s' outs Hres Hne)
    as (t & Hn & Hc & E & HS & HR & Hloop).
  destruct (dry_sat_process_index Hdry name s') as (Hok & Hnoretry & _).
  assert (Hf : failures outs = 0) by lia.
  assert (Houts : outs = [Valid]).
  { destruct Hloop as [-> | (j & o' & -> & Ho' & _)].
    - rewrite failures_repeat_invalid in Hf.
      destruct (Z.to_nat (retries cfg)); [contradiction|]. lia.
    - assert (Hj : failures (repeat Invalid j ++ [o']) = Z.of_nat j).
      { clear -Ho'. induction j as [|j IH].
        - simpl. destruct o'; try reflexivity. contradiction.
        - cbn [repeat app]. rewrite failures_cons, IH. lia. }
      rewrite Hj in Hf. destruct j; [|lia]. cbn [repeat app] in *.
      destruct Ho as [<- | []].
      destruct o'; [reflexivity | contradiction | contradiction]. }
  subst outs. cbn [flat_map attempt_statements] in E.
  rewrite app_nil_r in E.
  destruct (dry_events_split _ Hok) as (Hx & Hp).
  destruct (no_lookup_in_swap t) as (Sx & Sp).
  destruct (no_lookup_in_timeout (snd (env_time (world s')))) as (Tx & Tp).
  exists t. split; [exact Hn|]. split; [exact Hc|]. split; [reflexivity|].
  rewrite Hx, Hp, E. unfold valid_attempt_statements, build_statements,
    size_statements. rewrite Hn.
  rewrite !filter_app, Sx, Sp, Tx, Tp. cbn [filter is_lookup negb app].
  rewrite ?app_nil_r.
  split; [reflexivity|]. split; [reflexivity|].
  rewrite HS. rewrite successes_cons. reflexivity.
Qed.

(** C3, as the code has it.  If every pass up to the retry limit finds
    the replacement invalid, then no statement of either swap protocol
    is issued for the index, and every build is followed by a
    non-blocking drop of the replacement, the last one included: the
    engine gives up having issued as many drops of the replacement as
    builds, the last statement being such a drop.  The success counter
    is unchanged and the retry counter has grown by the retry limit. *)
Theorem exhausted_retries_drop_each_replacement
  (name : value) (s : St World) :
  1 <= retries cfg ->
  result (process_index name s)
  = inl (repeat Invalid (Z.to_nat (retries cfg))) ->
  let r := process_index name s in
  let n := Z.to_nat (retries cfg) in
  exists t,
    idx_name t = name /\
    py_concat name "_new" = Some (idx_name_new t) /\
    stmts (events r)
    = timeout_statements (snd (env_time (world s)))
      ++ [IdxInfoQuery (py_str name); IdxCreateNewQuery (py_str name)]
      ++ List.concat (repeat (invalid_attempt_statements t) n) /\
    Forall (fun q => is_swap_statement t q = false) (stmts (events r)) /\
    count is_build (stmts (events r)) = n /\
    count (is_drop_of (idx_name_new t)) (stmts (events r)) = n /\
    (exists before,
        stmts (events r) = before ++ [DropIndex (idx_name_new t)]) /\
    idxcount_success (globals (final r)) = idxcount_success (globals s) /\
    idxcount_retries (globals (final r))
    = idxcount_retries (globals s) + retries cfg.
Proof.
  intros Hretries H r n. subst r.
  assert (Hne : repeat Invalid n <> []).
  { subst n. destruct (Z.to_nat (retries cfg)) eqn:En; [lia | discriminate]. }
  destruct (process_index_issues name s _ H Hne)
    as (t & Hn & Hc & E & HS & HR & _).
  fold n in E, HS, HR.
  rewrite flat_map_invalid_attempts in E.
  rewrite successes_repeat_invalid in HS.
  rewrite failures_repeat_invalid in HR.
  exists t. split; [exact Hn|]. split; [exact Hc|]. split; [exact E|].
  rewrite E.
  assert (Hnew : String.eqb (idx_name_new t) (py_str (idx_name t)) = false).
  { rewrite Hn. destruct name as [nm| | |]; simpl in Hc; try discriminate.
    injection Hc as <-. apply suffixed_name_differs. }
  split; [|split; [|split; [|split; [|split]]]].
  - apply Forall_app. split.
    + unfold timeout_statements.
      destruct (enforcetime cfg); [destruct (py_int _)|]; repeat constructor.
    + apply Forall_app. split; [repeat constructor|].
      apply Forall_concat_repeat.
      unfold invalid_attempt_statements, build_statements.
      repeat constructor. simpl. exact Hnew.
  - rewrite !count_app, count_timeout_statements by reflexivity.
    rewrite <- flat_map_invalid_attempts, count_invalid_attempts.
    cbn. lia.
  - rewrite !count_app, count_timeout_statements by reflexivity.
    rewrite <- flat_map_invalid_attempts, count_invalid_attempts.
    unfold invalid_attempt_statements, build_statements, count.
    simpl. rewrite String.eqb_refl. simpl. lia.
  - destruct n as [|m]; [contradiction Hne; reflexivity|].
    change (repeat (invalid_attempt_statements t) (S m))
      with (invalid_attempt_statements t
            :: repeat (invalid_attempt_statements t) m).
    rewrite repeat_cons, concat_app.
    change (List.concat [invalid_attempt_statements t])
      with (invalid_attempt_statements t ++ []).
    rewrite app_nil_r. unfold invalid_attempt_statements at 2.
    eexists. rewrite !app_assoc. reflexivity.
  - lia.
  - subst n. lia.
Qed.

(** *** The first row is read without a look at the row count *)

Lemma first_row_of_no_rows (i : nat) (s : St World) :
  fst (env_fetchall (world s)) = FetchRows [] ->
  first_row i s
  = MkRun [EvFetch (FetchRows [])]
      (MkSt (snd (env_fetchall (world s))) (globals s)) (inr IndexError).
Proof.
  intros H. unfold first_row. rewrite bind_unfold.
  unfold cur_fetchall. cbv zeta. rewrite H. reflexivity.
Qed.

Lemma dbquery_fetches_nothing (q : stmt) (ondryrun : bool) (s : St World)
  (r : fetch_outcome) :
  ~ In (EvFetch r) (events (dbquery q ondryrun s)).
Proof.
  destruct (negb (dryrun cfg) || ondryrun) eqn:E.
  - rewrite (dbquery_sent _ _ _ E). cbv zeta.
    destruct (fst (env_execute (sql q) (world s))); simpl;
      intros H; repeat (destruct H as [H|H]; [discriminate|]); exact H.
  - rewrite (dbquery_printed _ _ _ E). simpl.
    intros [H|H]; [discriminate | exact H].
Qed.

Lemma first_row_fetched_no_rows (i : nat) (s : St World) :
  In (EvFetch (FetchRows [])) (events (first_row i s)) ->
  result (first_row i s) = inr IndexError.
Proof.
  intros H.
  destruct (fst (env_fetchall (world s))) as [rows|] eqn:E.
  - destruct rows as [|r rows].
    + now rewrite (first_row_of_no_rows i s E).
    + exfalso. revert H. unfold first_row. rewrite bind_unfold.
      unfold cur_fetchall. cbv zeta. rewrite E.
      cbn [result events final]. rewrite bind_unfold.
      cbn [getitem nth_error ret result events final].
      match goal with
      | |- context [getitem r i ?s'] =>
          destruct (getitem_pure r i s') as (Eg & _); rewrite Eg
      end.
      simpl. intros [H|H]; [discriminate | exact H].
  - exfalso. revert H. unfold first_row. rewrite bind_unfold.
    unfold cur_fetchall. cbv zeta. rewrite E. simpl.
    intros [H|H]; [discriminate | exact H].
Qed.

(** Outside dry-run mode, a validity query that comes back with no row
    ends the pass with [IndexError]. *)
Lemma validity_of_no_rows (t : TargetIndex) (s : St World) :
  dryrun cfg = false ->
  In (EvFetch (FetchRows [])) (events (build_and_validate t s)) ->
  result (build_and_validate t s) = inr IndexError.
Proof.
  intros Hd. unfold build_and_validate. rewrite Hd.
  rewrite bind_unfold.
  destruct (result (dbquery (DropIndexIfExists (idx_name_new t)) false s))
    as [[]|e]; simpl events; simpl result;
    [|intros H; exfalso; eapply dbquery_fetches_nothing; exact H].
  set (s1 := final (dbquery (DropIndexIfExists (idx_name_new t)) false s)).
  intros H. apply in_app_or in H.
  destruct H as [H|H]; [exfalso; eapply dbquery_fetches_nothing; exact H|].
  revert H. rewrite bind_unfold.
  destruct (idx_create_new t) as [text| | |];
    try (simpl; intros H; contradiction).
  destruct (result (dbquery (CreateNew text) false s1)) as [[]|e];
    simpl events; simpl result;
    [|intros H; exfalso; eapply dbquery_fetches_nothing; exact H].
  set (s2 := final (dbquery (CreateNew text) false s1)).
  intros H. apply in_app_or in H.
  destruct H as [H|H]; [exfalso; eapply dbquery_fetches_nothing; exact H|].
  revert H. rewrite bind_unfold.
  destruct (result (dbquery (IdxValidQuery (idx_name_new t)) true s2))
    as [[]|e]; simpl events; simpl result;
    [|intros H; exfalso; eapply dbquery_fetches_nothing; exact H].
  intros H. apply in_app_or in H.
  destruct H as [H|H]; [exfalso; eapply dbquery_fetches_nothing; exact H|].
  now apply first_row_fetched_no_rows.
Qed.

Lemma in_bind_events {A B : Type} (m : M A) (f : A -> M B) (s : St World)
  (e : event) :
  In e (events (bind m f s)) ->
  In e (events (m s)) \/
  exists a, result (m s) = inl a /\ In e (events (f a (final (m s)))).
Proof.
  rewrite bind_unfold. destruct (result (m s)) as [a|x]; simpl; [|auto].
  intros H. apply in_app_or in H. destruct H; eauto.
Qed.

Lemma result_bind_inl {A B : Type} (m : M A) (f : A -> M B) (s : St World)
  (a : A) :
  result (m s) = inl a ->
  result (bind m f s) = result (f a (final (m s))).
Proof. intros H. rewrite bind_unfold, H. reflexivity. Qed.

Lemma result_bind_inr {A B : Type} (m : M A) (f : A -> M B) (s : St World)
  (x : exn) :
  result (m s) = inr x -> result (bind m f s) = inr x.
Proof. intros H. rewrite bind_unfold, H. reflexivity. Qed.

Lemma add_size_before_events (v : value) (s : St World) :
  events (add_size_before v s) = [].
Proof. unfold add_size_before. destruct (py_add_int _ v); reflexivity. Qed.

Lemma add_size_after_events (v : value) (s : St World) :
  events (add_size_after v s) = [].
Proof. unfold add_size_after. destruct (py_add_int _ v); reflexivity. Qed.

Ltac no_fetch H :=
  exfalso;
  first
    [ eapply dbquery_fetches_nothing; exact H
    | rewrite add_size_before_events in H; exact H
    | rewrite add_size_after_events in H; exact H
    | match type of H with
      | In _ (events (getitem ?l ?i ?s)) =>
          destruct (getitem_pure l i s) as (Eg & _); rewrite Eg in H; exact H
      end
    | (simpl in H; repeat (destruct H as [H|H]; [discriminate|]); exact H) ].

(** A size lookup that comes back with no row ends the pass with
    [IndexError]. *)
Lemma sizes_of_no_rows (t : TargetIndex) (s : St World) :
  In (EvFetch (FetchRows [])) (events (record_sizes t s)) ->
  result (record_sizes t s) = inr IndexError.
Proof.
  unfold record_sizes. intros H.
  apply in_bind_events in H. destruct H as [H | (u & Hu & H)]; [no_fetch H|].
  rewrite (result_bind_inl _ _ _ _ Hu).
  apply in_bind_events in H. destruct H as [H | (v & Hv & H)].
  { apply result_bind_inr. now apply first_row_fetched_no_rows. }
  rewrite (result_bind_inl _ _ _ _ Hv).
  apply in_bind_events in H. destruct H as [H | (u1 & Hu1 & H)]; [no_fetch H|].
  rewrite (result_bind_inl _ _ _ _ Hu1).
  apply in_bind_events in H. destruct H as [H | (u2 & Hu2 & H)]; [no_fetch H|].
  rewrite (result_bind_inl _ _ _ _ Hu2).
  apply in_bind_events in H. destruct H as [H | (v' & Hv' & H)].
  - apply result_bind_inr. destruct (negb (dryrun cfg)).
    + now apply first_row_fetched_no_rows.
    + no_fetch H.
  - apply in_bind_events in H. destruct H as [H | (u3 & _ & H)]; no_fetch H.
Qed.

(** When the resolution found its one row, a definition fetch that comes
    back with no row ends [resolve] with [IndexError]. *)
Lemma definition_of_no_rows (name : value) (s : St World) (r : row) :
  In (EvFetch (FetchRows [r])) (events (resolve name s)) ->
  In (EvFetch (FetchRows [])) (events (resolve name s)) ->
  result (resolve name s) = inr IndexError.
Proof.
  unfold resolve. intros H1 H.
  apply in_bind_events in H. destruct H as [H | (u & Hu & H)].
  { exfalso. destruct (enforcetime cfg); [|no_fetch H].
    apply in_bind_events in H. destruct H as [H | (now & _ & H)];
      [no_fetch H | destruct (py_int _); no_fetch H]. }
  rewrite (result_bind_inl _ _ _ _ Hu).
  apply in_bind_events in H1. destruct H1 as [H1 | (u' & _ & H1)].
  { exfalso. destruct (enforcetime cfg); [|no_fetch H1].
    apply in_bind_events in H1. destruct H1 as [H1 | (now & _ & H1)];
      [no_fetch H1 | destruct (py_int _); no_fetch H1]. }
  apply in_bind_events in H. destruct H as [H | (u1 & Hu1 & H)]; [no_fetch H|].
  rewrite (result_bind_inl _ _ _ _ Hu1).
  apply in_bind_events in H1.
  destruct H1 as [H1 | (u1' & _ & H1)]; [no_fetch H1|].
  match goal with
  | |- context [bind cur_fetchall ?k ?s2] =>
      set (s1 := s2) in *; set (rest := k) in *
  end.
  assert (Hrest : forall rows sf,
             In (EvFetch (FetchRows [])) (events (rest rows sf)) ->
             result (rest rows sf) = inr IndexError).
  { intros rows sf Hin. subst rest. cbv beta in *.
    destruct (negb (List.length rows =? 1)%nat); [no_fetch Hin|].
    apply in_bind_events in Hin.
    destruct Hin as [Hin | (a1 & Ha1 & Hin)]; [no_fetch Hin|].
    rewrite (result_bind_inl _ _ _ _ Ha1).
    apply in_bind_events in Hin.
    destruct Hin as [Hin | (a2 & Ha2 & Hin)]; [no_fetch Hin|].
    rewrite (result_bind_inl _ _ _ _ Ha2).
    apply in_bind_events in Hin.
    destruct Hin as [Hin | (a3 & Ha3 & Hin)]; [no_fetch Hin|].
    rewrite (result_bind_inl _ _ _ _ Ha3).
    apply in_bind_events in Hin.
    destruct Hin as [Hin | (a4 & Ha4 & Hin)]; [no_fetch Hin|].
    rewrite (result_bind_inl _ _ _ _ Ha4).
    apply in_bind_events in Hin.
    destruct Hin as [Hin | (a5 & Ha5 & Hin)];
      [destruct (py_concat name "_new"); no_fetch Hin|].
    rewrite (result_bind_inl _ _ _ _ Ha5).
    apply in_bind_events in Hin.
    destruct Hin as [Hin | (a6 & Ha6 & Hin)]; [no_fetch Hin|].
    rewrite (result_bind_inl _ _ _ _ Ha6).
    apply in_bind_events in Hin.
    destruct Hin as [Hin | (a7 & Ha7 & Hin)]; [|no_fetch Hin].
    apply result_bind_inr. now apply first_row_fetched_no_rows. }
  apply in_bind_events in H. destruct H as [H | (rows & Hrows & H)].
  - exfalso. unfold cur_fetchall in H. simpl in H.
    destruct H as [H|[]]. injection H as Hno.
    apply in_bind_events in H1. destruct H1 as [H1 | (rows & Hrows & H1)].
    + unfold cur_fetchall in H1. simpl in H1.
      destruct H1 as [H1|[]]. rewrite Hno in H1. discriminate.
    + unfold cur_fetchall in Hrows. simpl in Hrows. rewrite Hno in Hrows.
      injection Hrows as <-. subst rest. cbv beta in H1.
      simpl in H1. no_fetch H1.
  - rewrite (result_bind_inl _ _ _ _ Hrows). now apply Hrest.
Qed.

(** *** The lists given on the command line *)

Lemma split_comma_not_nil (s : string) : split_comma s <> [].
Proof.
  destruct s as [|c s]; simpl; [discriminate|].
  destruct (Ascii.eqb c ","); [discriminate|].
  destruct (split_comma s); discriminate.
Qed.

Lemma concat_cons_cons (sep x y : string) (l : list string) :
  String.concat sep (x :: y :: l)
  = (x ++ sep ++ String.concat sep (y :: l))%string.
Proof. reflexivity. Qed.

Lemma join_split_comma (s : string) :
  String.concat "," (split_comma s) = s.
Proof.
  induction s as [|c s IH]; [reflexivity|].
  simpl split_comma. destruct (Ascii.eqb c ",") eqn:E.
  - apply Ascii.eqb_eq in E. subst c.
    pose proof (split_comma_not_nil s) as Hne.
    destruct (split_comma s) as [|y l]; [contradiction|].
    rewrite concat_cons_cons, IH. reflexivity.
  - pose proof (split_comma_not_nil s) as Hne.
    destruct (split_comma s) as [|y l]; [contradiction|].
    destruct l as [|z l].
    + simpl in *. now rewrite IH.
    + rewrite concat_cons_cons. rewrite concat_cons_cons in IH.
      change (String c y ++ "," ++ String.concat "," (z :: l))%string
        with (String c (y ++ "," ++ String.concat "," (z :: l)))%string.
      now rewrite IH.
Qed.

Lemma split_comma_pieces (s : string) :
  Forall (fun piece => comma_free piece = true) (split_comma s).
Proof.
  induction s as [|c s IH]; simpl; [repeat constructor|].
  destruct (Ascii.eqb c ",") eqn:E; [constructor; auto|].
  destruct (split_comma s) as [|y l]; [repeat constructor; simpl; now rewrite E|].
  inversion IH; subst. constructor; [simpl; now rewrite E | assumption].
Qed.

Lemma split_comma_free (x : string) :
  comma_free x = true -> split_comma x = [x].
Proof.
  induction x as [|c x IH]; simpl; [reflexivity|].
  intros H. apply andb_prop in H. destruct H as (Hc & Hx).
  apply negb_true_iff in Hc. rewrite Hc, (IH Hx). reflexivity.
Qed.

Lemma split_comma_append (x rest : string) :
  comma_free x = true ->
  split_comma (x ++ "," ++ rest)%string = x :: split_comma rest.
Proof.
  induction x as [|c x IH]; simpl; [reflexivity|].
  intros H. apply andb_prop in H. destruct H as (Hc & Hx).
  apply negb_true_iff in Hc. rewrite Hc. simpl in IH. rewrite (IH Hx).
  reflexivity.
Qed.

Lemma split_join_comma (l : list string) :
  l <> [] ->
  Forall (fun piece => comma_free piece = true) l ->
  split_comma (String.concat "," l) = l.
Proof.
  induction l as [|x l IH]; [contradiction|].
  intros _ H. inversion H as [|? ? Hx Hl]; subst.
  destruct l as [|y l].
  - simpl. now apply split_comma_free.
  - rewrite concat_cons_cons, (split_comma_append _ _ Hx).
    rewrite IH; [reflexivity | discriminate | assumption].
Qed.

(** X1.  The comma-separated lists of the command line: an argument
    that was not given yields no name; an argument that was given yields
    at least one name, the empty text yielding the one name that is
    empty; the names contain no comma, and joining them with commas
    gives the argument back.  Conversely any non-empty list of
    comma-free names is what its comma-joined text is split into. *)
Theorem csv_to_array_round_trip :
  csv_to_array None = [] /\
  csv_to_array (Some EmptyString) = [EmptyString] /\
  (forall s,
      csv_to_array (Some s) <> [] /\
      Forall (fun piece => comma_free piece = true) (csv_to_array (Some s)) /\
      String.concat "," (csv_to_array (Some s)) = s) /\
  (forall l,
      l <> [] ->
      Forall (fun piece => comma_free piece = true) l ->
      csv_to_array (Some (String.concat "," l)) = l).
Proof.
  split; [reflexivity|]. split; [reflexivity|]. split.
  - intros s. simpl.
    split; [apply split_comma_not_nil|].
    split; [apply split_comma_pieces | apply join_split_comma].
  - intros l. simpl. apply split_join_comma.
Qed.

Example csv_to_array_of_two_names :
  csv_to_array (Some "idx_users_email,idx_orders_status"%string)
  = ["idx_users_email"%string; "idx_orders_status"%string].
Proof. reflexivity. Qed.

(** *** How the run is reported *)

(** X2.  When the deadline has already passed at the first look at the
    clock and stays passed, a run that was given indexes or tables sets
    the time-exit flag and yet counts no index, so that it is reported
    with "No indexes were found to reindex", not with the line about an
    early interruption: the count is tested before the flag. *)
Theorem late_start_reported_as_no_indexes
  (indexlist tablelist : list string) (s : St World) :
  (forall w, PrimFloat.leb (halt_time cfg) (fst (env_time w)) = true) ->
  idxcount (globals s) = 0 ->
  indexlist <> [] \/ tablelist <> [] ->
  let g := globals (final (run_all indexlist tablelist s)) in
  time_exit g = true /\
  idxcount g = 0 /\
  completion_message cfg g = "No indexes were found to reindex"%string.
Proof.
  intros Hpast Hzero Hgiven g.
  assert (Hg : g = set_time_exit (globals s)).
  { subst g. unfold run_all.
    set (body := fun idx : string => process_index (VStr idx) ;; ret tt).
    rewrite bind_unfold.
    assert (Hi : forall x s',
               exists w,
                 body x s'
                 = MkRun [EvClock (fst (env_time (world s')))]
                     (MkSt w (set_time_exit (globals s'))) (inl tt)).
    { intros x s'. eexists. unfold body. rewrite bind_unfold.
      unfold process_index.
      rewrite bind_unfold, (deadline_reached_true s' (Hpast _)). reflexivity. }
    assert (Ht : forall x s',
               exists w,
                 process_table x s'
                 = MkRun [EvClock (fst (env_time (world s')))]
                     (MkSt w (set_time_exit (globals s'))) (inl tt)).
    { intros x s'. eexists. unfold process_table.
      rewrite bind_unfold, (deadline_reached_true s' (Hpast _)). reflexivity. }
    pose proof (for_each_past_deadline body Hi indexlist s) as G1.
    assert (R1 : exists u, result (for_each body indexlist s) = inl u).
    { clear -Hi. revert s. induction indexlist as [|x l IH]; intros s.
      - simpl. eauto.
      - simpl for_each. rewrite bind_unfold. destruct (Hi x s) as (w & ->).
        cbn [result events final]. apply IH. }
    destruct R1 as ([] & R1). rewrite R1. cbn [final].
    rewrite (for_each_past_deadline process_table Ht), G1.
    destruct indexlist, tablelist; try reflexivity.
    destruct Hgiven; contradiction. }
  rewrite Hg. unfold completion_message. simpl. rewrite Hzero.
  repeat split.
Qed.

(** *** Counters *)

(** X3.  Over a whole run, however it ends, the time-exit flag is never
    cleared once set and none of the six counters ever decreases. *)
Theorem counters_never_decrease
  (indexlist tablelist : list string) (s : St World) :
  counters_grow (globals s) (globals (final (run_all indexlist tablelist s))).
Proof.
  assert (Hrefl : forall g, counters_grow g g).
  { intros g. unfold counters_grow. repeat split; auto; lia. }
  assert (Htrans : forall g1 g2 g3,
             counters_grow g1 g2 -> counters_grow g2 g3 -> counters_grow g1 g3).
  { unfold counters_grow. intros g1 g2 g3 H1 H2.
    destruct H1 as (? & ? & ? & ? & ? & ? & ?).
    destruct H2 as (? & ? & ? & ? & ? & ? & ?).
    repeat split; auto; lia. }
  assert (Hstep : forall f : Globals -> Globals,
             (forall g, time_exit g = true -> time_exit (f g) = true) ->
             (forall g, tabcount g <= tabcount (f g)) ->
             (forall g, idxcount g <= idxcount (f g)) ->
             (forall g, idxcount_success g <= idxcount_success (f g)) ->
             (forall g, idxcount_ignored g <= idxcount_ignored (f g)) ->
             (forall g, idxcount_retries g <= idxcount_retries (f g)) ->
             (forall g, idxcount_notfound g <= idxcount_notfound (f g)) ->
             forall g, counters_grow g (f g)).
  { intros f ? ? ? ? ? ? ? g. unfold counters_grow. repeat split; auto. }
  assert (Hquery : forall q,
             if negb (dryrun cfg) || is_lookup q then True else True).
  { intros q. destruct (negb (dryrun cfg) || is_lookup q); exact I. }
  apply (sat_run_all (fun _ => True) counters_grow); auto;
    try (intros; apply Hstep; intros; simpl; auto; lia).
  intros t attempt.
  apply (sat_attempt_body (fun _ => True) counters_grow); auto;
    intros; apply Hstep; intros; simpl; auto; lia.
Qed.

(** *** An index that the catalog does not know *)








(** *** Properties of the record of a run, piece by piece

    The assumptions on [Q] are those of the outside calls and of the
    assignments; [A] holds of the statements that may be issued and
    [Tgt] of the targets that may be worked on. *)

Section Tracking.

Variable b : bool.
Variable Q : list event -> Globals -> Globals -> Prop.
Variable A : stmt -> Prop.
Variable Tgt : TargetIndex -> Prop.

Hypothesis Q_nil : forall g, Q [] g g.
Hypothesis Q_app :
  forall l1 l2 g1 g2 g3, Q l1 g1 g2 -> Q l2 g2 g3 -> Q (l1 ++ l2) g1 g3.

Hypothesis Q_clock : forall now g, Q [EvClock now] g g.
Hypothesis Q_deadline :
  forall now g,
    Q [EvClock now] g
      (if PrimFloat.leb (halt_time cfg) now then set_time_exit g else g).
Hypothesis Q_fetch : forall r g, Q [EvFetch r] g g.
Hypothesis Q_sleep : forall secs g, Q [EvSleep secs] g g.
Hypothesis Q_print : forall mode msg g, Q [EvPrint mode msg] g g.
Hypothesis Q_issue :
  forall q g, A q -> Q [EvExec q] g g /\ Q [EvDryRun q] g g.

Hypothesis Q_tabcount : forall g, Q [] g (incr_tabcount g).
Hypothesis Q_idxcount : forall g, Q [] g (incr_idxcount g).
Hypothesis Q_success : forall g, Q [] g (incr_success g).
Hypothesis Q_ignored : forall g, Q [] g (incr_ignored g).
Hypothesis Q_retries : forall g, Q [] g (incr_retries g).
Hypothesis Q_notfound : forall g, Q [] g (incr_notfound g).
Hypothesis Q_size_before : forall n g, Q [] g (set_size_before n g).
Hypothesis Q_size_after : forall n g, Q [] g (set_size_after n g).

Lemma tracks_ret {X : Type} (x : X) : tracks b Q (ret x).
Proof. intros s _. simpl. auto. Qed.

Lemma tracks_raise {X : Type} (e : exn) : tracks b Q (@raise X e).
Proof. intros s _. simpl. auto. Qed.

Lemma tracks_bind_post {X Y : Type} (m : M X) (f : X -> M Y)
  (Post : X -> Prop) :
  tracks b Q m ->
  (forall s x, result (m s) = inl x -> Post x) ->
  (forall x, Post x -> tracks b Q (f x)) ->
  tracks b Q (bind m f).
Proof.
  intros Hm Hpost Hf s Hc. rewrite bind_unfold in *.
  destruct (result (m s)) as [x|e] eqn:Er; cbn [events final result] in *.
  - apply Q_app with (g2 := globals (final (m s))).
    + apply Hm. intros _. eauto.
    + apply (Hf x (Hpost s x Er)). exact Hc.
  - apply Hm. intros Hb. destruct (Hc Hb) as (y & Hy). discriminate.
Qed.

Lemma tracks_bind {X Y : Type} (m : M X) (f : X -> M Y) :
  tracks b Q m -> (forall x, tracks b Q (f x)) -> tracks b Q (bind m f).
Proof.
  intros Hm Hf. apply tracks_bind_post with (Post := fun _ => True); auto.
Qed.

Lemma tracks_update (f : Globals -> Globals) :
  (forall g, Q [] g (f g)) -> tracks b Q (update f).
Proof. intros H s _. simpl. auto. Qed.

Lemma tracks_print (msg mode : string) : tracks b Q (_print msg mode).
Proof. intros s _. simpl. auto. Qed.

Lemma tracks_time_time : tracks b Q time_time.
Proof. intros s _. simpl. auto. Qed.

Lemma tracks_time_sleep (secs : Z) : tracks b Q (time_sleep secs).
Proof. intros s _. simpl. auto. Qed.

Lemma tracks_cur_fetchall : tracks b Q cur_fetchall.
Proof. intros s _. simpl. auto. Qed.

Lemma tracks_getitem {X : Type} (l : list X) (i : nat) :
  tracks b Q (getitem l i).
Proof.
  unfold getitem. destruct (nth_error l i);
    [apply tracks_ret | apply tracks_raise].
Qed.

Lemma tracks_dbquery (q : stmt) (ondryrun : bool) :
  A q -> tracks b Q (dbquery q ondryrun).
Proof.
  intros Ha s _. destruct (Q_issue q (globals s) Ha) as (He & Hd).
  destruct (negb (dryrun cfg) || ondryrun) eqn:E.
  - rewrite (dbquery_sent _ _ _ E). cbv zeta.
    destruct (fst (env_execute (sql q) (world s))); simpl; auto;
      match goal with
      | |- Q [?e1; ?e2] _ _ => apply (Q_app [e1] [e2] _ (globals s)); auto
      end.
  - rewrite (dbquery_printed _ _ _ E). simpl. auto.
Qed.

Lemma tracks_deadline_reached : tracks b Q deadline_reached.
Proof.
  intros s _. specialize (Q_deadline (fst (env_time (world s))) (globals s)).
  destruct (PrimFloat.leb (halt_time cfg) (fst (env_time (world s)))) eqn:E.
  - rewrite (deadline_reached_true s E). exact Q_deadline.
  - rewrite (deadline_reached_false s E). exact Q_deadline.
Qed.

Ltac allowed H :=
  apply H;
  unfold build_statements, size_statements, pk_swap_statements,
    plain_swap_statements;
  simpl; tauto.

Ltac tracks_step :=
  match goal with
  | |- tracks _ _ (bind _ _) => apply tracks_bind; [ | intros ? ]
  | |- tracks _ _ (ret _) => apply tracks_ret
  | |- tracks _ _ (raise _) => apply tracks_raise
  | |- tracks _ _ (update _) => apply tracks_update; assumption
  | |- tracks _ _ (_print _ _) => apply tracks_print
  | |- tracks _ _ (getitem _ _) => apply tracks_getitem
  | |- tracks _ _ cur_fetchall => apply tracks_cur_fetchall
  | |- tracks _ _ time_time => apply tracks_time_time
  | |- tracks _ _ (time_sleep _) => apply tracks_time_sleep
  | |- tracks _ _ deadline_reached => apply tracks_deadline_reached
  | |- tracks _ _ (if ?c then _ else _) => destruct c
  | |- tracks _ _ (match ?x with _ => _ end) => destruct x
  end.

Lemma tracks_first_row (i : nat) : tracks b Q (first_row i).
Proof. unfold first_row. repeat tracks_step. Qed.

Lemma tracks_pause : tracks b Q pause.
Proof. unfold pause. repeat tracks_step. Qed.

Lemma tracks_add_size_before (v : value) : tracks b Q (add_size_before v).
Proof.
  intros s _. unfold add_size_before.
  destruct (py_add_int _ v); simpl; auto.
Qed.

Lemma tracks_add_size_after (v : value) : tracks b Q (add_size_after v).
Proof.
  intros s _. unfold add_size_after.
  destruct (py_add_int _ v); simpl; auto.
Qed.

Lemma tracks_swap (t : TargetIndex) :
  rest_allowed A t -> tracks b Q (swap t).
Proof.
  intros H. unfold swap.
  repeat (tracks_step || (apply tracks_dbquery; allowed H)).
Qed.

Lemma tracks_record_sizes (t : TargetIndex) :
  rest_allowed A t -> tracks b Q (record_sizes t).
Proof.
  intros H. unfold record_sizes.
  repeat (apply tracks_first_row || apply tracks_add_size_before
          || apply tracks_add_size_after || tracks_step
          || (apply tracks_dbquery; allowed H)).
Qed.

Lemma tracks_index_bloat_stats (size_before size_after : value) :
  tracks b Q (index_bloat_stats size_before size_after).
Proof.
  intros s _.
  destruct (index_bloat_stats_quiet size_before size_after s) as (-> & ->).
  auto.
Qed.

Lemma tracks_on_valid (t : TargetIndex) :
  rest_allowed A t -> tracks b Q (on_valid t).
Proof.
  intros H. unfold on_valid.
  repeat (apply tracks_record_sizes || apply tracks_index_bloat_stats
          || apply tracks_swap
          || apply tracks_pause || tracks_step || exact H).
Qed.

Lemma tracks_on_invalid (t : TargetIndex) :
  A (DropIndex (idx_name_new t)) -> tracks b Q (on_invalid t).
Proof.
  intros H. unfold on_invalid.
  repeat (apply tracks_pause || tracks_step
          || (apply tracks_dbquery; exact H)).
Qed.

Lemma tracks_build_and_validate (t : TargetIndex) :
  build_allowed A t -> tracks b Q (build_and_validate t).
Proof.
  intros H. unfold build_and_validate.
  unfold build_allowed, build_statements in H.
  destruct (idx_create_new t) as [text| | |]; simpl in H;
    repeat (apply tracks_first_row || tracks_step
            || (apply tracks_dbquery; apply H; tauto)).
Qed.

(** From here on the build part and the rest of a pass are taken as
    given for the targets in [Tgt]. *)
Hypothesis H_build :
  forall t, Tgt t -> tracks b Q (build_and_validate t).
Hypothesis H_valid : forall t, Tgt t -> tracks b Q (on_valid t).
Hypothesis H_invalid : forall t, Tgt t -> tracks b Q (on_invalid t).

Lemma tracks_attempt_body (t : TargetIndex) (attempt : Z) :
  Tgt t -> tracks b Q (attempt_body t attempt).
Proof.
  intros Ht. unfold attempt_body.
  repeat (apply (H_build t Ht) || apply (H_valid t Ht)
          || apply (H_invalid t Ht) || tracks_step).
Qed.

(** From here on the passes of the loop are taken as given. *)
Hypothesis H_attempt :
  forall t attempt, Tgt t -> tracks b Q (attempt_body t attempt).

Lemma tracks_retry_loop (t : TargetIndex) (attempts : list Z) :
  Tgt t -> tracks b Q (retry_loop t attempts).
Proof.
  intros Ht. induction attempts as [|a rest IH]; simpl.
  - apply tracks_ret.
  - apply tracks_bind; [apply (H_attempt t a Ht)|].
    intros o. destruct o; repeat (apply IH || tracks_step).
Qed.

Lemma tracks_resolve (name : value) :
  (enforcetime cfg = true -> forall n, A (SetStatementTimeout n)) ->
  A (IdxInfoQuery (py_str name)) ->
  A (IdxCreateNewQuery (py_str name)) ->
  tracks b Q (resolve name).
Proof.
  intros Ht Hi Hd. unfold resolve.
  destruct (enforcetime cfg); [specialize (Ht eq_refl)|];
    repeat (apply tracks_first_row || tracks_step
            || (apply tracks_dbquery; auto)).
Qed.

Lemma tracks_process_index (name : value) :
  (enforcetime cfg = true -> forall n, A (SetStatementTimeout n)) ->
  A (IdxInfoQuery (py_str name)) ->
  A (IdxCreateNewQuery (py_str name)) ->
  (forall t,
      idx_name t = name ->
      py_concat name "_new" = Some (idx_name_new t) ->
      Tgt t) ->
  tracks b Q (process_index name).
Proof.
  intros Ht Hi Hd Htgt. unfold process_index.
  apply tracks_bind; [apply tracks_deadline_reached|].
  intros expired. destruct expired; [apply tracks_ret|].
  apply tracks_bind; [apply tracks_print | intros _].
  apply tracks_bind; [apply tracks_update; assumption | intros _].
  destruct (py_in name (ignorelist cfg)); [repeat tracks_step|].
  apply tracks_bind_post
    with (Post := fun ot =>
                    forall t, ot = Some t ->
                              idx_name t = name /\
                              py_concat name "_new" = Some (idx_name_new t)).
  - now apply tracks_resolve.
  - intros s ot Hr t ->.
    destruct (resolve_issues name s t Hr) as (Hn & Hc & _). auto.
  - intros ot Hpost. destruct ot as [t|]; [|apply tracks_ret].
    destruct (Hpost t eq_refl) as (Hn & Hc).
    apply tracks_retry_loop. now apply Htgt.
Qed.

(** From here on the work on one index is taken as given. *)
Hypothesis H_index : forall name, tracks b Q (process_index name).

Lemma tracks_for_each {X : Type} (body : X -> M unit) (l : list X) :
  (forall x, tracks b Q (body x)) -> tracks b Q (for_each body l).
Proof.
  intros H. induction l as [|x l IH]; simpl.
  - apply tracks_ret.
  - apply tracks_bind; [apply H | intros _; apply IH].
Qed.

Lemma tracks_process_table (tbl : string) :
  A (IdxNamesQuery tbl) -> tracks b Q (process_table tbl).
Proof.
  intros Ha. unfold process_table.
  apply tracks_bind; [apply tracks_deadline_reached|].
  intros expired. destruct expired; [apply tracks_ret|].
  apply tracks_bind; [apply tracks_print | intros _].
  apply tracks_bind; [apply tracks_update; assumption | intros _].
  apply tracks_bind; [now apply tracks_dbquery | intros _].
  apply tracks_bind; [apply tracks_cur_fetchall | intros idx_names].
  apply tracks_for_each. intros idx.
  apply tracks_bind; [apply tracks_getitem | intros name].
  apply tracks_bind; [apply H_index | intros _; apply tracks_ret].
Qed.

Lemma tracks_run_all (indexlist tablelist : list string) :
  (forall tbl, A (IdxNamesQuery tbl)) ->
  tracks b Q (run_all indexlist tablelist).
Proof.
  intros Ha. unfold run_all. apply tracks_bind.
  - apply tracks_for_each. intros idx.
    apply tracks_bind; [apply H_index | intros _; apply tracks_ret].
  - intros _. apply tracks_for_each. intros tbl.
    now apply tracks_process_table.
Qed.

End Tracking.

(** *** The time-exit flag *)

Lemma exit_only_when_late_app (l1 l2 : list event) (g1 g2 g3 : Globals) :
  exit_only_when_late l1 g1 g2 ->
  exit_only_when_late l2 g2 g3 ->
  exit_only_when_late (l1 ++ l2) g1 g3.
Proof.
  unfold exit_only_when_late. rewrite existsb_app.
  intros [H1 | (L1 & T1)] [H2 | (L2 & T2)].
  - left. congruence.
  - right. rewrite L2, orb_true_r. auto.
  - right. rewrite L1. split; [reflexivity | congruence].
  - right. rewrite L1. auto.
Qed.

Local Ltac exit_side :=
  first
    [ exact exit_only_when_late_app
    | eassumption
    | solve [intros; exact I]
    | solve [intros; left; reflexivity]
    | solve [intros; split; left; reflexivity]
    | idtac ].

Lemma exit_only_when_late_run_all
  (indexlist tablelist : list string) (s : St World) :
  exit_only_when_late (events (run_all indexlist tablelist s))
    (globals s) (globals (final (run_all indexlist tablelist s))).
Proof.
  assert (Hdead : forall now g,
             exit_only_when_late [EvClock now] g
               (if PrimFloat.leb (halt_time cfg) now
                then set_time_exit g else g)).
  { intros now g. destruct (PrimFloat.leb (halt_time cfg) now) eqn:E.
    - right. simpl. rewrite E. auto.
    - left. reflexivity. }
  assert (Hb : forall t, True -> tracks false exit_only_when_late
                                 (build_and_validate t)).
  { intros t _.
    apply (tracks_build_and_validate false exit_only_when_late
             (fun _ => True) (fun _ => True)); exit_side. }
  assert (Hv : forall t, True -> tracks false exit_only_when_late
                                 (on_valid t)).
  { intros t _.
    apply (tracks_on_valid false exit_only_when_late (fun _ => True)
             (fun _ => True)); exit_side. }
  assert (Hi : forall t, True -> tracks false exit_only_when_late
                                 (on_invalid t)).
  { intros t _.
    apply (tracks_on_invalid false exit_only_when_late (fun _ => True));
      exit_side. }
  assert (Ha : forall t attempt, True ->
             tracks false exit_only_when_late (attempt_body t attempt)).
  { intros t attempt _.
    apply (tracks_attempt_body false exit_only_when_late (fun _ => True));
      exit_side. }
  assert (Hx : forall name, tracks false exit_only_when_late
                              (process_index name)).
  { intros name.
    apply (tracks_process_index false exit_only_when_late (fun _ => True)
             (fun _ => True)); exit_side. }
  apply (tracks_run_all false exit_only_when_late (fun _ => True));
    exit_side.
  discriminate.
Qed.

(** X6.  The time-exit flag is set only by a reading of the clock that
    has reached the deadline: over a whole run in which every reading is
    earlier, the flag keeps its value.  Such a run, once it has seen at
    least one index, is therefore reported with "All indexes/tables
    reindexed", whatever became of the indexes: rebuilt, not found,
    ignored or given up on after the last retry. *)
Theorem run_before_deadline_reported_as_complete
  (indexlist tablelist : list string) (s : St World) :
  time_exit (globals s) = false ->
  Forall (fun e => is_late e = false)
         (events (run_all indexlist tablelist s)) ->
  idxcount (globals (final (run_all indexlist tablelist s))) <> 0 ->
  let g := globals (final (run_all indexlist tablelist s)) in
  time_exit g = false /\
  completion_message cfg g = "All indexes/tables reindexed"%string.
Proof.
  intros Hflag Hearly Hseen g.
  assert (Hexit : time_exit g = false).
  { destruct (exit_only_when_late_run_all indexlist tablelist s)
      as [H | (Hlate & _)].
    - subst g. congruence.
    - exfalso. apply existsb_exists in Hlate.
      destruct Hlate as (e & Hin & He).
      rewrite Forall_forall in Hearly. rewrite (Hearly e Hin) in He.
      discriminate. }
  split; [exact Hexit|].
  unfold completion_message. fold g. rewrite Hexit.
  destruct (Z.eqb_spec (idxcount g) 0) as [Hz | Hz]; [|reflexivity].
  contradiction.
Qed.

(** *** The defensive drop before every build *)

Lemma builds_guarded_weaken (after_drop : bool) (l : list stmt) :
  builds_guarded false l = true -> builds_guarded after_drop l = true.
Proof.
  destruct l as [|q l]; simpl; [reflexivity|].
  rewrite !andb_true_iff, !orb_true_iff. intros ([H | H] & H'); [|discriminate].
  auto.
Qed.

Lemma builds_guarded_app (after_drop : bool) (l1 l2 : list stmt) :
  builds_guarded after_drop l1 = true ->
  builds_guarded false l2 = true ->
  builds_guarded after_drop (l1 ++ l2) = true.
Proof.
  revert after_drop. induction l1 as [|q l1 IH]; intros after_drop H1 H2.
  - now apply builds_guarded_weaken.
  - simpl in *. apply andb_true_iff in H1. destruct H1 as (Hq & H1).
    rewrite Hq. simpl. now apply IH.
Qed.

Lemma builds_guarded_split (after_drop : bool) (pre post : list stmt)
  (text : string) :
  builds_guarded after_drop (pre ++ CreateNew text :: post) = true ->
  (pre = [] /\ after_drop = true) \/
  exists pre' n, pre = pre' ++ [DropIndexIfExists n].
Proof.
  revert after_drop. induction pre as [|q pre IH]; intros after_drop H.
  - left. simpl in H. apply andb_true_iff in H. destruct H as (H & _).
    simpl in H. auto.
  - right. simpl in H. apply andb_true_iff in H. destruct H as (_ & H).
    destruct (IH _ H) as [(-> & Hq) | (pre' & n & ->)].
    + destruct q; try discriminate. eexists [], _. reflexivity.
    + exists (q :: pre'), n. reflexivity.
Qed.

Lemma first_row_stmts (i : nat) (s : St World) :
  stmts (events (first_row i s)) = [].
Proof.
  apply (tracks_first_row false (fun l _ _ => stmts l = [])); auto.
  - intros l1 l2 _ _ _ H1 H2. now rewrite stmts_app, H1, H2.
  - discriminate.
Qed.

(** However [build_and_validate] ends, it has issued the first few of
    its three statements. *)
Lemma build_and_validate_prefix (t : TargetIndex) (s : St World) :
  exists k,
    stmts (events (build_and_validate t s)) = firstn k (build_statements t).
Proof.
  unfold build_and_validate, build_statements.
  rewrite stmts_bind, dbquery_stmts.
  destruct (result (dbquery _ false s)) as [u|e];
    [|exists 1%nat; reflexivity].
  rewrite stmts_bind.
  destruct (idx_create_new t) as [text| | |];
    try (exists 1%nat; reflexivity).
  rewrite dbquery_stmts. simpl py_str.
  destruct (result (dbquery (CreateNew text) false _)) as [u'|e];
    [|exists 2%nat; reflexivity].
  rewrite stmts_bind, dbquery_stmts.
  destruct (result (dbquery (IdxValidQuery _) true _)) as [u''|e];
    [|exists 3%nat; reflexivity].
  exists 3%nat.
  destruct (dryrun cfg); [reflexivity|].
  now rewrite first_row_stmts.
Qed.

Lemma builds_guarded_run_all
  (indexlist tablelist : list string) (s : St World) :
  builds_guarded false (stmts (events (run_all indexlist tablelist s))) = true.
Proof.
  set (Q := fun (l : list event) (_ _ : Globals) =>
              builds_guarded false (stmts l) = true).
  set (A := fun q => is_build q = false).
  assert (Qnil : forall g, Q [] g g) by reflexivity.
  assert (Qapp : forall l1 l2 g1 g2 g3,
             Q l1 g1 g2 -> Q l2 g2 g3 -> Q (l1 ++ l2) g1 g3).
  { unfold Q. intros l1 l2 _ _ _ H1 H2. rewrite stmts_app.
    now apply builds_guarded_app. }
  assert (Qev : forall e g, issued e = None -> Q [e] g g).
  { unfold Q. intros e g H. simpl. now rewrite H. }
  assert (Qissue : forall q g, A q -> Q [EvExec q] g g /\ Q [EvDryRun q] g g).
  { unfold Q, A. intros q g H. simpl. rewrite H. auto. }
  assert (Hrest : forall t, rest_allowed A t).
  { intros t q Hq. unfold A. simpl in Hq.
    repeat (destruct Hq as [<- | Hq]; [reflexivity|]). contradiction. }
  assert (Hb : forall t, True -> tracks false Q (build_and_validate t)).
  { intros t _ s' _. unfold Q.
    destruct (build_and_validate_prefix t s') as (k & ->).
    unfold build_statements.
    destruct k as [|[|[|[|k]]]]; reflexivity. }
  assert (Hv : forall t, True -> tracks false Q (on_valid t)).
  { intros t _.
    apply (tracks_on_valid false Q A (fun _ => True)); auto. }
  assert (Hi : forall t, True -> tracks false Q (on_invalid t)).
  { intros t _. apply (tracks_on_invalid false Q A); auto.
    reflexivity. }
  assert (Ha : forall t attempt, True ->
             tracks false Q (attempt_body t attempt)).
  { intros t attempt _.
    apply (tracks_attempt_body false Q (fun _ => True)); auto. }
  assert (Hx : forall name, tracks false Q (process_index name)).
  { intros name.
    apply (tracks_process_index false Q A (fun _ => True)); auto;
      reflexivity. }
  apply (tracks_run_all false Q A); auto; try reflexivity.
  discriminate.
Qed.

(** X7.  Whatever happens during a run, no replacement index is built
    without the defensive [DROP INDEX CONCURRENTLY IF EXISTS] of line
    270 having been issued as the statement just before: a build is
    never the first statement, and the statement before a build is never
    anything else. *)
Theorem every_build_follows_defensive_drop
  (indexlist tablelist : list string) (s : St World)
  (pre post : list stmt) (text : string) :
  stmts (events (run_all indexlist tablelist s))
  = pre ++ CreateNew text :: post ->
  exists pre' n, pre = pre' ++ [DropIndexIfExists n].
Proof.
  intros H.
  pose proof (builds_guarded_run_all indexlist tablelist s) as G.
  rewrite H in G.
  destruct (builds_guarded_split _ _ _ _ G) as [(_ & F) | G']; [discriminate|].
  exact G'.
Qed.

(** *** The statements of a unit of work *)

Lemma retry_loop_own_statements (t : TargetIndex) (attempts : list Z)
  (s : St World) :
  Forall (own_statement (py_str (idx_name t)) (py_str (table t))
            (py_str (idx_create_new t)))
         (stmts (events (retry_loop t attempts s))) \/
  idx_name_new t <> (py_str (idx_name t) ++ "_new")%string.
Proof.
  destruct (string_dec (idx_name_new t) (py_str (idx_name t) ++ "_new"))
    as [Hnew | Hnew]; [left | right; exact Hnew].
  set (own := own_statement (py_str (idx_name t)) (py_str (table t))
                (py_str (idx_create_new t))).
  set (Q := fun (l : list event) (_ _ : Globals) => Forall own (stmts l)).
  set (Tgt := fun t' : TargetIndex => t' = t).
  assert (Qnil : forall g, Q [] g g) by (intros g; constructor).
  assert (Qapp : forall l1 l2 g1 g2 g3,
             Q l1 g1 g2 -> Q l2 g2 g3 -> Q (l1 ++ l2) g1 g3).
  { unfold Q. intros l1 l2 _ _ _ H1 H2. rewrite stmts_app.
    apply Forall_app. auto. }
  assert (Qissue : forall q g, own q ->
                               Q [EvExec q] g g /\ Q [EvDryRun q] g g).
  { unfold Q. intros q g H. simpl. auto. }
  assert (Hquiet : forall e g g', issued e = None -> Q [e] g g').
  { unfold Q. intros e g g' H. simpl. rewrite H. constructor. }
  assert (Hown : forall q,
             In q (build_statements t ++ size_statements t
                   ++ pk_swap_statements t ++ plain_swap_statements t
                   ++ [DropIndex (idx_name_new t)]) -> own q).
  { intros q Hq. right. simpl in Hq. rewrite Hnew in Hq.
    unfold index_statements.
    repeat (destruct Hq as [<- | Hq]; [simpl; tauto|]). contradiction. }
  assert (Hb : forall t', Tgt t' -> tracks false Q (build_and_validate t')).
  { intros t' ->.
    apply (tracks_build_and_validate false Q own Tgt); auto.
    intros q Hq. apply Hown. apply in_or_app. left. exact Hq. }
  assert (Hv : forall t', Tgt t' -> tracks false Q (on_valid t')).
  { intros t' ->.
    apply (tracks_on_valid false Q own Tgt); auto;
      try solve [intros; apply Forall_nil].
    intros q Hq. apply Hown. apply in_or_app. right. exact Hq. }
  assert (Hi : forall t', Tgt t' -> tracks false Q (on_invalid t')).
  { intros t' ->.
    apply (tracks_on_invalid false Q own); auto;
      try solve [intros; apply Forall_nil].
    apply Hown. simpl. tauto. }
  assert (Ha : forall t' attempt, Tgt t' ->
             tracks false Q (attempt_body t' attempt)).
  { intros t' attempt Ht.
    apply (tracks_attempt_body false Q Tgt); auto;
      try solve [intros; apply Forall_nil]. }
  apply (tracks_retry_loop false Q Tgt); auto. reflexivity. discriminate.
Qed.

Lemma resolve_own_statements (name : value) (tbl def : string)
  (s : St World) :
  Forall (own_statement (py_str name) tbl def)
         (stmts (events (resolve name s))).
Proof.
  set (own := own_statement (py_str name) tbl def).
  set (Q := fun (l : list event) (_ _ : Globals) => Forall own (stmts l)).
  apply (tracks_resolve false Q own); unfold Q; auto;
    try solve [intros; apply Forall_nil].
  - intros l1 l2 _ _ _ H1 H2. rewrite stmts_app. apply Forall_app. auto.
  - intros q g H. simpl. auto.
  - intros _ n. left. reflexivity.
  - right. simpl. tauto.
  - right. simpl. tauto.
  - discriminate.
Qed.

(** X8.  However the work on an index ends, the statements it has
    handed to [dbquery] are, besides the setting of the statement
    timeout, instances of the script's templates for this one index:
    the text of the name given and that text followed by [_new] stand
    in the places of the index and of its replacement, one text stands
    in every place of the table, and one text is every build.  No
    statement is built from another name, and the listing of a table's
    indexes is not among them. *)
Theorem process_index_issues_only_own_statements
  (name : value) (s : St World) :
  exists tbl def,
    Forall (own_statement (py_str name) tbl def)
           (stmts (events (process_index name s))).
Proof.
  unfold process_index. rewrite bind_unfold.
  destruct (PrimFloat.leb (halt_time cfg) (fst (env_time (world s)))) eqn:E.
  { rewrite (deadline_reached_true s E). exists EmptyString, EmptyString.
    constructor. }
  rewrite (deadline_reached_false s E). cbn [result final events].
  rewrite bind_unfold. cbn [_print result final events].
  rewrite bind_unfold. cbn [update result final events world globals].
  destruct (py_in name (ignorelist cfg)).
  { exists EmptyString, EmptyString. constructor. }
  set (s' := MkSt (snd (env_time (world s))) (incr_idxcount (globals s))).
  rewrite bind_unfold.
  destruct (result (resolve name s')) as [[t|]|e] eqn:Hres;
    cbn [events result final ret];
    rewrite ?stmts_app; cbn [stmts issued app]; rewrite ?app_nil_r.
  - destruct (resolve_issues name s' t Hres) as (Hn & Hc & _).
    exists (py_str (table t)), (py_str (idx_create_new t)).
    apply Forall_app. split; [apply resolve_own_statements|].
    destruct (retry_loop_own_statements t (py_range 1 (retries cfg + 1))
                (final (resolve name s'))) as [H | H].
    + rewrite Hn in H. exact H.
    + exfalso. apply H. rewrite Hn.
      destruct name; simpl in Hc; try discriminate.
      injection Hc as <-. reflexivity.
  - exists EmptyString, EmptyString. apply resolve_own_statements.
  - exists EmptyString, EmptyString. apply resolve_own_statements.
Qed.

(** *** The indexes seen and the indexes accounted for *)

Lemma ends_bind {X Y : Type} (m : M X) (f : X -> M Y)
  (F1 : Globals -> X + exn -> Globals -> Prop)
  (F2 : X -> Globals -> Y + exn -> Globals -> Prop)
  (F : Globals -> Y + exn -> Globals -> Prop) :
  ends m F1 ->
  (forall x, ends (f x) (F2 x)) ->
  (forall g e g1, F1 g (inr e) g1 -> F g (inr e) g1) ->
  (forall g x g1 r g2, F1 g (inl x) g1 -> F2 x g1 r g2 -> F g r g2) ->
  ends (bind m f) F.
Proof.
  intros Hm Hf He Hk s. rewrite bind_unfold. specialize (Hm s).
  destruct (result (m s)) as [x|e]; cbn [final result].
  - eapply Hk; [exact Hm | apply Hf].
  - apply He. exact Hm.
Qed.

Lemma ends_steady {X : Type} (m : M X) :
  tracks false (fun _ => steady) m -> ends m (fun g _ g' => steady g g').
Proof. intros H s. apply H. discriminate. Qed.

Local Ltac count_side :=
  intros; unfold within_count, adds, at_most_one, steady, accounted in *;
  simpl in *;
  repeat match goal with
         | H : _ /\ _ |- _ => destruct H
         | H : _ \/ _ |- _ => destruct H
         | H : inl _ = inl _ |- _ => injection H as H
         | |- context [if ?c then _ else _] => destruct c
         | |- context [match ?r with _ => _ end] => is_var r; destruct r
         | H : context [match ?r with _ => _ end] |- _ =>
             is_var r; destruct r
         end;
  subst; simpl in *; try discriminate; try exact I;
  repeat split; try lia; try congruence.

Local Ltac steady_block lemma :=
  apply ends_steady; apply lemma; try solve [count_side].

Lemma steady_dbquery (q : stmt) (ondryrun : bool) :
  ends (dbquery q ondryrun) (fun g _ g' => steady g g').
Proof.
  apply ends_steady.
  apply (tracks_dbquery false (fun _ => steady) (fun _ => True));
    try solve [count_side].
Qed.

Lemma steady_first_row (i : nat) :
  ends (first_row i) (fun g _ g' => steady g g').
Proof. steady_block tracks_first_row. Qed.

Lemma steady_getitem {X : Type} (l : list X) (i : nat) :
  ends (getitem l i) (fun g _ g' => steady g g').
Proof. steady_block @tracks_getitem. Qed.

Lemma steady_deadline_reached :
  ends deadline_reached (fun g _ g' => steady g g').
Proof. steady_block tracks_deadline_reached. Qed.

Lemma steady_build_and_validate (t : TargetIndex) :
  ends (build_and_validate t) (fun g _ g' => steady g g').
Proof.
  apply ends_steady.
  apply (tracks_build_and_validate false (fun _ => steady) (fun _ => True)
           (fun _ => True));
    try solve [count_side].
Qed.

Lemma steady_record_sizes (t : TargetIndex) :
  ends (record_sizes t) (fun g _ g' => steady g g').
Proof.
  apply ends_steady.
  apply (tracks_record_sizes false (fun _ => steady) (fun _ => True)
           (fun _ => True));
    try solve [count_side].
Qed.

Lemma steady_index_bloat_stats (size_before size_after : value) :
  ends (index_bloat_stats size_before size_after)
       (fun g _ g' => steady g g').
Proof.
  apply ends_steady. apply tracks_index_bloat_stats. count_side.
Qed.

Lemma steady_swap (t : TargetIndex) :
  ends (swap t) (fun g _ g' => steady g g').
Proof.
  apply ends_steady.
  apply (tracks_swap false (fun _ => steady) (fun _ => True)
           (fun _ => True));
    try solve [count_side].
Qed.

Lemma steady_pause : ends pause (fun g _ g' => steady g g').
Proof. steady_block tracks_pause. Qed.

Lemma steady_on_invalid (t : TargetIndex) :
  ends (on_invalid t) (fun g _ g' => steady g g').
Proof.
  apply ends_steady.
  apply (tracks_on_invalid false (fun _ => steady) (fun _ => True));
    try solve [count_side].
Qed.

Lemma steady_ret {X : Type} (x : X) :
  ends (ret x) (fun g _ g' => steady g g').
Proof. intros s. count_side. Qed.

Lemma steady_print (msg mode : string) :
  ends (_print msg mode) (fun g _ g' => steady g g').
Proof. intros s. count_side. Qed.

Lemma steady_cur_fetchall :
  ends cur_fetchall (fun g _ g' => steady g g').
Proof. intros s. count_side. Qed.

Lemma steady_timeout_part :
  ends (if enforcetime cfg then
          bind time_time
            (fun now =>
               match py_int (halt_time cfg - now)%float with
               | inl secs => dbquery (SetStatementTimeout (secs + 30)) false
               | inr e => raise e
               end)
        else ret tt)
       (fun g _ g' => steady g g').
Proof.
  destruct (enforcetime cfg); [|apply steady_ret].
  apply ends_bind with (F1 := fun g _ g' => steady g g')
                       (F2 := fun _ g _ g' => steady g g');
    [ intros s; count_side | intros now | count_side | count_side ].
  destruct (py_int (halt_time cfg - now)%float);
    [apply steady_dbquery | intros s; count_side].
Qed.

Lemma ends_weaken {X : Type} (m : M X)
  (F F' : Globals -> X + exn -> Globals -> Prop) :
  ends m F -> (forall g r g', F g r g' -> F' g r g') -> ends m F'.
Proof. intros H HF s. apply HF, H. Qed.

Local Ltac then_found lemma :=
  apply ends_bind
    with (F1 := fun g _ g' => steady g g')
         (F2 := fun _ g (r : option TargetIndex + exn) g' =>
                  steady g g' /\ r <> inl None);
  [ apply lemma | intros ? | count_side | count_side ].

Local Ltac then_steady lemma F :=
  apply ends_bind with (F1 := fun g _ g' => steady g g') (F2 := fun _ => F);
  [ apply lemma | intros ? | count_side | count_side ].

(** A valid replacement is counted once, and only when its swap has
    gone through. *)
Lemma on_valid_counts (t : TargetIndex) :
  ends (on_valid t) (adds (fun _ => 1)).
Proof.
  unfold on_valid.
  then_steady steady_record_sizes (@adds unit (fun _ => 1)).
  then_steady steady_index_bloat_stats (@adds unit (fun _ => 1)).
  then_steady steady_swap (@adds unit (fun _ => 1)).
  then_steady steady_pause (@adds unit (fun _ => 1)).
  intros s. count_side.
Qed.

Lemma attempt_body_counts (t : TargetIndex) (attempt : Z) :
  ends (attempt_body t attempt)
       (adds (fun o => match o with Valid => 1 | _ => 0 end)).
Proof.
  unfold attempt_body.
  then_steady steady_deadline_reached
    (adds (fun o => match o with Valid => 1 | _ => 0 end)).
  destruct x; [intros s; count_side|].
  then_steady steady_build_and_validate
    (adds (fun o => match o with Valid => 1 | _ => 0 end)).
  destruct (py_truthy x).
  - apply ends_bind with (F1 := @adds unit (fun _ => 1))
                         (F2 := fun _ g r g' => g' = g /\ r = inl Valid);
      [ apply on_valid_counts | intros _; intros s; simpl; auto
      | count_side | count_side ].
  - apply ends_bind with (F1 := fun g _ g' => steady g g')
                         (F2 := fun _ g r g' => g' = g /\ r = inl Invalid);
      [ apply steady_on_invalid | intros _; intros s; simpl; auto
      | count_side | count_side ].
Qed.

(** The loop accounts for the index at most once: it is left at the
    first valid replacement. *)
Lemma retry_loop_counts (t : TargetIndex) (attempts : list Z) :
  ends (retry_loop t attempts) (fun g _ g' => at_most_one g g').
Proof.
  induction attempts as [|a rest IH]; simpl.
  - intros s. count_side.
  - apply ends_bind
      with (F1 := adds (fun o => match o with Valid => 1 | _ => 0 end))
           (F2 := fun o =>
                    match o with
                    | Invalid => fun g _ g' => at_most_one g g'
                    | _ => fun g _ g' => steady g g'
                    end);
      [ apply attempt_body_counts | intros o | count_side | count_side ].
    destruct o; try apply steady_ret.
    apply ends_bind with (F1 := fun g _ g' => at_most_one g g')
                         (F2 := fun _ g _ g' => steady g g');
      [ apply IH | intros os; apply steady_ret | count_side | count_side ].
Qed.

(** An index that is not found is counted as such exactly when
    [resolve] returns without a target. *)
Lemma resolve_counts (name : value) :
  ends (resolve name)
       (adds (fun ot => match ot with None => 1 | Some _ => 0 end)).
Proof.
  unfold resolve.
  then_steady steady_timeout_part
    (adds (fun ot : option TargetIndex =>
             match ot with None => 1 | Some _ => 0 end)).
  then_steady steady_dbquery
    (adds (fun ot : option TargetIndex =>
             match ot with None => 1 | Some _ => 0 end)).
  then_steady steady_cur_fetchall
    (adds (fun ot : option TargetIndex =>
             match ot with None => 1 | Some _ => 0 end)).
  destruct (negb (List.length x1 =? 1)%nat); [intros s; count_side|].
  apply ends_weaken
    with (F := fun g (r : option TargetIndex + exn) g' =>
                 steady g g' /\ r <> inl None);
    [|count_side].
  then_found @steady_getitem.
  then_found @steady_getitem.
  then_found @steady_getitem.
  then_found @steady_getitem.
  apply ends_bind
    with (F1 := fun g _ g' => steady g g')
         (F2 := fun (_ : string) g (r : option TargetIndex + exn) g' =>
                  steady g g' /\ r <> inl None);
    [ destruct (py_concat name "_new"); [apply steady_ret | intros s; count_side]
    | intros new | count_side | count_side ].
  then_found steady_dbquery.
  then_found steady_first_row.
  intros s. count_side.
Qed.

(** Work on one index counts it once and accounts for it at most
    once. *)
Lemma process_index_counts (name : value) :
  ends (process_index name) (fun g _ g' => within_count g g').
Proof.
  unfold process_index.
  then_steady steady_deadline_reached
    (fun g (_ : list AttemptOutcome + exn) g' => within_count g g').
  destruct x; [intros s; count_side|].
  then_steady steady_print
    (fun g (_ : list AttemptOutcome + exn) g' => within_count g g').
  apply ends_bind
    with (F1 := fun g (_ : unit + exn) g' =>
                  idxcount g' = idxcount g + 1 /\ accounted g' = accounted g)
         (F2 := fun _ g (_ : list AttemptOutcome + exn) g' =>
                  at_most_one g g');
    [ intros s; count_side | intros _ | count_side | count_side ].
  destruct (py_in name (ignorelist cfg)); [intros s; count_side|].
  apply ends_bind
    with (F1 := adds (fun ot : option TargetIndex =>
                        match ot with None => 1 | Some _ => 0 end))
         (F2 := fun (ot : option TargetIndex) =>
                  match ot with
                  | None => fun g (_ : list AttemptOutcome + exn) g' =>
                              steady g g'
                  | Some _ => fun g _ g' => at_most_one g g'
                  end);
    [ apply resolve_counts | intros ot | count_side | count_side ].
  destruct ot as [t|]; [apply retry_loop_counts | apply steady_ret].
Qed.

(** X9.  The closing report never shows more indexes dealt with than
    indexes seen: over any run, complete or cut short by an error, the
    indexes counted as rebuilt, as ignored and as not found together
    grow by no more than the index counter does.  An index is counted
    when work on it starts and accounted for at most once, the loop
    being left at the first valid replacement. *)
Theorem accounted_indexes_within_count
  (indexlist tablelist : list string) (s : St World) :
  let g := globals s in
  let g' := globals (final (run_all indexlist tablelist s)) in
  (idxcount_success g' - idxcount_success g)
  + (idxcount_ignored g' - idxcount_ignored g)
  + (idxcount_notfound g' - idxcount_notfound g)
  <= idxcount g' - idxcount g.
Proof.
  intros g g'.
  assert (H : within_count g g').
  { apply (tracks_run_all false (fun _ => within_count) (fun _ => True));
      try solve [count_side]; try discriminate.
    intros name s' _. apply process_index_counts. }
  unfold within_count, accounted in H. lia.
Qed.

(** *** Rebuilt indexes and renames *)



Lemma count_rename_on_valid (t : TargetIndex) :
  count is_rename (size_statements t ++ swap_statements t) = 1%nat.
Proof.
  unfold swap_statements. destruct (py_truthy (is_pk t)); reflexivity.
Qed.


(** X11.  In a run that comes to its end, the indexes counted as
    rebuilt are as many as the renames issued: each rename of a
    replacement into place is followed, in the same pass, by the count
    of a success, and nothing else is renamed. *)
Theorem rebuilt_count_is_rename_count
  (indexlist tablelist : list string) (s : St World) (u : unit) :
  result (run_all indexlist tablelist s) = inl u ->
  let r := run_all indexlist tablelist s in
  idxcount_success (globals (final r)) - idxcount_success (globals s)
  = Z.of_nat (count is_rename (stmts (events r))).
Proof.
  intros Hret.
  set (Q := fun (l : list event) (g g' : Globals) =>
              idxcount_success g' - idxcount_success g
              = Z.of_nat (count is_rename (stmts l))).
  set (A := fun q => is_rename q = false).
  assert (Qnil : forall g, Q [] g g) by (intros g; unfold Q; simpl; lia).
  assert (Qapp : forall l1 l2 g1 g2 g3,
             Q l1 g1 g2 -> Q l2 g2 g3 -> Q (l1 ++ l2) g1 g3).
  { unfold Q. intros l1 l2 g1 g2 g3 H1 H2.
    rewrite stmts_app, count_app. lia. }
  assert (Qev : forall e g, issued e = None -> Q [e] g g).
  { unfold Q. intros e g H. simpl. rewrite H. simpl. lia. }
  assert (Qupd : forall g g', idxcount_success g' = idxcount_success g ->
                              Q [] g g').
  { unfold Q. intros g g' ->. simpl. lia. }
  assert (Qissue : forall q g, A q -> Q [EvExec q] g g /\ Q [EvDryRun q] g g).
  { unfold Q, A, count. intros q g H. simpl. rewrite H. simpl. lia. }
  assert (Qdead : forall now g,
             Q [EvClock now] g
               (if PrimFloat.leb (halt_time cfg) now
                then set_time_exit g else g)).
  { unfold Q. intros now g. destruct (PrimFloat.leb (halt_time cfg) now);
      simpl; lia. }
  assert (Hb : forall t, True -> tracks true Q (build_and_validate t)).
  { intros t _.
    apply (tracks_build_and_validate true Q A (fun _ => True)); auto.
    intros q Hq. unfold A. simpl in Hq.
    repeat (destruct Hq as [<- | Hq]; [reflexivity|]). contradiction. }
  assert (Hv : forall t, True -> tracks true Q (on_valid t)).
  { intros t _ s' Hr. destruct (Hr eq_refl) as (a & E). unfold Q.
    destruct (issues_on_valid t s' a E) as (-> & -> & _).
    rewrite count_rename_on_valid. lia. }
  assert (Hi : forall t, True -> tracks true Q (on_invalid t)).
  { intros t _. apply (tracks_on_invalid true Q A); auto. reflexivity. }
  assert (Ha : forall t attempt, True ->
             tracks true Q (attempt_body t attempt)).
  { intros t attempt _.
    apply (tracks_attempt_body true Q (fun _ => True)); auto. }
  assert (Hx : forall name, tracks true Q (process_index name)).
  { intros name.
    apply (tracks_process_index true Q A (fun _ => True));
      auto; reflexivity. }
  apply (tracks_run_all true Q A); auto; try reflexivity.
  intros _. exists u. exact Hret.
Qed.

(** *** The number of builds for one index *)

Lemma count_build_bind {X Y : Type} (m : M X) (f : X -> M Y) (s : St World)
  (n1 n2 : nat) :
  (count is_build (stmts (events (m s))) <= n1)%nat ->
  (forall x,
      (count is_build (stmts (events (f x (final (m s))))) <= n2)%nat) ->
  (count is_build (stmts (events (bind m f s))) <= n1 + n2)%nat.
Proof.
  intros H1 H2. rewrite stmts_bind, count_app.
  destruct (result (m s)) as [x|e].
  - specialize (H2 x). lia.
  - change (count is_build []) with 0%nat. lia.
Qed.

(** The statements that never are a build leave the count at zero. *)
Lemma no_build_outside_attempts :
  (forall t s, count is_build (stmts (events (on_valid t s))) = 0%nat) /\
  (forall t s, count is_build (stmts (events (on_invalid t s))) = 0%nat) /\
  (forall name s, count is_build (stmts (events (resolve name s))) = 0%nat) /\
  (forall s, count is_build (stmts (events (deadline_reached s))) = 0%nat).
Proof.
  set (Q := fun (l : list event) (_ _ : Globals) =>
              count is_build (stmts l) = 0%nat).
  set (A := fun q => is_build q = false).
  assert (Qnil : forall g, Q [] g g) by reflexivity.
  assert (Qapp : forall l1 l2 g1 g2 g3,
             Q l1 g1 g2 -> Q l2 g2 g3 -> Q (l1 ++ l2) g1 g3).
  { unfold Q. intros l1 l2 _ _ _ H1 H2. rewrite stmts_app, count_app. lia. }
  assert (Qissue : forall q g, A q -> Q [EvExec q] g g /\ Q [EvDryRun q] g g).
  { unfold Q, A, count. intros q g H. simpl. rewrite H. auto. }
  assert (Hrest : forall t, rest_allowed A t).
  { intros t q Hq. unfold A. simpl in Hq.
    repeat (destruct Hq as [<- | Hq]; [reflexivity|]). contradiction. }
  repeat split.
  - intros t s.
    apply (tracks_on_valid false Q A (fun _ => True)); auto. discriminate.
  - intros t s.
    apply (tracks_on_invalid false Q A); auto; try reflexivity. discriminate.
  - intros name s.
    apply (tracks_resolve false Q A); auto; try reflexivity. discriminate.
  - intros s.
    apply (tracks_deadline_reached false Q);
      [ intros now g; destruct (PrimFloat.leb (halt_time cfg) now); reflexivity
      | discriminate ].
Qed.

Lemma attempt_body_builds (t : TargetIndex) (attempt : Z) (s : St World) :
  (count is_build (stmts (events (attempt_body t attempt s))) <= 1)%nat.
Proof.
  destruct no_build_outside_attempts as (Hv & Hi & _ & Hd).
  unfold attempt_body.
  apply (count_build_bind _ _ s 0 1); [now rewrite Hd|].
  intros expired. destruct expired; [unfold count; simpl; lia|].
  apply (count_build_bind _ _ _ 1 0).
  - destruct (build_and_validate_prefix t (final (deadline_reached s)))
      as (k & ->).
    unfold build_statements.
    destruct k as [|[|[|[|k]]]]; cbv; lia.
  - intros v. destruct (py_truthy v).
    + apply (count_build_bind _ _ _ 0 0); [now rewrite Hv | intros; unfold count; simpl; lia].
    + apply (count_build_bind _ _ _ 0 0); [now rewrite Hi | intros; unfold count; simpl; lia].
Qed.

Lemma retry_loop_builds (t : TargetIndex) (attempts : list Z) (s : St World) :
  (count is_build (stmts (events (retry_loop t attempts s)))
   <= List.length attempts)%nat.
Proof.
  revert s. induction attempts as [|a rest IH]; intros s.
  - unfold count; simpl; lia.
  - cbn [retry_loop List.length].
    apply (count_build_bind _ _ s 1 (List.length rest));
      [apply attempt_body_builds|].
    intros o. destruct o; try (unfold count; simpl; lia).
    replace (List.length rest) with (List.length rest + 0)%nat by lia.
    apply count_build_bind; [apply IH | intros; unfold count; simpl; lia].
Qed.

(** X12.  The limit on retries bounds the builds: however the work on
    one index ends, it has issued at most [retries] statements that
    build a replacement, and none at all when [retries] is zero or
    negative. *)
Theorem builds_bounded_by_retries (name : value) (s : St World) :
  (count is_build (stmts (events (process_index name s)))
   <= Z.to_nat (retries cfg))%nat.
Proof.
  destruct no_build_outside_attempts as (_ & _ & Hr & Hd).
  unfold process_index.
  apply (count_build_bind _ _ s 0 (Z.to_nat (retries cfg)));
    [now rewrite Hd|].
  intros expired. destruct expired; [unfold count; simpl; lia|].
  apply (count_build_bind _ _ _ 0 (Z.to_nat (retries cfg)));
    [unfold count; simpl; lia | intros _].
  apply (count_build_bind _ _ _ 0 (Z.to_nat (retries cfg)));
    [unfold count; simpl; lia | intros _].
  destruct (py_in name (ignorelist cfg)).
  - apply (count_build_bind _ _ _ 0 (Z.to_nat (retries cfg)));
      [unfold count; simpl; lia | intros _].
    apply (count_build_bind _ _ _ 0 (Z.to_nat (retries cfg)));
      [unfold count; simpl; lia | intros _]. unfold count; simpl; lia.
  - apply (count_build_bind _ _ _ 0 (Z.to_nat (retries cfg)));
      [now rewrite Hr|].
    intros ot. destruct ot as [t|]; [|unfold count; simpl; lia].
    eapply Nat.le_trans; [apply retry_loop_builds|].
    rewrite length_py_range. apply Nat.eq_le_incl. f_equal. lia.
Qed.

(** *** The statement timeout without time enforcement *)

(** X13.  Without [--enforce-time] the session's statement timeout is
    left as it is: no statement of the run, on any index or table and
    however the run ends, sets it. *)
Theorem no_statement_timeout_without_enforcement
  (indexlist tablelist : list string) (s : St World) :
  enforcetime cfg = false ->
  Forall (fun q => is_timeout q = false)
         (stmts (events (run_all indexlist tablelist s))).
Proof.
  intros Hoff.
  set (Q := fun (l : list event) (_ _ : Globals) =>
              Forall (fun q => is_timeout q = false) (stmts l)).
  set (A := fun q => is_timeout q = false).
  assert (Qnil : forall g, Q [] g g) by (intros g; constructor).
  assert (Qapp : forall l1 l2 g1 g2 g3,
             Q l1 g1 g2 -> Q l2 g2 g3 -> Q (l1 ++ l2) g1 g3).
  { unfold Q. intros l1 l2 _ _ _ H1 H2. rewrite stmts_app.
    apply Forall_app. auto. }
  assert (Qev : forall e g, issued e = None -> Q [e] g g).
  { unfold Q. intros e g H. simpl. rewrite H. constructor. }
  assert (Qupd : forall g g', Q [] g g') by (intros g g'; constructor).
  assert (Qissue : forall q g, A q -> Q [EvExec q] g g /\ Q [EvDryRun q] g g).
  { unfold Q, A. intros q g H. simpl. auto. }
  assert (Hbuild : forall t, build_allowed A t).
  { intros t q Hq. unfold A. simpl in Hq.
    repeat (destruct Hq as [<- | Hq]; [reflexivity|]). contradiction. }
  assert (Hrest : forall t, rest_allowed A t).
  { intros t q Hq. unfold A. simpl in Hq.
    repeat (destruct Hq as [<- | Hq]; [reflexivity|]). contradiction. }
  assert (Hb : forall t, True -> tracks false Q (build_and_validate t)).
  { intros t _.
    apply (tracks_build_and_validate false Q A (fun _ => True)); auto. }
  assert (Hv : forall t, True -> tracks false Q (on_valid t)).
  { intros t _. apply (tracks_on_valid false Q A (fun _ => True)); auto. }
  assert (Hi : forall t, True -> tracks false Q (on_invalid t)).
  { intros t _. apply (tracks_on_invalid false Q A); auto. reflexivity. }
  assert (Ha : forall t attempt, True ->
             tracks false Q (attempt_body t attempt)).
  { intros t attempt _.
    apply (tracks_attempt_body false Q (fun _ => True)); auto. }
  assert (Hx : forall name, tracks false Q (process_index name)).
  { intros name.
    apply (tracks_process_index false Q A (fun _ => True)); auto;
      try reflexivity.
    rewrite Hoff. discriminate. }
  apply (tracks_run_all false Q A); auto; try reflexivity.
  discriminate.
Qed.

(** *** The pause between passes *)

(** X14.  The script sleeps only to pause between passes: every call of
    [time.sleep] is for the configured [pause_time], which is then
    positive, and, in any run, with a positive [pause_time] there are as
    many calls as passes counted, as a success or as a retry; with none
    configured the script never sleeps. *)
Theorem one_pause_per_finished_pass
  (indexlist tablelist : list string) (s : St World) :
  let r := run_all indexlist tablelist s in
  Forall sleep_is_pause (events r) /\
  Z.of_nat (List.length (filter is_sleep (events r)))
  = if 0 <? pause_time cfg
    then finished_passes (globals (final r)) - finished_passes (globals s)
    else 0.
Proof.
  set (Q := fun (l : list event) (g g' : Globals) =>
              Forall sleep_is_pause l /\
              Z.of_nat (List.length (filter is_sleep l))
              = if 0 <? pause_time cfg
                then finished_passes g' - finished_passes g
                else 0).
  assert (Qnil : forall g, Q [] g g).
  { intros g. split; [constructor|]. simpl.
    destruct (0 <? pause_time cfg); lia. }
  assert (Qapp : forall l1 l2 g1 g2 g3,
             Q l1 g1 g2 -> Q l2 g2 g3 -> Q (l1 ++ l2) g1 g3).
  { unfold Q. intros l1 l2 g1 g2 g3 (F1 & H1) (F2 & H2).
    split; [apply Forall_app; auto|].
    rewrite filter_app, length_app, Nat2Z.inj_add, H1, H2.
    destruct (0 <? pause_time cfg); lia. }
  assert (Qupd : forall g g', finished_passes g' = finished_passes g ->
                              Q [] g g').
  { intros g g' H. split; [constructor|]. simpl. rewrite H.
    destruct (0 <? pause_time cfg); lia. }
  assert (Qev : forall e g, is_sleep e = false -> Q [e] g g).
  { intros e g H. split.
    - constructor; [|constructor]. destruct e; try exact I. discriminate.
    - simpl. rewrite H. simpl. destruct (0 <? pause_time cfg); lia. }
  assert (Qissue : forall q g, True -> Q [EvExec q] g g /\ Q [EvDryRun q] g g).
  { intros q g _. split; apply Qev; reflexivity. }
  assert (Qdead : forall now g,
             Q [EvClock now] g
               (if PrimFloat.leb (halt_time cfg) now
                then set_time_exit g else g)).
  { intros now g. destruct (PrimFloat.leb (halt_time cfg) now).
    - apply (Qapp [EvClock now] [] g g); [apply Qev | apply Qupd]; reflexivity.
    - apply Qev. reflexivity. }
  assert (Hpause : forall (f : Globals -> Globals),
             (forall g, finished_passes (f g) = finished_passes g + 1) ->
             tracks false Q (bind pause (fun _ => update f))).
  { intros f Hf s' _. unfold pause, Q.
    destruct (0 <? pause_time cfg) eqn:E; simpl; rewrite ?E, ?Hf.
    - split; [|lia]. constructor; [|constructor]. simpl.
      apply Z.ltb_lt in E. auto.
    - split; [constructor | reflexivity]. }
  assert (Hrest : forall t, rest_allowed (fun _ => True) t).
  { intros t q _. exact I. }
  assert (Hb : forall t, True -> tracks false Q (build_and_validate t)).
  { intros t _.
    apply (tracks_build_and_validate false Q (fun _ => True) (fun _ => True));
      auto. intros q _. exact I. }
  assert (Hv : forall t, True -> tracks false Q (on_valid t)).
  { intros t _. unfold on_valid.
    apply (tracks_bind false Q); auto.
    - apply (tracks_record_sizes false Q (fun _ => True) (fun _ => True));
        auto.
    - intros sizes. apply (tracks_bind false Q); auto.
      + apply (tracks_index_bloat_stats false Q); auto.
      + intros _. apply (tracks_bind false Q); auto.
        * apply (tracks_swap false Q (fun _ => True) (fun _ => True)); auto.
        * intros _. apply Hpause. intros g. unfold finished_passes.
          simpl. lia. }
  assert (Hi : forall t, True -> tracks false Q (on_invalid t)).
  { intros t _. unfold on_invalid.
    apply (tracks_bind false Q); auto.
    - apply (tracks_dbquery false Q (fun _ => True)); auto.
    - intros _. apply Hpause. intros g. unfold finished_passes. simpl. lia. }
  assert (Ha : forall t attempt, True ->
             tracks false Q (attempt_body t attempt)).
  { intros t attempt _.
    apply (tracks_attempt_body false Q (fun _ => True)); auto. }
  assert (Hx : forall name, tracks false Q (process_index name)).
  { intros name.
    apply (tracks_process_index false Q (fun _ => True) (fun _ => True));
      auto. }
  apply (tracks_run_all false Q (fun _ => True)); auto.
  discriminate.
Qed.

(** *** The units of a run that ends in time *)

Lemma ends_of_tracks {X : Type} (m : M X) (R : Globals -> Globals -> Prop) :
  tracks false (fun _ => R) m -> ends m (fun g _ g' => R g g').
Proof. intros H s. apply H. discriminate. Qed.

(** Work on an index or a table begins with a look at the clock. *)
Lemma unit_reads_clock_first {X Y : Type} (x : Y) (body : M Y) (s : St World) :
  exists rest,
    events (bind deadline_reached
              (fun expired => if expired then ret x else body) s)
    = EvClock (fst (env_time (world s))) :: rest.
Proof.
  rewrite bind_unfold.
  destruct (PrimFloat.leb (halt_time cfg) (fst (env_time (world s)))) eqn:E.
  - rewrite (deadline_reached_true s E). cbn. eexists. reflexivity.
  - rewrite (deadline_reached_false s E). cbn. eexists. reflexivity.
Qed.

(** What follows the deadline check in [process_index] counts the
    index. *)
Lemma index_counted_after_check (name : value) :
  ends (_print ("Working on index " ++ py_str name) "INFO   " ;;
        update incr_idxcount ;;
        if py_in name (ignorelist cfg) then
          _print "Skipping (index in 'ignore-indexes' list)" "INFO   " ;;
          update incr_ignored ;;
          ret []
        else
          t <- resolve name ;;
          match t with
          | None => ret []
          | Some t => retry_loop t (py_range 1 (retries cfg + 1))
          end)
       (fun g _ g' => idxcount g' = idxcount g + 1).
Proof.
  apply ends_bind
    with (F1 := fun g (r : unit + exn) g' => g' = g /\ r = inl tt)
         (F2 := fun _ g (_ : list AttemptOutcome + exn) g' =>
                  idxcount g' = idxcount g + 1);
    [ intros s; simpl; auto | intros _ | count_side | count_side ].
  apply ends_bind
    with (F1 := fun g (r : unit + exn) g' =>
                  idxcount g' = idxcount g + 1 /\ r = inl tt)
         (F2 := fun _ g (_ : list AttemptOutcome + exn) g' =>
                  idxcount g' = idxcount g);
    [ intros s; simpl; auto | intros _ | count_side | count_side ].
  destruct (py_in name (ignorelist cfg)); [intros s; count_side|].
  apply ends_bind
    with (F1 := adds (fun ot : option TargetIndex =>
                        match ot with None => 1 | Some _ => 0 end))
         (F2 := fun (_ : option TargetIndex) g
                    (_ : list AttemptOutcome + exn) g' =>
                  idxcount g' = idxcount g);
    [ apply resolve_counts | intros ot | count_side | count_side ].
  destruct ot as [t|]; [|intros s; count_side].
  apply ends_weaken with (F := fun g _ g' => at_most_one g g');
    [apply retry_loop_counts | count_side].
Qed.

Lemma process_index_counted (name : value) (s : St World) :
  PrimFloat.leb (halt_time cfg) (fst (env_time (world s))) = false ->
  idxcount (globals (final (process_index name s)))
  = idxcount (globals s) + 1.
Proof.
  intros E. unfold process_index.
  rewrite bind_unfold, (deadline_reached_false s E).
  cbn [result final events].
  apply (index_counted_after_check name
           (MkSt (snd (env_time (world s))) (globals s))).
Qed.

(** A relation on the globals that every assignment made while working
    on an index respects holds across that work, however it ends. *)
Lemma kept_by_process_index (R : Globals -> Globals -> Prop) :
  (forall g, R g g) ->
  (forall g1 g2 g3, R g1 g2 -> R g2 g3 -> R g1 g3) ->
  (forall g, R g (set_time_exit g)) ->
  (forall g, R g (incr_idxcount g)) ->
  (forall g, R g (incr_success g)) ->
  (forall g, R g (incr_ignored g)) ->
  (forall g, R g (incr_retries g)) ->
  (forall g, R g (incr_notfound g)) ->
  (forall n g, R g (set_size_before n g)) ->
  (forall n g, R g (set_size_after n g)) ->
  forall name, tracks false (fun _ => R) (process_index name).
Proof.
  intros Rrefl Rtrans Rexit Ridx Rsucc Rign Rretr Rnf Rsb Rsa name.
  set (Q := fun (_ : list event) (g g' : Globals) => R g g').
  assert (Qapp : forall (l1 l2 : list event) g1 g2 g3,
             Q l1 g1 g2 -> Q l2 g2 g3 -> Q (l1 ++ l2) g1 g3).
  { unfold Q. intros l1 l2 g1 g2 g3. apply Rtrans. }
  assert (Qdead : forall now g,
             Q [EvClock now] g
               (if PrimFloat.leb (halt_time cfg) now
                then set_time_exit g else g)).
  { intros now g. unfold Q. destruct (PrimFloat.leb (halt_time cfg) now); auto. }
  assert (Qissue : forall q g, True -> Q [EvExec q] g g /\ Q [EvDryRun q] g g).
  { intros q g _. split; apply Rrefl. }
  assert (Hrest : forall t, rest_allowed (fun _ => True) t).
  { intros t q _. exact I. }
  assert (Hbuild : forall t, build_allowed (fun _ => True) t).
  { intros t q _. exact I. }
  apply (tracks_process_index false Q (fun _ => True) (fun _ => True));
    unfold Q; auto.
  intros t attempt _.
  apply (tracks_attempt_body false Q (fun _ => True));
    unfold Q; auto; intros t' _.
  - apply (tracks_build_and_validate false Q (fun _ => True) (fun _ => True));
      unfold Q; auto.
  - apply (tracks_on_valid false Q (fun _ => True) (fun _ => True));
      unfold Q; auto.
  - apply (tracks_on_invalid false Q (fun _ => True)); unfold Q; auto.
Qed.

Lemma process_index_keeps_tabcount (name : value) :
  tracks false (fun _ g g' => tabcount g' = tabcount g) (process_index name).
Proof.
  apply (kept_by_process_index (fun g g' => tabcount g' = tabcount g));
    intros; simpl; congruence.
Qed.

Lemma process_index_grows_idxcount (name : value) :
  tracks false (fun _ g g' => idxcount g <= idxcount g') (process_index name).
Proof.
  apply (kept_by_process_index (fun g g' => idxcount g <= idxcount g'));
    intros; simpl; lia.
Qed.

(** What follows the deadline check in [process_table] counts the
    table. *)
Lemma table_counted_after_check (tbl : string) :
  ends (_print ("Working on table " ++ tbl) "INFO   " ;;
        update incr_tabcount ;;
        dbquery (IdxNamesQuery tbl) true ;;
        idx_names <- cur_fetchall ;;
        for_each
          (fun idx => name <- getitem idx 0 ;; process_index name ;; ret tt)
          idx_names)
       (fun g _ g' => tabcount g' = tabcount g + 1).
Proof.
  apply ends_bind
    with (F1 := fun g (r : unit + exn) g' => g' = g /\ r = inl tt)
         (F2 := fun _ g (_ : unit + exn) g' => tabcount g' = tabcount g + 1);
    [ intros s; simpl; auto | intros _ | count_side | count_side ].
  apply ends_bind
    with (F1 := fun g (r : unit + exn) g' =>
                  tabcount g' = tabcount g + 1 /\ r = inl tt)
         (F2 := fun _ g (_ : unit + exn) g' => tabcount g' = tabcount g);
    [ intros s; simpl; auto | intros _ | count_side | count_side ].
  then_steady steady_dbquery
    (fun g (_ : unit + exn) g' => tabcount g' = tabcount g).
  then_steady steady_cur_fetchall
    (fun g (_ : unit + exn) g' => tabcount g' = tabcount g).
  apply ends_of_tracks with (R := fun g g' => tabcount g' = tabcount g).
  apply tracks_for_each; [reflexivity | intros; congruence |].
  intros idx. apply tracks_bind; [intros; congruence | |].
  - apply tracks_getitem. reflexivity.
  - intros name. apply tracks_bind; [intros; congruence | |].
    + apply process_index_keeps_tabcount.
    + intros _. apply tracks_ret. reflexivity.
Qed.

Lemma process_table_counted (tbl : string) (s : St World) :
  PrimFloat.leb (halt_time cfg) (fst (env_time (world s))) = false ->
  tabcount (globals (final (process_table tbl s)))
  = tabcount (globals s) + 1.
Proof.
  intros E. unfold process_table.
  rewrite bind_unfold, (deadline_reached_false s E).
  cbn [result final events].
  apply (table_counted_after_check tbl
           (MkSt (snd (env_time (world s))) (globals s))).
Qed.

Lemma early_first_reading (now : float) (rest rest' : list event) :
  Forall (fun e => is_late e = false) ((EvClock now :: rest) ++ rest') ->
  PrimFloat.leb (halt_time cfg) now = false.
Proof. intros H. inversion H. assumption. Qed.

Lemma explicit_indexes_counted (indexlist : list string) :
  forall (s : St World) (u : unit),
    let r := for_each (fun idx => process_index (VStr idx) ;; ret tt)
                      indexlist s in
    result r = inl u ->
    Forall (fun e => is_late e = false) (events r) ->
    idxcount (globals (final r))
    = idxcount (globals s) + Z.of_nat (List.length indexlist).
Proof.
  induction indexlist as [|idx rest IH]; intros s u r Hr Hearly; subst r.
  - simpl. lia.
  - cbn [for_each] in *.
    apply bind_inl in Hr. destruct Hr as (a & Ha & Hr & Ev & Fi).
    rewrite Ev in Hearly. rewrite Fi.
    rewrite (IH _ u Hr); [|apply Forall_app in Hearly; tauto].
    apply bind_inl in Ha. destruct Ha as (o & _ & _ & Ev' & Fi').
    assert (E : PrimFloat.leb (halt_time cfg) (fst (env_time (world s))) = false).
    { rewrite Ev' in Hearly.
      destruct (unit_reads_clock_first (X := unit) []
                  (_print ("Working on index " ++ py_str (VStr idx)) "INFO   " ;;
                   update incr_idxcount ;;
                   if py_in (VStr idx) (ignorelist cfg) then
                     _print "Skipping (index in 'ignore-indexes' list)"
                            "INFO   " ;;
                     update incr_ignored ;;
                     ret []
                   else
                     t <- resolve (VStr idx) ;;
                     match t with
                     | None => ret []
                     | Some t => retry_loop t (py_range 1 (retries cfg + 1))
                     end) s) as (tl & Hfirst).
      fold (process_index (VStr idx)) in Hfirst. rewrite Hfirst in Hearly.
      rewrite <- !app_assoc in Hearly. cbn [app] in Hearly.
      inversion Hearly. assumption. }
    rewrite Fi'. cbn [ret final].
    rewrite (process_index_counted _ _ E).
    cbn [List.length]. lia.
Qed.

Lemma named_tables_counted (tablelist : list string) :
  forall (s : St World) (u : unit),
    let r := for_each process_table tablelist s in
    result r = inl u ->
    Forall (fun e => is_late e = false) (events r) ->
    tabcount (globals (final r))
    = tabcount (globals s) + Z.of_nat (List.length tablelist).
Proof.
  induction tablelist as [|tbl rest IH]; intros s u r Hr Hearly; subst r.
  - simpl. lia.
  - cbn [for_each] in *.
    apply bind_inl in Hr. destruct Hr as (a & Ha & Hr & Ev & Fi).
    rewrite Ev in Hearly. rewrite Fi.
    rewrite (IH _ u Hr); [|apply Forall_app in Hearly; tauto].
    assert (E : PrimFloat.leb (halt_time cfg) (fst (env_time (world s))) = false).
    { destruct (unit_reads_clock_first (X := unit) tt
                  (_print ("Working on table " ++ tbl) "INFO   " ;;
                   update incr_tabcount ;;
                   dbquery (IdxNamesQuery tbl) true ;;
                   idx_names <- cur_fetchall ;;
                   for_each
                     (fun idx =>
                        name <- getitem idx 0 ;; process_index name ;; ret tt)
                     idx_names) s) as (tl & Hfirst).
      fold (process_table tbl) in Hfirst. rewrite Hfirst in Hearly.
      cbn [app] in Hearly. inversion Hearly. assumption. }
    rewrite (process_table_counted _ _ E).
    cbn [List.length]. lia.
Qed.

(** X15.  A run that comes to its end without ever finding the deadline
    reached has worked on every unit it was given: the table counter
    has grown by the number of tables named, and the index counter by at
    least the number of indexes named, the indexes of the tables coming
    on top. *)
Theorem complete_run_counts_every_unit
  (indexlist tablelist : list string) (s : St World) (u : unit) :
  result (run_all indexlist tablelist s) = inl u ->
  Forall (fun e => is_late e = false)
         (events (run_all indexlist tablelist s)) ->
  let g' := globals (final (run_all indexlist tablelist s)) in
  tabcount g' = tabcount (globals s) + Z.of_nat (List.length tablelist) /\
  idxcount (globals s) + Z.of_nat (List.length indexlist) <= idxcount g'.
Proof.
  intros Hr Hearly. unfold run_all in *.
  apply bind_inl in Hr. destruct Hr as (a & Ha & Hr & Ev & Fi).
  rewrite Ev in Hearly. apply Forall_app in Hearly.
  destruct Hearly as (Hearly1 & Hearly2).
  cbv zeta. rewrite Fi.
  set (s1 := final (for_each (fun idx => process_index (VStr idx) ;; ret tt)
                             indexlist s)) in *.
  split.
  - rewrite (named_tables_counted tablelist s1 u Hr Hearly2).
    f_equal.
    apply (tracks_for_each false (fun _ g g' => tabcount g' = tabcount g));
      [reflexivity | intros; congruence | | discriminate].
    intros idx. apply tracks_bind; [intros; congruence | |].
    + apply process_index_keeps_tabcount.
    + intros _. apply tracks_ret. reflexivity.
  - rewrite <- (explicit_indexes_counted indexlist s a Ha Hearly1).
    fold s1.
    apply (tracks_for_each false (fun _ g g' => idxcount g <= idxcount g'));
      [intros; lia | intros; lia | | discriminate].
    intros tbl.
    apply (tracks_process_table false (fun _ g g' => idxcount g <= idxcount g')
             (fun _ => True));
      first
        [ apply process_index_grows_idxcount
        | exact I
        | solve [intros; simpl; lia]
        | solve [intros now g; destruct (PrimFloat.leb (halt_time cfg) now);
                 simpl; lia]
        | solve [intros q g _; split; lia] ].
Qed.

End Engine.

(** ** The engine run against the small database *)

Section OnMiniPg.

Import MiniPg.

Local Open Scope list_scope.

Local Abbreviation index_on cfg :=
  (process_index pg time execute fetchall sleep formats cfg).
Local Abbreviation table_on cfg :=
  (process_table pg time execute fetchall sleep formats cfg).
Local Abbreviation attempt_on cfg :=
  (attempt_body pg time execute fetchall sleep formats cfg).
Local Abbreviation all_on cfg :=
  (run_all pg time execute fetchall sleep formats cfg).
Local Abbreviation dbquery_on cfg := (dbquery pg execute cfg).

(** A primary-key index whose first build is valid goes through the
    transaction. *)
Lemma primary_key_swap_on_mini_pg :
  result (attempt_on defaults (idx_target true) 1 (db [] true [] []))
  = inl Valid /\
  stmts (events (attempt_on defaults (idx_target true) 1 (db [] true [] [])))
  = [DropIndexIfExists "idx_new"; CreateNew indexdef_new;
     IdxValidQuery "idx_new";
     IdxSizeBeforeQuery "idx"; IdxSizeAfterQuery "idx_new";
     Analyse "t"; Begin; DropConstraint "t" "idx";
     RenameIndex "idx_new" "idx"; AddPrimaryKey "t" "idx"; Commit;
     Analyse "t"].
Proof.
  split; [reflexivity|].
  exact (proj1 (valid_replacement_swapped_by_primary_key
                  pg time execute fetchall sleep formats defaults
                  (idx_target true) 1 (db [] true [] []) eq_refl)
               eq_refl).
Defined.

(** First build invalid, second build valid: two builds, one swap. *)
Lemma second_attempt_valid_on_mini_pg :
  1 <= 2 <= retries defaults /\
  result (index_on defaults (VStr "idx") (db [] false [false] []))
  = inl [Invalid; Valid] /\
  idxcount_success
    (globals (final (index_on defaults (VStr "idx") (db [] false [false] []))))
  = 1 /\
  count is_build
    (stmts (events (index_on defaults (VStr "idx") (db [] false [false] []))))
  = 2%nat /\
  count is_rename
    (stmts (events (index_on defaults (VStr "idx") (db [] false [false] []))))
  = 1%nat.
Proof.
  assert (Hk : 1 <= 2 <= retries defaults) by (simpl; lia).
  pose proof (valid_attempt_swaps_once_and_stops
                pg time execute fetchall sleep formats defaults
                (VStr "idx") (db [] false [false] []) 2 [Invalid; Valid]
                Hk eq_refl eq_refl) as H.
  cbv zeta in H. destruct H as (_ & Hs & Hb & Hr & _).
  split; [exact Hk|]. split; [reflexivity|].
  split; [exact Hs|]. split; [exact Hb | exact Hr].
Defined.

(** Both builds invalid: each is followed by a drop of the replacement. *)
Lemma exhausted_retries_on_mini_pg :
  1 <= retries defaults /\
  result (index_on defaults (VStr "idx") (db [] false [false; false] []))
  = inl [Invalid; Invalid] /\
  exists t,
    idx_name_new t = "idx_new" /\
    Forall (fun q => is_swap_statement t q = false)
      (stmts (events (index_on defaults (VStr "idx")
                        (db [] false [false; false] [])))) /\
    count is_build
      (stmts (events (index_on defaults (VStr "idx")
                        (db [] false [false; false] [])))) = 2%nat /\
    count (is_drop_of (idx_name_new t))
      (stmts (events (index_on defaults (VStr "idx")
                        (db [] false [false; false] [])))) = 2%nat.
Proof.
  assert (Hr : 1 <= retries defaults) by (simpl; lia).
  pose proof (exhausted_retries_drop_each_replacement
                pg time execute fetchall sleep formats defaults
                (VStr "idx") (db [] false [false; false] [])
                Hr eq_refl) as H.
  cbv zeta in H.
  destruct H as (t & _ & Hc & _ & Hsw & Hb & Hd & _).
  split; [exact Hr|]. split; [reflexivity|].
  exists t. split; [simpl in Hc; now injection Hc as <-|].
  split; [exact Hsw|]. split; [exact Hb | exact Hd].
Defined.

(** With both builds invalid and the retry limit reached, the catalog
    holds no replacement when the engine gives up: the last statement
    issued for the index is the drop of the replacement. *)
Lemma no_stale_replacement_after_exhausted_retries :
  let r := index_on defaults (VStr "idx") (db [] false [false; false] []) in
  result r = inl [Invalid; Invalid] /\
  idxcount_retries (globals (final r)) = retries defaults /\
  last (stmts (events r)) Begin = DropIndex "idx_new" /\
  replacement (world (final r)) = None /\
  stale_replacements (world (final r)) <> 1%nat.
Proof.
  cbv zeta. repeat split; try reflexivity. vm_compute. discriminate.
Qed.

(** The clock already shows the deadline (two hours after the start):
    the index is not started. *)
Lemma deadline_reached_on_mini_pg :
  PrimFloat.leb (halt_time defaults)
    (fst (time (world (db [7200%float] false [] [])))) = true /\
  index_on defaults (VStr "idx") (db [7200%float] false [] [])
  = MkRun [EvClock 7200%float]
      (MkSt (MkPg [] false None [] [] FetchRaises)
         (MkGlobals true 0 0 0 0 0 0 0 0))
      (inl []) /\
  table_on defaults "t" (db [7200%float] false [] [])
  = MkRun [EvClock 7200%float]
      (MkSt (MkPg [] false None [] [] FetchRaises)
         (MkGlobals true 0 0 0 0 0 0 0 0))
      (inl tt) /\
  time_exit
    (globals (final (index_on defaults (VStr "idx")
                       (db [7200%float] false [] [])))) = true.
Proof.
  pose proof (deadline_checked_at_start_of_each_unit
                pg time execute fetchall sleep formats defaults
                (VStr "idx") "t" (idx_target false) 1
                (db [7200%float] false [] []) eq_refl) as H.
  cbv zeta in H. destruct H as (Hi & Ht & _ & Hflag & _).
  split; [reflexivity|]. split; [exact Hi|]. split; [exact Ht|].
  rewrite Hi. exact Hflag.
Defined.




(** A dry run over the index and over its table. *)
Lemma dry_run_on_mini_pg :
  dryrun (with_dryrun defaults) = true /\
  (forall q,
      In (EvExec q)
         (events (all_on (with_dryrun defaults) ["idx"] ["t"]
                    (db [] true [] []))) ->
      is_lookup q = true) /\
  idxcount_retries
    (globals (final (all_on (with_dryrun defaults) ["idx"] ["t"]
                       (db [] true [] [])))) = 0 /\
  result (index_on (with_dryrun defaults) (VStr "idx") (db [] true [] []))
  = inl [Valid] /\
  executed (events (index_on (with_dryrun defaults) (VStr "idx")
                      (db [] true [] [])))
  = [IdxInfoQuery "idx"; IdxCreateNewQuery "idx"; IdxValidQuery "idx_new";
     IdxSizeBeforeQuery "idx"] /\
  printed (events (index_on (with_dryrun defaults) (VStr "idx")
                     (db [] true [] [])))
  = [DropIndexIfExists "idx_new"; CreateNew indexdef_new;
     IdxSizeAfterQuery "idx_new";
     Analyse "t"; Begin; DropConstraint "t" "idx";
     RenameIndex "idx_new" "idx"; AddPrimaryKey "t" "idx"; Commit;
     Analyse "t"] /\
  total_idx_size_after
    (globals (final (index_on (with_dryrun defaults) (VStr "idx")
                       (db [] true [] [])))) = 8192.
Proof.
  pose proof (dry_run_prints_mutations_and_runs_lookups
                pg time execute fetchall sleep formats
                (with_dryrun defaults) ["idx"] ["t"] (db [] true [] [])
                eq_refl) as H.
  cbv zeta in H. destruct H as (He & _ & _ & _ & Hr & _ & _ & Hpass).
  destruct (Hpass (VStr "idx") (db [] true [] []) [Valid] eq_refl)
    as (t & _ & Hc & _ & Hx & _).
  { exists Valid. split; [left; reflexivity | discriminate]. }
  simpl in Hc. injection Hc as Hc. rewrite <- Hc in Hx.
  split; [reflexivity|]. split; [exact He|]. split; [exact Hr|].
  split; [reflexivity|]. split; [exact Hx|].
  split; reflexivity.
Defined.

(** A build that the database refuses: reported, then absorbed. *)
Lemma database_error_on_mini_pg :
  negb (dryrun defaults) || false = true /\
  dbquery_on defaults (CreateNew indexdef_new) false
    (db [] false [] [(indexdef_new, DatabaseError "deadlock detected")])
  = MkRun [EvExec (CreateNew indexdef_new);
           EvPrint "ERROR  " "DB query error: deadlock detected"]
      (db [] false [] [(indexdef_new, DatabaseError "deadlock detected")])
      (inl tt).
Proof.
  pose proof (dbquery_absorbs_cancel_and_database_error
                pg execute defaults (CreateNew indexdef_new) false
                (db [] false [] [(indexdef_new,
                                  DatabaseError "deadlock detected")])
                eq_refl) as H.
  cbv zeta in H. destruct H as (_ & _ & He & _).
  split; [reflexivity|].
  exact (He "deadlock detected" eq_refl).
Defined.

(** A table that does not exist. *)
Lemma missing_table_on_mini_pg :
  PrimFloat.leb (halt_time defaults)
    (fst (time (world (db [] false [] [])))) = false /\
  fst (fetchall
         (snd (execute (sql (IdxNamesQuery "no_such_table"))
                 (snd (time (world (db [] false [] [])))))))
  = FetchRows [] /\
  result (table_on defaults "no_such_table" (db [] false [] [])) = inl tt /\
  globals (final (table_on defaults "no_such_table" (db [] false [] [])))
  = incr_tabcount globals0.
Proof.
  assert (Hexec : forall exc,
             fst (execute (sql (IdxNamesQuery "no_such_table"))
                    (snd (time (world (db [] false [] [])))))
             <> OtherError exc) by (intros exc; discriminate).
  pose proof (table_without_index_rows_is_counted
                pg time execute fetchall sleep formats defaults
                "no_such_table" (db [] false [] [])
                eq_refl Hexec eq_refl) as H.
  cbv zeta in H. destruct H as (Hr & Hg & _).
  split; [reflexivity|]. split; [reflexivity|].
  split; [exact Hr | exact Hg].
Defined.

(** C9.  [cur.fetchall()[0][i]] raises [IndexError] whenever the result
    has no row, for want of any check of the row count; outside dry-run
    mode this is how a pass ends when its validity query comes back
    empty, and likewise a size lookup, or the definition fetch of an
    index that was resolved.  That does happen: when the build statement fails with a
    database error, the error is reported and absorbed, the catalog
    holds no row under the replacement name, the validity query yields
    no row, and the exception ends the whole run; the index that was
    next in the list is never started. *)
Theorem first_row_read_without_row_count_check :
  (forall (World : Type) (env_fetchall : World -> fetch_outcome * World)
          (i : nat) (s : St World),
      fst (env_fetchall (world s)) = FetchRows [] ->
      result (first_row World env_fetchall i s) = inr IndexError) /\
  (forall (World : Type)
          (env_execute : string -> World -> exec_outcome * World)
          (env_fetchall : World -> fetch_outcome * World)
          (cfg : Config) (t : TargetIndex) (s : St World),
      dryrun cfg = false ->
      In (EvFetch (FetchRows []))
         (events (build_and_validate World env_execute env_fetchall cfg t s)) ->
      result (build_and_validate World env_execute env_fetchall cfg t s)
      = inr IndexError) /\
  (forall (World : Type)
          (env_execute : string -> World -> exec_outcome * World)
          (env_fetchall : World -> fetch_outcome * World)
          (cfg : Config) (t : TargetIndex) (s : St World),
      In (EvFetch (FetchRows []))
         (events (record_sizes World env_execute env_fetchall cfg t s)) ->
      result (record_sizes World env_execute env_fetchall cfg t s)
      = inr IndexError) /\
  (forall (World : Type) (env_time : World -> float * World)
          (env_execute : string -> World -> exec_outcome * World)
          (env_fetchall : World -> fetch_outcome * World)
          (cfg : Config) (name : value) (s : St World) (found : row),
      In (EvFetch (FetchRows [found]))
         (events (resolve World env_time env_execute env_fetchall cfg name s)) ->
      In (EvFetch (FetchRows []))
         (events (resolve World env_time env_execute env_fetchall cfg name s)) ->
      result (resolve World env_time env_execute env_fetchall cfg name s)
      = inr IndexError) /\
  (let broken :=
     db [] false [] [(indexdef_new, DatabaseError "deadlock detected")] in
   let r := all_on defaults ["idx"; "idx"] [] broken in
   dryrun defaults = false /\
   In (EvPrint "ERROR  " "DB query error: deadlock detected") (events r) /\
   replacement (world (final r)) = None /\
   (exists before,
       events r
       = before ++ [EvExec (IdxValidQuery "idx_new"); EvFetch (FetchRows [])]) /\
   result r = inr IndexError /\
   idxcount (globals (final r)) = 1).
Proof.
  split; [|split; [|split; [|split]]].
  - intros World env_fetchall i s H.
    now rewrite (first_row_of_no_rows World env_fetchall i s H).
  - intros World env_execute env_fetchall cfg t s.
    apply validity_of_no_rows.
  - intros World env_execute env_fetchall cfg t s.
    apply sizes_of_no_rows.
  - intros World env_time env_execute env_fetchall cfg name s found.
    apply definition_of_no_rows.
  - cbv zeta. split; [reflexivity|].
    split; [vm_compute; tauto|].
    split; [reflexivity|].
    split; [|split; reflexivity].
    eexists. vm_compute. 
    match goal with
    | |- ?l = _ =>
        let n := constr:((List.length l - 2)%nat) in
        instantiate (1 := firstn n l)
    end.
    reflexivity.
Qed.

(** *** Further runs against the small database *)

(** A clock that has stopped at the deadline: two hours after the start
    of a run with the default limit. *)
Lemma late_start_on_stopped_clock :
  (forall w : unit,
      PrimFloat.leb (halt_time defaults)
        (fst ((fun w => (7200%float, w)) w)) = true) /\
  completion_message defaults
    (globals
       (final
          (run_all unit (fun w => (7200%float, w)) (fun _ w => (ExecOk, w))
             (fun w => (FetchRows [], w)) (fun _ w => w) formats defaults
             ["idx"] ["t"] (MkSt tt globals0))))
  = "No indexes were found to reindex"%string.
Proof.
  split; [intros w; reflexivity|].
  apply (late_start_reported_as_no_indexes
           unit (fun w => (7200%float, w)) (fun _ w => (ExecOk, w))
           (fun w => (FetchRows [], w)) (fun _ w => w) formats defaults
           ["idx"] ["t"] (MkSt tt globals0));
    [ intros w; reflexivity | reflexivity | left; discriminate ].
Defined.


(** The index [idx] named on its own and again through its table [t];
    the first build is invalid, the later ones are valid.  The clock
    stays at the start of the run. *)
Lemma run_in_time_on_mini_pg :
  completion_message defaults
    (globals (final (all_on defaults ["idx"] ["t"] (db [] true [false] []))))
  = "All indexes/tables reindexed"%string.
Proof.
  apply (run_before_deadline_reported_as_complete
           pg time execute fetchall sleep formats defaults
           ["idx"] ["t"] (db [] true [false] [])).
  - reflexivity.
  - vm_compute. repeat constructor.
  - vm_compute. discriminate.
Defined.

Lemma build_after_drop_on_mini_pg :
  exists pre' n,
    [IdxInfoQuery "idx"; IdxCreateNewQuery "idx"; DropIndexIfExists "idx_new"]
    = pre' ++ [DropIndexIfExists n].
Proof.
  exact (every_build_follows_defensive_drop
           pg time execute fetchall sleep formats defaults
           ["idx"] [] (db [] true [] [])
           [IdxInfoQuery "idx"; IdxCreateNewQuery "idx";
            DropIndexIfExists "idx_new"]
           [IdxValidQuery "idx_new";
            IdxSizeBeforeQuery "idx"; IdxSizeAfterQuery "idx_new";
            Analyse "t"; Begin; DropConstraint "t" "idx";
            RenameIndex "idx_new" "idx"; AddPrimaryKey "t" "idx"; Commit;
            Analyse "t"]
           indexdef_new eq_refl).
Defined.

Lemma rebuilt_matches_renames_on_mini_pg :
  result (all_on defaults ["idx"] ["t"] (db [] true [false] [])) = inl tt /\
  idxcount_success
    (globals (final (all_on defaults ["idx"] ["t"] (db [] true [false] []))))
  - 0
  = Z.of_nat
      (count is_rename
         (stmts (events (all_on defaults ["idx"] ["t"]
                           (db [] true [false] []))))).
Proof.
  split; [reflexivity|].
  exact (rebuilt_count_is_rename_count
           pg time execute fetchall sleep formats defaults
           ["idx"] ["t"] (db [] true [false] []) tt eq_refl).
Defined.

Lemma no_timeout_on_mini_pg :
  enforcetime defaults = false /\
  Forall (fun q => is_timeout q = false)
    (stmts (events (all_on defaults ["idx"] ["t"] (db [] true [false] [])))).
Proof.
  split; [reflexivity|].
  exact (no_statement_timeout_without_enforcement
           pg time execute fetchall sleep formats defaults
           ["idx"] ["t"] (db [] true [false] []) eq_refl).
Defined.

Lemma complete_run_on_mini_pg :
  result (all_on defaults ["idx"] ["t"] (db [] true [false] [])) = inl tt /\
  tabcount
    (globals (final (all_on defaults ["idx"] ["t"] (db [] true [false] []))))
  = 0 + 1 /\
  0 + 1
  <= idxcount
       (globals (final (all_on defaults ["idx"] ["t"]
                          (db [] true [false] [])))).
Proof.
  split; [reflexivity|].
  apply (complete_run_counts_every_unit
           pg time execute fetchall sleep formats defaults
           ["idx"] ["t"] (db [] true [false] []) tt eq_refl).
  vm_compute. repeat constructor.
Defined.

End OnMiniPg.
